(** * openscad-viewer: the model-synchronisation core of [index.js]

    A shallow embedding of the server's mesh decoder, dependency scanner,
    compiler adapter, watch coordinator, synchronisation controller and
    peer channel, with the properties the specification states about
    them.

    How the program is read:
    - a JS number is its exact value (see below); a [Buffer] is a list
      of bytes; a JS string is the bytes of its UTF-8 encoding, except
      where a regular expression scans it, which is done on UTF-16 code
      units;
    - [path] is the POSIX implementation; the file system, the clock,
      the working and temporary directories form an environment [Env]
      that the program reads but does not write;
    - the module-level variables form a record [State]; a function that
      throws returns an error value;
    - an [async] function is a [Task]: it runs piece by piece, each piece
      uninterrupted, and between two pieces anything else may run;
    - the event loop is a step function on [System]: requests, settled
      operations, file changes, the clock and timers are its events. *)

From Stdlib Require Import ZArith QArith Lia List Bool Ascii String.
From Stdlib.Strings Require Import Byte.
From Stdlib Require Import DecimalString DecimalZ.
From Stdlib Require Import Floats.SpecFloat.
From stdpp Require Import base option list gmap strings.

Local Open Scope Z_scope.

(* ===================================================================== *)
(** * JavaScript numbers

    A JS number is an IEEE-754 double.  Every value the decoder handles
    is either read from a 32-bit float (exactly representable as a
    double) or produced by [parseFloat]; no arithmetic is ever done on
    them, only comparisons.  A number is therefore modelled by its exact
    value: a signed zero, an infinity, NaN, or [(-1)^s * m * 2^e].  One
    value may be written with several pairs [(m, e)]; comparisons go
    through the value, never through the pair. *)

Abbreviation number := spec_float.

Definition pInf : number := S754_infinity false.
Definition nInf : number := S754_infinity true.
Definition NaN : number := S754_nan.

Definition isNaN (x : number) : bool :=
  match x with S754_nan => true | _ => false end.

(** The rational value of a finite number (0 for the others). *)
Definition Qval (x : number) : Q :=
  match x with
  | S754_finite s m e =>
      (if s then inject_Z (Zneg m) else inject_Z (Zpos m)) * Qpower 2 e
  | _ => 0
  end%Q.

(** -1 for -Infinity, 1 for +Infinity, 0 for zeros and finite numbers. *)
Definition tier (x : number) : Z :=
  match x with
  | S754_infinity true => -1
  | S754_infinity false => 1
  | _ => 0
  end.

(** [x < y] on numbers: false as soon as one side is NaN. *)
Definition num_ltb (x y : number) : bool :=
  negb (isNaN x) && negb (isNaN y) &&
  ((tier x <? tier y) ||
   ((tier x =? 0) && (tier y =? 0) &&
    match Qcompare (Qval x) (Qval y) with Lt => true | _ => false end)).

(** [x <= y] on numbers. *)
Definition num_leb (x y : number) : bool :=
  negb (isNaN x) && negb (isNaN y) && negb (num_ltb y x).

(** [x === y] on numbers: NaN differs from everything, +0 equals -0. *)
Definition strict_eq (x y : number) : bool :=
  num_leb x y && num_leb y x.

Definition is_neg_zero (x : number) : bool :=
  match x with S754_zero true => true | _ => false end.
Definition is_pos_zero (x : number) : bool :=
  match x with S754_zero false => true | _ => false end.

(** [Math.min(a, b)] as ECMAScript defines it: the running lowest value
    starts at +Infinity; a NaN argument gives NaN; -0 replaces +0. *)
Definition min_step (lowest : number) (x : number) : number :=
  if isNaN lowest then NaN
  else if isNaN x then NaN
  else if is_neg_zero x && is_pos_zero lowest then x
  else if num_ltb x lowest then x
  else lowest.

Definition Math_min (a b : number) : number :=
  min_step (min_step pInf a) b.

(** [Math.max(a, b)]: the running highest value starts at -Infinity;
    +0 replaces -0. *)
Definition max_step (highest : number) (x : number) : number :=
  if isNaN highest then NaN
  else if isNaN x then NaN
  else if is_pos_zero x && is_neg_zero highest then x
  else if num_ltb highest x then x
  else highest.

Definition Math_max (a b : number) : number :=
  max_step (max_step nInf a) b.

(* ===================================================================== *)
(** * Buffers *)

(** A Node [Buffer] is a sequence of bytes. *)
Abbreviation Buffer := (list byte).

Definition buf_length (buf : Buffer) : Z := Z.of_nat (length buf).

Definition byte_at (buf : Buffer) (off : Z) : option Z :=
  if off <? 0 then None
  else (fun b => Z.of_N (Byte.to_N b)) <$> (buf !! Z.to_nat off).

(** [buffer.readUInt32LE(off)]; [None] stands for the RangeError thrown
    when the four bytes are not all inside the buffer. *)
Definition readUInt32LE (buf : Buffer) (off : Z) : option Z :=
  b0 ← byte_at buf off;
  b1 ← byte_at buf (off + 1);
  b2 ← byte_at buf (off + 2);
  b3 ← byte_at buf (off + 3);
  Some (b0 + Z.shiftl b1 8 + Z.shiftl b2 16 + Z.shiftl b3 24).

(** The number denoted by a 32-bit pattern read as an IEEE-754 binary32:
    bit 31 is the sign, bits 30..23 the biased exponent, bits 22..0 the
    fraction. *)
Definition float32_of_bits (bits : Z) : number :=
  let s := Z.testbit bits 31 in
  let ex := Z.land (Z.shiftr bits 23) 255 in
  let frac := Z.land bits 8388607 in
  if ex =? 255 then
    if frac =? 0 then S754_infinity s else S754_nan
  else if ex =? 0 then
    match frac with
    | Zpos m => S754_finite s m (-149)
    | _ => S754_zero s
    end
  else
    match 8388608 + frac with
    | Zpos m => S754_finite s m (ex - 150)
    | _ => S754_nan
    end.

(** [buffer.readFloatLE(off)]. *)
Definition readFloatLE (buf : Buffer) (off : Z) : option number :=
  float32_of_bits <$> readUInt32LE buf off.

(* ===================================================================== *)
(** * Mesh decoder: the binary scan of [parseStlBoundingBox] *)

(** The three-element arrays [min] and [max]. *)
Record vec3 := Vec3 { vx : number; vy : number; vz : number }.

Record BBox := mkBBox { bmin : vec3; bmax : vec3 }.

(** [min = [Infinity, Infinity, Infinity]], [max = [-Infinity, ...]]. *)
Definition emptyBox : BBox :=
  mkBBox (Vec3 pInf pInf pInf) (Vec3 nInf nInf nInf).

(** The three assignment lines that fold one vertex into [min]/[max]. *)
Definition foldVertex (b : BBox) (x y z : number) : BBox :=
  mkBBox
    (Vec3 (Math_min (vx (bmin b)) x) (Math_min (vy (bmin b)) y)
          (Math_min (vz (bmin b)) z))
    (Vec3 (Math_max (vx (bmax b)) x) (Math_max (vy (bmax b)) y)
          (Math_max (vz (bmax b)) z)).

(** One iteration of the inner loop: vertex [v] of the record at [base]. *)
Definition scanVertex (buf : Buffer) (base v : Z) (b : BBox) : option BBox :=
  let off := base + v * 12 in
  x ← readFloatLE buf off;
  y ← readFloatLE buf (off + 4);
  z ← readFloatLE buf (off + 8);
  Some (foldVertex b x y z).

(** The inner loop [for (let v = 0; v < 3; v++)] for triangle [i]. *)
Definition scanTriangle (buf : Buffer) (i : Z) (b : BBox) : option BBox :=
  let base := 84 + i * 50 + 12 in
  b1 ← scanVertex buf base 0 b;
  b2 ← scanVertex buf base 1 b1;
  scanVertex buf base 2 b2.

(** The outer loop, [todo] iterations starting at triangle [i]. *)
Fixpoint scanTriangles (buf : Buffer) (todo : nat) (i : Z) (b : BBox)
  : option BBox :=
  match todo with
  | O => Some b
  | S k => b' ← scanTriangle buf i b; scanTriangles buf k (i + 1) b'
  end.

(** The block under the comment "Try binary STL".  The result says
    whether the function returned from inside the block ([true]) and
    gives the [min]/[max] arrays at that point; [None] is a RangeError. *)
Definition binaryPhase (buf : Buffer) (b0 : BBox) : option (bool * BBox) :=
  if 84 <=? buf_length buf then
    numTriangles ← readUInt32LE buf 80;
    let expectedSize := 84 + numTriangles * 50 in
    if (0 <? numTriangles) && (expectedSize <=? buf_length buf) then
      b ← scanTriangles buf (Z.to_nat numTriangles) 0 b0;
      if negb (strict_eq (vx (bmin b)) pInf) then Some (true, b)
      else Some (false, b)
    else Some (false, b0)
  else Some (false, b0).

(* ===================================================================== *)
(** * Mesh decoder: the text fallback of [parseStlBoundingBox] *)

(** ** [buffer.toString('utf8')]

    The text is a sequence of UTF-16 code units.  Ill-formed input is
    replaced by U+FFFD, one per maximal ill-formed subsequence. *)

Record utf8_state := Utf8State
  { u_needed : Z; u_cp : Z; u_lower : Z; u_upper : Z }.

Definition utf8_lead (b : Z) : list Z * option utf8_state :=
  if b <=? 127 then ([b], None)
  else if (194 <=? b) && (b <=? 223) then
    ([], Some (Utf8State 1 (Z.land b 31) 128 191))
  else if (224 <=? b) && (b <=? 239) then
    ([], Some (Utf8State 2 (Z.land b 15)
                 (if b =? 224 then 160 else 128)
                 (if b =? 237 then 159 else 191)))
  else if (240 <=? b) && (b <=? 244) then
    ([], Some (Utf8State 3 (Z.land b 7)
                 (if b =? 240 then 144 else 128)
                 (if b =? 244 then 143 else 191)))
  else ([65533], None).

Fixpoint utf8_points (st : option utf8_state) (bytes : list Z) : list Z :=
  match bytes with
  | [] => match st with None => [] | Some _ => [65533] end
  | b :: rest =>
      match st with
      | None =>
          let '(out, st') := utf8_lead b in out ++ utf8_points st' rest
      | Some s =>
          if (u_lower s <=? b) && (b <=? u_upper s) then
            let cp := Z.lor (Z.shiftl (u_cp s) 6) (Z.land b 63) in
            if u_needed s =? 1 then cp :: utf8_points None rest
            else utf8_points
                   (Some (Utf8State (u_needed s - 1) cp 128 191)) rest
          else
            let '(out, st') := utf8_lead b in
            65533 :: out ++ utf8_points st' rest
      end
  end.

Definition utf16_units (cp : Z) : list Z :=
  if cp <? 65536 then [cp]
  else [55296 + Z.shiftr (cp - 65536) 10; 56320 + Z.land (cp - 65536) 1023].

Definition toString_utf8 (buf : Buffer) : list Z :=
  concat (map utf16_units
            (utf8_points None (map (fun b => Z.of_N (Byte.to_N b)) buf))).

(** ** The regular expression
    [/vertex\s+([-\d.eE+]+)\s+([-\d.eE+]+)\s+([-\d.eE+]+)/g] *)

Definition is_digit (c : Z) : bool := (48 <=? c) && (c <=? 57).

(** The class [\s] (no [u] flag: it ranges over code units). *)
Definition is_space (c : Z) : bool :=
  ((9 <=? c) && (c <=? 13)) || (c =? 32) || (c =? 160) || (c =? 5760) ||
  ((8192 <=? c) && (c <=? 8202)) || (c =? 8232) || (c =? 8233) ||
  (c =? 8239) || (c =? 8287) || (c =? 12288) || (c =? 65279).

(** The class [[-\d.eE+]]. *)
Definition is_numchar (c : Z) : bool :=
  (c =? 45) || is_digit c || (c =? 46) || (c =? 101) || (c =? 69) ||
  (c =? 43).

(** Longest prefix whose elements satisfy [p], and the rest. *)
Fixpoint span (p : Z -> bool) (l : list Z) : list Z * list Z :=
  match l with
  | c :: rest =>
      if p c then let '(a, b) := span p rest in (c :: a, b) else ([], l)
  | [] => ([], [])
  end.

(** [X+] for a class [X]: at least one element, as many as possible.  The
    classes [\s] and [[-\d.eE+]] are disjoint and alternate in the
    pattern, so giving back characters can never make a failed match
    succeed: the greedy reading is the only one to try. *)
Definition plus (p : Z -> bool) (l : list Z) : option (list Z * list Z) :=
  match span p l with
  | ([], _) => None
  | r => Some r
  end.

Fixpoint literal (lit l : list Z) : option (list Z) :=
  match lit, l with
  | [], _ => Some l
  | a :: lit', b :: l' => if a =? b then literal lit' l' else None
  | _ :: _, [] => None
  end.

(** The code units of "vertex". *)
Definition kw_vertex : list Z := [118; 101; 114; 116; 101; 120].

(** One attempt of the pattern at the head of [l]: the three captured
    groups and the length of the match. *)
Definition match_here (l : list Z)
  : option (list Z * list Z * list Z * nat) :=
  l1 ← literal kw_vertex l;
  '(s1, l2) ← plus is_space l1;
  '(g1, l3) ← plus is_numchar l2;
  '(s2, l4) ← plus is_space l3;
  '(g2, l5) ← plus is_numchar l4;
  '(s3, l6) ← plus is_space l5;
  '(g3, _) ← plus is_numchar l6;
  Some (g1, g2, g3,
        (6 + length s1 + length g1 + length s2 + length g2 + length s3
         + length g3)%nat).

(** ** [parseFloat] *)

Fixpoint digits_value (acc : Z) (ds : list Z) : Z :=
  match ds with
  | [] => acc
  | d :: rest => digits_value (10 * acc + (d - 48)) rest
  end.

(** The double nearest to [(-1)^neg * m * 10^e] (ties to even). *)
Definition round_decimal (neg : bool) (m e : Z) : number :=
  match m with
  | Zpos p =>
      if 0 <=? e then
        binary_normalize 53 1024 ((if neg then Zneg p else Zpos p) * 10 ^ e)
          0 false
      else
        match 10 ^ (- e) with
        | Zpos q =>
            SFdiv 53 1024 (S754_finite neg p 0) (S754_finite false q 0)
        | _ => S754_nan
        end
  | _ => S754_zero neg
  end.

(** The optional exponent part: [[eE][+-]?digits], taken only when at
    least one digit follows. *)
Definition exponent_part (l : list Z) : Z :=
  match l with
  | c :: rest =>
      if (c =? 101) || (c =? 69) then
        let '(neg, rest') :=
          match rest with
          | s :: r =>
              if s =? 45 then (true, r)
              else if s =? 43 then (false, r) else (false, rest)
          | [] => (false, rest)
          end in
        match span is_digit rest' with
        | ([], _) => 0
        | (ds, _) => if neg then - digits_value 0 ds else digits_value 0 ds
        end
      else 0
  | [] => 0
  end.

(** [parseFloat] on a string without leading white space and without the
    word Infinity (a captured group holds neither): the longest prefix
    that is a decimal literal is converted, NaN if there is none. *)
Definition parseFloat (s : list Z) : number :=
  let '(neg, s1) :=
    match s with
    | c :: r =>
        if c =? 45 then (true, r)
        else if c =? 43 then (false, r) else (false, s)
    | [] => (false, s)
    end in
  let '(ip, s2) := span is_digit s1 in
  let '(fp, s3, dot) :=
    match s2 with
    | c :: r =>
        if c =? 46 then let '(f, r') := span is_digit r in (f, r', true)
        else ([], s2, false)
    | [] => ([], s2, false)
    end in
  match ip, fp with
  | [], [] => NaN
  | _, _ =>
      round_decimal neg (digits_value 0 (ip ++ fp))
        (exponent_part s3 - Z.of_nat (length fp))
  end.

(** ** The [while ((m = re.exec(text)) !== null)] loop

    [skip] counts the code units of the last match still to be stepped
    over before the next attempt ([re.lastIndex]). *)
Fixpoint asciiScan (skip : nat) (text : list Z) (b : BBox) : BBox :=
  match text with
  | [] => b
  | _ :: rest =>
      match skip with
      | S k => asciiScan k rest b
      | O =>
          match match_here text with
          | Some (g1, g2, g3, len) =>
              asciiScan (len - 1) rest
                (foldVertex b (parseFloat g1) (parseFloat g2) (parseFloat g3))
          | None => asciiScan 0 rest b
          end
      end
  end.

(** The block under the comment "ASCII fallback". *)
Definition asciiFallback (buf : Buffer) (b : BBox) : BBox :=
  asciiScan 0 (toString_utf8 buf) b.

(** [parseStlBoundingBox(buffer)]; [None] would be a thrown RangeError. *)
Definition parseStlBoundingBox (buf : Buffer) : option BBox :=
  match binaryPhase buf emptyBox with
  | Some (true, b) => Some b
  | Some (false, b) => Some (asciiFallback buf b)
  | None => None
  end.

(* ===================================================================== *)
(** * Encoding A as the specification words it

    80-byte header, a little-endian 32-bit triangle count, then one
    50-byte record per triangle: a 12-byte normal and three vertices of
    three little-endian binary32 coordinates each.  These definitions
    slice the buffer; they do not follow the loop of the decoder. *)

(** The value of a little-endian byte sequence. *)
Fixpoint le_value (bs : list byte) : Z :=
  match bs with
  | [] => 0
  | b :: rest => Z.of_N (Byte.to_N b) + 256 * le_value rest
  end.

Definition slice (off len : nat) (buf : Buffer) : list byte :=
  take len (drop off buf).

(** The count field. *)
Definition declared_count (buf : Buffer) : Z := le_value (slice 80 4 buf).

(** The [i]-th 50-byte record. *)
Definition stl_record (buf : Buffer) (i : nat) : list byte :=
  slice (84 + 50 * i) 50 buf.

(** Coordinate [a] (0, 1, 2 for x, y, z) of vertex [v] of a record: the
    normal takes the first 12 bytes. *)
Definition record_coord (rec : list byte) (v a : nat) : number :=
  float32_of_bits (le_value (slice (12 + 12 * v + 4 * a) 4 rec)).

(** The coordinates on axis [a] of the vertices of the [todo] records
    starting with record [i]. *)
Definition coords_from (buf : Buffer) (i todo a : nat) : list number :=
  flat_map
    (fun j => map (fun v => record_coord (stl_record buf j) v a) (seq 0 3))
    (seq i todo).

(** The coordinates on axis [a] of all vertices of the first [n]
    records. *)
Definition mesh_coords (buf : Buffer) (n : nat) (a : nat) : list number :=
  coords_from buf 0 n a.

(** A well-formed Encoding-A mesh of [n] triangles. *)
Definition well_formed_A (buf : Buffer) (n : Z) : Prop :=
  84 <= buf_length buf /\ declared_count buf = n /\ 1 <= n /\
  84 + 50 * n <= buf_length buf.

(** [m] is a true minimum (maximum) of [l]: it occurs in [l] and no
    element is below (above) it. *)
Definition is_min_of (m : number) (l : list number) : Prop :=
  In m l /\ forall c, In c l -> num_leb m c = true.

Definition is_max_of (m : number) (l : list number) : Prop :=
  In m l /\ forall c, In c l -> num_leb c m = true.

Definition axis (a : nat) (v : vec3) : number :=
  match a with O => vx v | S O => vy v | _ => vz v end.

(** ** Sample meshes *)

Definition bytes_of (s : string) : list byte := list_byte_of_string s.

Definition zeros (n : nat) : list byte := repeat "000"%byte n.

(** Four bytes, least significant first. *)
Definition le32 (w : Z) : list byte :=
  map (fun k => match Byte.of_N (Z.to_N (Z.land (Z.shiftr w (8 * k)) 255))
                with Some b => b | None => "000"%byte end)
      [0; 1; 2; 3].

Definition vertex_bytes (x y z : Z) : list byte := le32 x ++ le32 y ++ le32 z.

(** A record with a zero normal, the three vertices given by the bit
    patterns of their coordinates, and a zero attribute word. *)
Definition record_bytes (v0 v1 v2 : Z * Z * Z) : list byte :=
  zeros 12
  ++ (let '(x, y, z) := v0 in vertex_bytes x y z)
  ++ (let '(x, y, z) := v1 in vertex_bytes x y z)
  ++ (let '(x, y, z) := v2 in vertex_bytes x y z)
  ++ zeros 2.

(** Bit patterns of some binary32 values. *)
Definition bits_one : Z := 1065353216.       (* 0x3F800000 *)
Definition bits_two : Z := 1073741824.       (* 0x40000000 *)
Definition bits_pinf : Z := 2139095040.      (* 0x7F800000 *)
Definition bits_nan : Z := 2143289344.       (* 0x7FC00000 *)
Definition bits_minus_three : Z := 3225419776. (* 0xC0400000 *)

(** One triangle (1,0,0) (0,2,0) (0,0,-3) under a zero header. *)
Definition plain_mesh : Buffer :=
  zeros 80 ++ le32 1
  ++ record_bytes (bits_one, 0, 0) (0, bits_two, 0) (0, 0, bits_minus_three).

(** The same layout, the x coordinate of the first vertex being NaN. *)
Definition nan_mesh : Buffer :=
  zeros 80 ++ le32 1
  ++ record_bytes (bits_nan, 0, 0) (0, bits_two, 0) (0, 0, bits_minus_three).

(** One triangle whose three x coordinates are +Infinity, under a header
    that starts with the text "vertex 1 2 3". *)
Definition inf_mesh : Buffer :=
  bytes_of "vertex 1 2 3" ++ zeros 68 ++ le32 1
  ++ record_bytes (bits_pinf, 0, 0) (bits_pinf, 0, 0) (bits_pinf, 0, 0).

Definition num_of_Z (z : Z) : number := binary_normalize 53 1024 z 0 false.

Definition pzero : number := S754_zero false.

(** On axis [a] the box holds a true minimum and a true maximum of the
    stored coordinates. *)
Definition exact_on_axis (buf : Buffer) (n : Z) (b : BBox) (a : nat) : Prop :=
  is_min_of (axis a (bmin b)) (mesh_coords buf (Z.to_nat n) a) /\
  is_max_of (axis a (bmax b)) (mesh_coords buf (Z.to_nat n) a).

(** The box is exact on the three axes. *)
Definition exact_box (buf : Buffer) (n : Z) (b : BBox) : Prop :=
  forall a, (a < 3)%nat -> exact_on_axis buf n b a.

(** No coordinate on axis [a] is NaN. *)
Definition nan_free (buf : Buffer) (n : Z) (a : nat) : Prop :=
  forall c, In c (mesh_coords buf (Z.to_nat n) a) -> isNaN c = false.

(** ** The buffers of the repository's tests *)

(** Equality of two boxes as numbers (what [deepStrictEqual] checks on
    boxes without NaN or -0). *)
Definition same_vec (u v : vec3) : bool :=
  strict_eq (vx u) (vx v) && strict_eq (vy u) (vy v)
  && strict_eq (vz u) (vz v).

Definition same_box (a b : BBox) : bool :=
  same_vec (bmin a) (bmin b) && same_vec (bmax a) (bmax b).

Definition box_of_ints (lo hi : Z * Z * Z) : BBox :=
  let '(a, b, c) := lo in
  let '(d, e, f) := hi in
  mkBBox (Vec3 (num_of_Z a) (num_of_Z b) (num_of_Z c))
         (Vec3 (num_of_Z d) (num_of_Z e) (num_of_Z f)).

(** The bit pattern [writeFloatLE] stores for a small integer. *)
Definition bits_of_int (z : Z) : Z :=
  match z with
  | Z0 => 0
  | Zpos p =>
      let e := Z.log2 (Zpos p) in
      Z.shiftl (127 + e) 23 + Z.shiftl (Zpos p - 2 ^ e) (23 - e)
  | Zneg p =>
      let e := Z.log2 (Zpos p) in
      2147483648 + Z.shiftl (127 + e) 23 + Z.shiftl (Zpos p - 2 ^ e) (23 - e)
  end.

(** [makeBinaryStl] of the test file, for triangles with integer
    coordinates: normal, then three vertices, then two zero bytes. *)
Definition test_triangle (normal v0 v1 v2 : Z * Z * Z) : list byte :=
  let enc '(x, y, z) :=
    le32 (bits_of_int x) ++ le32 (bits_of_int y) ++ le32 (bits_of_int z) in
  enc normal ++ enc v0 ++ enc v1 ++ enc v2 ++ zeros 2.

Definition makeBinaryStl (triangles : list (list byte)) : Buffer :=
  zeros 80 ++ le32 (Z.of_nat (length triangles)) ++ concat triangles.

Definition test_binary_one : Buffer :=
  makeBinaryStl [test_triangle (0, 0, 1) (-1, -2, -3) (4, 5, 6) (7, 8, 9)].

Definition test_binary_two : Buffer :=
  makeBinaryStl
    [test_triangle (0, 0, 1) (0, 0, 0) (1, 0, 0) (0, 1, 0);
     test_triangle (0, 0, -1) (10, 10, 10) (20, 20, 20) (15, 15, 15)].

Definition test_ascii : Buffer :=
  bytes_of "solid test
  facet normal 0 0 1
    outer loop
      vertex 1 2 3
      vertex 4 5 6
      vertex 7 8 9
    endloop
  endfacet
endsolid test".

(** The decoder returned a box equal to [expected]. *)
Definition box_is (r : option BBox) (expected : BBox) : bool :=
  match r with
  | Some b => same_box b expected
  | None => false
  end.

(* ===================================================================== *)
(** * Peer channel: [wsClients], [pendingRequests], [sendAndWait] *)

(** Messages the server writes to a socket ([ws.send(JSON.stringify(..))]):
    the three broadcast kinds, and a request, which is the caller's
    message with the [requestId] attached. *)
Inductive OutMsg :=
| ModelUpdated
| FileInfo (filename : string)
| ErrorMsg (message : string)
| Request (requestId : Z) (body : string).

(** The [requestId] field of a parsed inbound message: absent (or any
    falsy value that is not a number), a number, or some other value,
    which no key of the table equals. *)
Inductive ReqIdField :=
| NoId
| NumId (n : Z)
| OtherId.

(** What arrives on a socket: text that [JSON.parse] rejects (or a value
    whose field access throws), or a message. *)
Inductive Inbound :=
| BadJson
| Parsed (rid : ReqIdField) (body : string).

(** How the promise returned by [sendAndWait] is completed. *)
Inductive Outcome :=
| Resolved (rid : ReqIdField) (body : string)
| Rejected (message : string).

(** A connected socket and its [readyState] (1 is OPEN). *)
Record Client := mkClient { c_id : Z; readyState : Z }.

(** A table entry: its two closures share the timer handle. *)
Record Entry := mkEntry { e_timer : Z }.

(** A pending timer of [sendAndWait]: the request it rejects and its
    delay. *)
Record RequestTimer := mkRequestTimer { t_request : Z; t_delay : Z }.

Record PeerState := mkPeer
  { wsClients : list Client;
    pendingRequests : gmap Z Entry;
    requestIdCounter : Z;
    (** pending [setTimeout] handles, and the next handle *)
    timers : gmap Z RequestTimer;
    nextTimer : Z;
    (** every call of a promise's [resolve] or [reject], oldest first *)
    settled : list (Z * Outcome);
    (** every [ws.send], oldest first: socket and message *)
    sent : list (Z * OutMsg) }.

Definition err_timeout : string := "Timeout waiting for browser response".
Definition err_no_browser : string := "No browser connected".

Definition settle (rid : Z) (o : Outcome) (s : PeerState) : PeerState :=
  mkPeer (wsClients s) (pendingRequests s) (requestIdCounter s) (timers s)
    (nextTimer s) (settled s ++ [(rid, o)]) (sent s).

Definition clearTimeout (t : Z) (s : PeerState) : PeerState :=
  mkPeer (wsClients s) (pendingRequests s) (requestIdCounter s)
    (delete t (timers s)) (nextTimer s) (settled s) (sent s).

Definition pending_delete (rid : Z) (s : PeerState) : PeerState :=
  mkPeer (wsClients s) (delete rid (pendingRequests s)) (requestIdCounter s)
    (timers s) (nextTimer s) (settled s) (sent s).

Definition pending_set (rid : Z) (e : Entry) (s : PeerState) : PeerState :=
  mkPeer (wsClients s) (<[rid := e]> (pendingRequests s)) (requestIdCounter s)
    (timers s) (nextTimer s) (settled s) (sent s).

Definition ws_send (c : Client) (m : OutMsg) (s : PeerState) : PeerState :=
  mkPeer (wsClients s) (pendingRequests s) (requestIdCounter s) (timers s)
    (nextTimer s) (settled s) (sent s ++ [(c_id c, m)]).

(** [setTimeout(cb, delay)]: a fresh handle. *)
Definition setTimeout (cb : RequestTimer) (s : PeerState) : Z * PeerState :=
  (nextTimer s,
   mkPeer (wsClients s) (pendingRequests s) (requestIdCounter s)
     (<[nextTimer s := cb]> (timers s)) (nextTimer s + 1) (settled s)
     (sent s)).

Definition is_ready (c : Client) : bool := readyState c =? 1.

(** [broadcast(msg)]: one send per socket whose [readyState] is 1. *)
Definition broadcast (m : OutMsg) (s : PeerState) : PeerState :=
  fold_left (fun s c => if is_ready c then ws_send c m s else s)
    (wsClients s) s.

(** The [resolve(data)] closure of the entry of [rid]. *)
Definition entry_resolve (rid : Z) (e : Entry) (data : Outcome)
  (s : PeerState) : PeerState :=
  settle rid data (pending_delete rid (clearTimeout (e_timer e) s)).

(** The [reject(err)] closure of the entry of [rid]. *)
Definition entry_reject (rid : Z) (e : Entry) (err : string)
  (s : PeerState) : PeerState :=
  settle rid (Rejected err) (pending_delete rid (clearTimeout (e_timer e) s)).

(** [sendAndWait(msg, timeoutMs)]: the promise executor, which runs in
    one piece.  Returns the identifier given to the request. *)
Definition sendAndWait (body : string) (timeoutMs : Z) (s : PeerState)
  : Z * PeerState :=
  let requestId := requestIdCounter s + 1 in
  let s := mkPeer (wsClients s) (pendingRequests s) requestId (timers s)
             (nextTimer s) (settled s) (sent s) in
  let '(timer, s) := setTimeout (mkRequestTimer requestId timeoutMs) s in
  let s := pending_set requestId (mkEntry timer) s in
  match List.find is_ready (wsClients s) with
  | Some ws => (requestId, ws_send ws (Request requestId body) s)
  | None =>
      let s := clearTimeout timer s in
      let s := pending_delete requestId s in
      (requestId, settle requestId (Rejected err_no_browser) s)
  end.

(** The timer of a request fires: the callback given to [setTimeout].
    A handle that was cleared or has fired does nothing. *)
Definition fireTimeout (t : Z) (s : PeerState) : PeerState :=
  match timers s !! t with
  | Some cb =>
      let s := clearTimeout t s in
      let s := pending_delete (t_request cb) s in
      settle (t_request cb) (Rejected err_timeout) s
  | None => s
  end.

(** The [ws.on('message')] handler. *)
Definition onMessage (raw : Inbound) (s : PeerState) : PeerState :=
  match raw with
  | BadJson => s
  | Parsed NoId _ => s
  | Parsed OtherId _ => s
  | Parsed (NumId n) body =>
      if n =? 0 then s
      else
        match pendingRequests s !! n with
        | Some e => entry_resolve n e (Resolved (NumId n) body) s
        | None => s
        end
  end.

(** [wss.on('connection')] and [ws.on('close')], without the replay of
    the current model to the new socket. *)
Definition onConnection (c : Client) (s : PeerState) : PeerState :=
  mkPeer (wsClients s ++ [c]) (pendingRequests s) (requestIdCounter s)
    (timers s) (nextTimer s) (settled s) (sent s).

Definition onClose (id : Z) (s : PeerState) : PeerState :=
  mkPeer (filter (fun c => c_id c ≠ id) (wsClients s)) (pendingRequests s)
    (requestIdCounter s) (timers s) (nextTimer s) (settled s) (sent s).

(** A socket changes its [readyState]. *)
Definition onReadyState (id st : Z) (s : PeerState) : PeerState :=
  mkPeer
    (map (fun c => if c_id c =? id then mkClient id st else c) (wsClients s))
    (pendingRequests s) (requestIdCounter s) (timers s) (nextTimer s)
    (settled s) (sent s).

(** What can happen to the channel, one event-loop turn each. *)
Inductive PeerEvent :=
| EvSend (body : string) (timeoutMs : Z)
| EvMessage (raw : Inbound)
| EvTimeout (t : Z)
| EvConnect (c : Client)
| EvClose (id : Z)
| EvReadyState (id st : Z).

Definition peer_step (ev : PeerEvent) (s : PeerState) : PeerState :=
  match ev with
  | EvSend body ms => snd (sendAndWait body ms s)
  | EvMessage raw => onMessage raw s
  | EvTimeout t => fireTimeout t s
  | EvConnect c => onConnection c s
  | EvClose id => onClose id s
  | EvReadyState id st => onReadyState id st s
  end.

Definition peer_run (evs : list PeerEvent) (s : PeerState) : PeerState :=
  fold_left (fun s ev => peer_step ev s) evs s.

Definition peer_init : PeerState := mkPeer [] ∅ 0 ∅ 0 [] [].

(** The completions recorded for request [rid]. *)
Definition outcomes (rid : Z) (s : PeerState) : list Outcome :=
  map snd (List.filter (fun p => fst p =? rid) (settled s)).

(** What event [ev] does to request [rid] whose timer is [t], if the
    request is still pending. *)
Definition completion (rid t : Z) (ev : PeerEvent) : option Outcome :=
  match ev with
  | EvMessage (Parsed (NumId n) body) =>
      if n =? rid then Some (Resolved (NumId n) body) else None
  | EvTimeout t' => if t' =? t then Some (Rejected err_timeout) else None
  | _ => None
  end.

(** The first event of [evs] that completes the request. *)
Fixpoint first_completion (rid t : Z) (evs : list PeerEvent)
  : option Outcome :=
  match evs with
  | [] => None
  | ev :: rest =>
      match completion rid t ev with
      | Some o => Some o
      | None => first_completion rid t rest
      end
  end.

(** The bookkeeping the channel maintains: keys of the table were issued
    by the counter, each entry owns a pending timer that names it, every
    pending timer belongs to an entry, and a request has no completion
    while it is in the table. *)
Record peer_wf (s : PeerState) : Prop := mkPeerWf
  { wf_issued : forall r e, pendingRequests s !! r = Some e ->
                            0 < r <= requestIdCounter s;
    wf_counter : 0 <= requestIdCounter s;
    wf_entry_timer : forall r e, pendingRequests s !! r = Some e ->
                       exists d, timers s !! e_timer e = Some (mkRequestTimer r d);
    wf_timer_entry : forall t cb, timers s !! t = Some cb ->
                       pendingRequests s !! t_request cb = Some (mkEntry t);
    wf_timer_issued : forall t cb, timers s !! t = Some cb -> t < nextTimer s;
    wf_pending_open : forall r e, pendingRequests s !! r = Some e ->
                        outcomes r s = [];
    wf_settled_issued : forall r o, In (r, o) (settled s) ->
                          0 < r <= requestIdCounter s;
    wf_closed_once : forall r, 0 < r <= requestIdCounter s ->
                       pendingRequests s !! r = None ->
                       exists o, outcomes r s = [o] }.

(* ===================================================================== *)
(** * Strings and paths

    A JS string is modelled by the bytes of its UTF-8 encoding.  The
    functions of Node's [path] module are the POSIX ones. *)

Definition slash : ascii := "/"%char.
Definition dot : ascii := "."%char.

(** The pieces of a string between its slashes. *)
Fixpoint segments (s : string) : list string :=
  match s with
  | EmptyString => [EmptyString]
  | String c rest =>
      if Ascii.eqb c slash then EmptyString :: segments rest
      else
        match segments rest with
        | seg :: more => String c seg :: more
        | [] => [String c EmptyString]
        end
  end.

(** [parts.join('/')]. *)
Fixpoint join_slash (l : list string) : string :=
  match l with
  | [] => EmptyString
  | [s] => s
  | s :: rest => s +:+ "/" +:+ join_slash rest
  end.

(** One step of [normalizeString]: [stack] holds the segments kept so
    far, the last one first. *)
Definition norm_step (allowAboveRoot : bool) (stack : list string)
  (seg : string) : list string :=
  if String.eqb seg "" || String.eqb seg "." then stack
  else if String.eqb seg ".." then
    match stack with
    | top :: rest =>
        if String.eqb top ".." then seg :: stack else rest
    | [] => if allowAboveRoot then [seg] else []
    end
  else seg :: stack.

Definition normalizeString (path : string) (allowAboveRoot : bool) : string :=
  join_slash (rev (fold_left (norm_step allowAboveRoot) (segments path) [])).

Definition isAbsolute (path : string) : bool :=
  match path with
  | String c _ => Ascii.eqb c slash
  | EmptyString => false
  end.

Fixpoint ends_with_slash (path : string) : bool :=
  match path with
  | EmptyString => false
  | String c EmptyString => Ascii.eqb c slash
  | String _ rest => ends_with_slash rest
  end.

(** [path.normalize(path)]. *)
Definition path_normalize (path : string) : string :=
  if String.eqb path "" then "."
  else
    let p := normalizeString path (negb (isAbsolute path)) in
    if String.eqb p "" then
      if isAbsolute path then "/"
      else if ends_with_slash path then "./" else "."
    else
      (if isAbsolute path then "/" else "") +:+ p
      +:+ (if ends_with_slash path then "/" else "").

(** [path.join(a, b)]: empty arguments are skipped. *)
Definition path_join (a b : string) : string :=
  let joined :=
    if String.eqb a "" then b
    else if String.eqb b "" then a
    else a +:+ "/" +:+ b in
  if String.eqb joined "" then "." else path_normalize joined.

(** [path.resolve(...args)] in a process whose working directory is
    [cwd]: arguments are taken from the right until the path built is
    absolute, the working directory being used last. *)
Fixpoint resolve_args (rev_args : list string) (cwd : string) (acc : string)
  : string :=
  match rev_args with
  | [] => cwd +:+ "/" +:+ acc
  | a :: rest =>
      if String.eqb a "" then resolve_args rest cwd acc
      else if isAbsolute a then a +:+ "/" +:+ acc
      else resolve_args rest cwd (a +:+ "/" +:+ acc)
  end.

Definition path_resolve (cwd : string) (args : list string) : string :=
  let resolved := resolve_args (rev args) cwd "" in
  if isAbsolute resolved then "/" +:+ normalizeString resolved false
  else
    let p := normalizeString resolved true in
    if String.eqb p "" then "." else p.

(** [path.basename(path)]: the last piece that is not empty. *)
Definition path_basename (path : string) : string :=
  List.last (List.filter (fun s => negb (String.eqb s "")) (segments path)) "".

(** Position of the last dot of [s], if it has one. *)
Fixpoint last_dot (s : string) : option nat :=
  match s with
  | EmptyString => None
  | String c rest =>
      match last_dot rest with
      | Some i => Some (S i)
      | None => if Ascii.eqb c dot then Some O else None
      end
  end.

(** [path.extname(path)]: from the last dot of the base name on; empty
    when there is no dot, when the base name starts with its only dot,
    and for the base name "..". *)
Definition path_extname (path : string) : string :=
  let base := path_basename path in
  match last_dot base with
  | None => ""
  | Some O => ""
  | Some i =>
      if String.eqb base ".." then ""
      else String.substring i (String.length base - i) base
  end.

(** [path.dirname(path)]: everything before the slash that precedes the
    base name. *)
Fixpoint dirname_end (rev_tail : list ascii) (seen_name : bool) : option nat :=
  match rev_tail with
  | [] => None
  | c :: rest =>
      if Ascii.eqb c slash then
        if seen_name then Some (S (length rest))
        else dirname_end rest false
      else dirname_end rest true
  end.

Definition path_dirname (path : string) : string :=
  match path with
  | EmptyString => "."
  | String c0 tail =>
      match dirname_end (rev (list_ascii_of_string tail)) false with
      | None => if Ascii.eqb c0 slash then "/" else "."
      | Some e =>
          if Ascii.eqb c0 slash && (e =? 1)%nat then "//"
          else String.substring 0 e path
      end
  end.

(** [String.prototype.toLowerCase] on the letters A to Z. *)
Definition lower_char (c : ascii) : ascii :=
  let n := nat_of_ascii c in
  if (65 <=? n)%nat && (n <=? 90)%nat then ascii_of_nat (n + 32) else c.

Fixpoint toLowerCase (s : string) : string :=
  match s with
  | EmptyString => EmptyString
  | String c rest => String (lower_char c) (toLowerCase rest)
  end.

(** A number in a template literal: an integer prints in decimal. *)
Definition show_Z (z : Z) : string :=
  DecimalString.NilEmpty.string_of_int (Z.to_int z).

(* ===================================================================== *)
(** * The world outside the process *)

(** What a path names on disk. *)
Inductive Node :=
| File (content : Buffer)
| Dir.

(** The file system (keys are absolute, normalised paths), the clock read
    by [Date.now()], [process.cwd()] and [os.tmpdir()]. *)
Record Env := mkEnv
  { fs : gmap string Node; now : Z; cwd : string; tmpdir : string }.

Definition existsSync (env : Env) (p : string) : bool :=
  match fs env !! p with Some _ => true | None => false end.

(** [fs.statSync(p).size]; [None] when the call throws. *)
Definition statSync_size (env : Env) (p : string) : option Z :=
  match fs env !! p with
  | Some (File c) => Some (buf_length c)
  | Some Dir => Some 4096
  | None => None
  end.

(** [fs.readFileSync(p, 'utf8')]; [None] when the call throws. *)
Definition readFileSync_utf8 (env : Env) (p : string) : option (list Z) :=
  match fs env !! p with
  | Some (File c) => Some (toString_utf8 c)
  | _ => None
  end.

(** What [fsp.readFile(p)] settles with when the file system is [env]'s
    at the time of the read. *)
Inductive ReadResult :=
| ReadOk (data : Buffer)
| ReadErr (message : string).

Definition readFile_in (env : Env) (p : option string) : ReadResult :=
  match p with
  | None => ReadErr "The path argument must be of type string. Received null"
  | Some p =>
      match fs env !! p with
      | Some (File c) => ReadOk c
      | Some Dir => ReadErr "EISDIR: illegal operation on a directory, read"
      | None => ReadErr "ENOENT: no such file or directory"
      end
  end.

(** How [execFileAsync('openscad', ...)] settles: exit status 0, or an
    error with its captured standard error and its message. *)
Inductive ExecResult :=
| ExecOk
| ExecFail (stderr message : string).

(* ===================================================================== *)
(** * Dependency scanner: [parseScadDependencies] *)

(** The UTF-8 bytes of a sequence of code units (a lone surrogate is
    written as U+FFFD). *)
Definition utf8_bytes (cp : Z) : list Z :=
  if cp <? 128 then [cp]
  else if cp <? 2048 then [192 + Z.shiftr cp 6; 128 + Z.land cp 63]
  else if cp <? 65536 then
    [224 + Z.shiftr cp 12; 128 + Z.land (Z.shiftr cp 6) 63;
     128 + Z.land cp 63]
  else
    [240 + Z.shiftr cp 18; 128 + Z.land (Z.shiftr cp 12) 63;
     128 + Z.land (Z.shiftr cp 6) 63; 128 + Z.land cp 63].

Definition is_high (u : Z) : bool := (55296 <=? u) && (u <=? 56319).
Definition is_low (u : Z) : bool := (56320 <=? u) && (u <=? 57343).

Fixpoint code_points (units : list Z) : list Z :=
  match units with
  | [] => []
  | u :: rest =>
      if is_high u then
        match rest with
        | v :: rest' =>
            if is_low v then
              (65536 + Z.shiftl (u - 55296) 10 + (v - 56320))
              :: code_points rest'
            else 65533 :: code_points rest
        | [] => [65533]
        end
      else if is_low u then 65533 :: code_points rest
      else u :: code_points rest
  end.

Definition string_of_units (units : list Z) : string :=
  string_of_list_ascii
    (map (fun b => ascii_of_N (Z.to_N b))
       (concat (map utf8_bytes (code_points units)))).

(** The code units of "include" and of "use". *)
Definition kw_include : list Z := [105; 110; 99; 108; 117; 100; 101].
Definition kw_use : list Z := [117; 115; 101].

(** The tail [\s*<([^>]+)>] of the pattern: the captured group and what
    follows the match. *)
Definition dep_tail (l : list Z) : option (list Z * list Z) :=
  let '(_, l1) := span is_space l in
  match l1 with
  | c :: l2 =>
      if c =? 60 then
        match plus (fun c => negb (c =? 62)) l2 with
        | Some (g, c' :: l3) => if c' =? 62 then Some (g, l3) else None
        | _ => None
        end
      else None
  | [] => None
  end.

(** One attempt of [/(?:include|use)\s*<([^>]+)>/] at the head of [l]:
    the captured group and the length of the match. *)
Definition match_dep_here (l : list Z) : option (list Z * nat) :=
  let try_kw kw :=
    l1 ← literal kw l;
    '(g, rest) ← dep_tail l1;
    Some (g, (length l - length rest)%nat) in
  match try_kw kw_include with
  | Some r => Some r
  | None => try_kw kw_use
  end.

(** The [while ((m = re.exec(content)) !== null)] loop. *)
Fixpoint depScan (env : Env) (dir : string) (skip : nat) (text : list Z)
  : list string :=
  match text with
  | [] => []
  | _ :: rest =>
      match skip with
      | S k => depScan env dir k rest
      | O =>
          match match_dep_here text with
          | Some (g, len) =>
              let dep := path_resolve (cwd env) [dir; string_of_units g] in
              (if existsSync env dep then [dep] else [])
              ++ depScan env dir (len - 1) rest
          | None => depScan env dir 0 rest
          end
      end
  end.

Definition parseScadDependencies (env : Env) (scadPath : string)
  : list string :=
  match readFileSync_utf8 env scadPath with
  | Some content => depScan env (path_dirname scadPath) 0 content
  | None => []
  end.

(* ===================================================================== *)
(** * Module state of [index.js] *)

Record State := mkState
  { currentFile : option string;
    currentStlPath : option string;
    currentStlBuffer : option Buffer;
    lastBoundingBox : option BBox;
    (** the files given to [chokidar.watch] by the watcher that is open *)
    watcher : option (list string);
    debounceTimer : option Z;
    (** pending debounce timers with the time they are due, and the next
        handle *)
    dtimers : gmap Z Z;
    nextDTimer : Z;
    (** [wsClients], [pendingRequests], [requestIdCounter] *)
    peer : PeerState;
    (** what [log] wrote, oldest first *)
    stderr : list string }.

Definition set_currentFile (v : option string) (s : State) : State :=
  mkState v (currentStlPath s) (currentStlBuffer s) (lastBoundingBox s)
    (watcher s) (debounceTimer s) (dtimers s) (nextDTimer s) (peer s)
    (stderr s).

Definition set_currentStlPath (v : option string) (s : State) : State :=
  mkState (currentFile s) v (currentStlBuffer s) (lastBoundingBox s)
    (watcher s) (debounceTimer s) (dtimers s) (nextDTimer s) (peer s)
    (stderr s).

Definition set_currentStlBuffer (v : option Buffer) (s : State) : State :=
  mkState (currentFile s) (currentStlPath s) v (lastBoundingBox s)
    (watcher s) (debounceTimer s) (dtimers s) (nextDTimer s) (peer s)
    (stderr s).

Definition set_lastBoundingBox (v : option BBox) (s : State) : State :=
  mkState (currentFile s) (currentStlPath s) (currentStlBuffer s) v
    (watcher s) (debounceTimer s) (dtimers s) (nextDTimer s) (peer s)
    (stderr s).

Definition set_watcher (v : option (list string)) (s : State) : State :=
  mkState (currentFile s) (currentStlPath s) (currentStlBuffer s)
    (lastBoundingBox s) v (debounceTimer s) (dtimers s) (nextDTimer s)
    (peer s) (stderr s).

Definition set_peer (v : PeerState) (s : State) : State :=
  mkState (currentFile s) (currentStlPath s) (currentStlBuffer s)
    (lastBoundingBox s) (watcher s) (debounceTimer s) (dtimers s)
    (nextDTimer s) v (stderr s).

Definition newline : string := String (ascii_of_nat 10) EmptyString.

(** [log(...args)]. *)
Definition log (line : string) (s : State) : State :=
  mkState (currentFile s) (currentStlPath s) (currentStlBuffer s)
    (lastBoundingBox s) (watcher s) (debounceTimer s) (dtimers s)
    (nextDTimer s) (peer s)
    (stderr s ++ ["[openscad-viewer] " +:+ line +:+ newline]).

(** [broadcast(msg)] on the module state. *)
Definition broadcastAll (m : OutMsg) (s : State) : State :=
  set_peer (broadcast m (peer s)) s.

Definition initial_state : State :=
  mkState None None None None None None ∅ 0 peer_init [].

(** The Active Model State of the specification. *)
Definition activeModel (s : State)
  : option string * option Buffer * option BBox :=
  (currentFile s, currentStlBuffer s, lastBoundingBox s).

(* ===================================================================== *)
(** * Watch coordinator: [setupWatcher] and the debounce *)

(** [setupWatcher(filePath)]: the open watcher, if any, is closed and
    replaced by one on the file and, for a .scad file, on its
    dependencies as they are on disk now. *)
Definition setupWatcher (filePath : string) (env : Env) (s : State) : State :=
  let files :=
    filePath ::
    (if String.eqb (toLowerCase (path_extname filePath)) ".scad"
     then parseScadDependencies env filePath else []) in
  set_watcher (Some files) s.

(** The ['change'] callback of the watcher: the pending timer, if any,
    is cleared and a timer of 300 ms is started. *)
Definition onWatchChange (env : Env) (s : State) : State :=
  let pending :=
    match debounceTimer s with
    | Some t => delete t (dtimers s)
    | None => dtimers s
    end in
  mkState (currentFile s) (currentStlPath s) (currentStlBuffer s)
    (lastBoundingBox s) (watcher s) (Some (nextDTimer s))
    (<[nextDTimer s := now env + 300]> pending) (nextDTimer s + 1)
    (peer s) (stderr s).

(** A debounce timer leaves the pending set when it fires. *)
Definition timerFired (t : Z) (s : State) : State :=
  mkState (currentFile s) (currentStlPath s) (currentStlBuffer s)
    (lastBoundingBox s) (watcher s) (debounceTimer s) (delete t (dtimers s))
    (nextDTimer s) (peer s) (stderr s).

(** [cleanup()]. *)
Definition cleanup (s : State) : State := set_watcher None s.

(* ===================================================================== *)
(** * Asynchronous functions

    An [async] function runs in pieces.  Each piece runs to the next
    [await] without interruption, on the module state and the outside
    world as they are when it starts, and ends by returning, throwing,
    or waiting for an external operation to settle. *)

Record OpenResult := mkOpenResult
  { success : bool; file : string; fileSize : Z; boundingBox : BBox }.

Inductive Value :=
| VOpen (r : OpenResult)
| VUndefined.

#[local] Unset Elimination Schemes.
Inductive Task :=
| Return (v : Value)
| Throw (message : string)
| AwaitCheck (k : bool -> Env -> State -> State * Task)
| AwaitExec (tmpStl scadPath : string)
    (k : ExecResult -> Env -> State -> State * Task)
| AwaitRead (path : option string)
    (k : ReadResult -> Env -> State -> State * Task).
#[local] Set Elimination Schemes.

(** One piece of an asynchronous function. *)
Definition Piece := Env -> State -> State * Task.

(** What [compileScad] resolves with. *)
Record CompileResult := mkCompileResult
  { stlPath : option string; error : option string }.

(** [err.stderr || err.message]. *)
Definition diagnostic (stderr message : string) : string :=
  if String.eqb stderr "" then message else stderr.

Definition compileResult (tmpStl : string) (r : ExecResult) : CompileResult :=
  match r with
  | ExecOk => mkCompileResult (Some tmpStl) None
  | ExecFail se msg => mkCompileResult None (Some (diagnostic se msg))
  end.

(** The truthiness test [if (result.error)]. *)
Definition failed (r : CompileResult) : option string :=
  match error r with
  | Some e => if String.eqb e "" then None else Some e
  | None => None
  end.

(** The output path of a compilation started when the clock reads
    [now env]. *)
Definition tmpStlPath (env : Env) : string :=
  path_join (tmpdir env)
    ("openscad-viewer-" +:+ show_Z (now env) +:+ ".stl").

(** [await compileScad(scadPath)], followed by [k]. *)
Definition compileScad (scadPath : string)
  (k : CompileResult -> Piece) : Piece :=
  fun env s =>
    let tmpStl := tmpStlPath env in
    (s, AwaitExec tmpStl scadPath (fun r => k (compileResult tmpStl r))).

Definition msg_not_found (absPath : string) : string :=
  "File not found: " +:+ absPath.
Definition msg_unsupported (ext : string) : string :=
  "Unsupported file type: " +:+ ext
  +:+ ". Only .scad and .stl are supported.".
Definition msg_no_openscad : string :=
  "OpenSCAD is not installed or not found on $PATH".
Definition msg_compile_failed (diag : string) : string :=
  "OpenSCAD compilation failed:" +:+ newline +:+ diag.
Definition msg_range_error : string :=
  "The value of offset is out of range".
Definition msg_stat_failed : string :=
  "ENOENT: no such file or directory, stat".
Definition msg_null_path : string :=
  "The path argument must be of type string. Received null".

(** The end of [openFile], from [currentFile = absPath] on. *)
Definition openFile_install (absPath : string) (buf : Buffer) : Piece :=
  fun env s =>
    let s := set_currentFile (Some absPath) s in
    match parseStlBoundingBox buf with
    | None => (s, Throw msg_range_error)
    | Some box =>
        let s := set_lastBoundingBox (Some box) s in
        let s := setupWatcher absPath env s in
        let s := broadcastAll ModelUpdated s in
        let s := broadcastAll (FileInfo (path_basename absPath)) s in
        match statSync_size env absPath with
        | None => (s, Throw msg_stat_failed)
        | Some size => (s, Return (VOpen (mkOpenResult true absPath size box)))
        end
    end.

(** What [openFile] does once [fsp.readFile] has settled. *)
Definition openFile_afterRead (absPath : string) (r : ReadResult) : Piece :=
  fun env s =>
    match r with
    | ReadErr m => (s, Throw m)
    | ReadOk buf =>
        openFile_install absPath buf env (set_currentStlBuffer (Some buf) s)
    end.

(** [currentStlBuffer = await fsp.readFile(p)] and the rest of
    [openFile]. *)
Definition openFile_read (absPath : string) (p : option string) : Piece :=
  fun env s => (s, AwaitRead p (openFile_afterRead absPath)).

(** [openFile(filePath)]. *)
Definition openFile (filePath : string) : Piece :=
  fun env s =>
    let absPath := path_resolve (cwd env) [filePath] in
    if negb (existsSync env absPath) then (s, Throw (msg_not_found absPath))
    else
      let ext := toLowerCase (path_extname absPath) in
      if negb (String.eqb ext ".scad") && negb (String.eqb ext ".stl") then
        (s, Throw (msg_unsupported ext))
      else if String.eqb ext ".scad" then
        (s, AwaitCheck (fun ok env s =>
              if negb ok then (s, Throw msg_no_openscad)
              else
                compileScad absPath
                  (fun result env s =>
                     match failed result with
                     | Some diag => (s, Throw (msg_compile_failed diag))
                     | None =>
                         openFile_read absPath (stlPath result) env
                           (set_currentStlPath (stlPath result) s)
                     end) env s))
      else
        openFile_read absPath (Some absPath) env
          (set_currentStlPath (Some absPath) s).

(** The two lines that end both branches of [handleFileChange] before
    the final broadcast: the buffer read is stored and measured. *)
Definition reload (r : ReadResult) : Piece :=
  fun env s =>
    match r with
    | ReadErr m => (s, Throw m)
    | ReadOk buf =>
        let s := set_currentStlBuffer (Some buf) s in
        match parseStlBoundingBox buf with
        | None => (s, Throw msg_range_error)
        | Some box =>
            let s := set_lastBoundingBox (Some box) s in
            (broadcastAll ModelUpdated s, Return VUndefined)
        end
    end.

(** What [handleFileChange] does once [compileScad] has settled. *)
Definition afterCompile (result : CompileResult) : Piece :=
  fun env s =>
    match currentFile s with
    | None => (s, Throw msg_null_path)
    | Some cf =>
        let s := setupWatcher cf env s in
        match failed result with
        | Some diag =>
            let s := log ("Compilation error: " +:+ diag) s in
            (broadcastAll (ErrorMsg diag) s, Return VUndefined)
        | None =>
            let s := set_currentStlPath (stlPath result) s in
            (s, AwaitRead (stlPath result) reload)
        end
    end.

(** [handleFileChange()]. *)
Definition handleFileChange : Piece :=
  fun env s =>
    match currentFile s with
    | None => (log "File changed: null" s, Throw msg_null_path)
    | Some cf =>
        let s := log ("File changed: " +:+ cf) s in
        if String.eqb (toLowerCase (path_extname cf)) ".scad" then
          compileScad cf afterCompile env s
        else (s, AwaitRead (Some cf) reload)
    end.

(* ===================================================================== *)
(** * Running one asynchronous function alone *)

(** How a promise settles. *)
Inductive Settled :=
| Fulfilled (v : Value)
| Failed (message : string).

(** What the outside world answers to each kind of wait. *)
Record Oracle := mkOracle
  { o_check : bool;
    o_exec : ExecResult;
    o_read : option string -> ReadResult }.

(** The run of a task to its end when nothing else happens meanwhile. *)
Fixpoint run_task (o : Oracle) (env : Env) (t : Task) (s : State)
  : State * Settled :=
  match t with
  | Return v => (s, Fulfilled v)
  | Throw m => (s, Failed m)
  | AwaitCheck k =>
      let '(s', t') := k (o_check o) env s in run_task o env t' s'
  | AwaitExec _ _ k =>
      let '(s', t') := k (o_exec o) env s in run_task o env t' s'
  | AwaitRead p k =>
      let '(s', t') := k (o_read o p) env s in run_task o env t' s'
  end.

Definition run_piece (o : Oracle) (env : Env) (p : Piece) (s : State)
  : State * Settled :=
  let '(s', t) := p env s in run_task o env t s'.

(* ===================================================================== *)
(** * The event loop: asynchronous functions in flight together *)

Inductive TaskKind := OpenTask | ChangeTask.

Record System := mkSystem
  { st : State;
    env : Env;
    (** the functions waiting at an [await] *)
    tasks : gmap nat (TaskKind * Task);
    nextTask : nat;
    (** the functions that have settled, oldest first *)
    finished : list (nat * TaskKind * Settled) }.

(** A piece has run for task [tid]: the task has settled or waits again.
    A change handler that throws is caught by the [.catch] of the timer
    callback, which logs the message. *)
Definition park (tid : nat) (kind : TaskKind) (r : State * Task)
  (sys : System) : System :=
  match snd r with
  | Return v =>
      mkSystem (fst r) (env sys) (delete tid (tasks sys)) (nextTask sys)
        (finished sys ++ [(tid, kind, Fulfilled v)])
  | Throw m =>
      mkSystem
        (match kind with
         | ChangeTask => log ("Watch handler error: " +:+ m) (fst r)
         | OpenTask => fst r
         end)
        (env sys) (delete tid (tasks sys)) (nextTask sys)
        (finished sys ++ [(tid, kind, Failed m)])
  | t =>
      mkSystem (fst r) (env sys) (<[tid := (kind, t)]> (tasks sys))
        (nextTask sys) (finished sys)
  end.

(** A call of an asynchronous function: its first piece runs at once. *)
Definition start (kind : TaskKind) (p : Piece) (sys : System) : System :=
  park (nextTask sys) kind (p (env sys) (st sys))
    (mkSystem (st sys) (env sys) (tasks sys) (S (nextTask sys))
       (finished sys)).

Inductive SysEvent :=
(** the [open] tool, or the file given on the command line *)
| SysOpen (filePath : string)
(** the operation a task waits for settles *)
| SysCheck (tid : nat) (ok : bool)
| SysExec (tid : nat) (r : ExecResult)
| SysRead (tid : nat) (r : ReadResult)
(** the clock advances *)
| SysClock (t : Z)
(** files change on disk *)
| SysFs (fs' : gmap string Node)
(** chokidar reports a change of a watched file *)
| SysWatchChange (path : string)
(** a debounce timer fires *)
| SysTimer (t : Z)
(** something happens on the peer channel *)
| SysPeer (ev : PeerEvent).

Definition with_st (s : State) (sys : System) : System :=
  mkSystem s (env sys) (tasks sys) (nextTask sys) (finished sys).

Definition with_env (e : Env) (sys : System) : System :=
  mkSystem (st sys) e (tasks sys) (nextTask sys) (finished sys).

(** The replay to a socket that has just connected. *)
Definition replay (c : Client) (s : State) : State :=
  match currentFile s with
  | Some cf =>
      set_peer
        (ws_send c ModelUpdated
           (ws_send c (FileInfo (path_basename cf)) (peer s))) s
  | None => s
  end.

(** One turn of the event loop; [None] when the event cannot happen in
    this state.  Time does not pass a pending debounce timer: the timer
    fires first. *)
Definition sys_step (ev : SysEvent) (sys : System) : option System :=
  match ev with
  | SysOpen filePath => Some (start OpenTask (openFile filePath) sys)
  | SysCheck tid ok =>
      match tasks sys !! tid with
      | Some (kind, AwaitCheck k) =>
          Some (park tid kind (k ok (env sys) (st sys)) sys)
      | _ => None
      end
  | SysExec tid r =>
      match tasks sys !! tid with
      | Some (kind, AwaitExec _ _ k) =>
          Some (park tid kind (k r (env sys) (st sys)) sys)
      | _ => None
      end
  | SysRead tid r =>
      match tasks sys !! tid with
      | Some (kind, AwaitRead _ k) =>
          Some (park tid kind (k r (env sys) (st sys)) sys)
      | _ => None
      end
  | SysClock t =>
      if (now (env sys) <=? t)
         && forallb (fun p => t <=? snd p) (map_to_list (dtimers (st sys)))
      then Some (with_env (mkEnv (fs (env sys)) t (cwd (env sys))
                             (tmpdir (env sys))) sys)
      else None
  | SysFs fs' =>
      Some (with_env (mkEnv fs' (now (env sys)) (cwd (env sys))
                        (tmpdir (env sys))) sys)
  | SysWatchChange path =>
      match watcher (st sys) with
      | Some files =>
          if existsb (String.eqb path) files
          then Some (with_st (onWatchChange (env sys) (st sys)) sys)
          else None
      | None => None
      end
  | SysTimer t =>
      match dtimers (st sys) !! t with
      | Some due =>
          if due <=? now (env sys)
          then Some (start ChangeTask handleFileChange
                       (with_st (timerFired t (st sys)) sys))
          else None
      | None => None
      end
  | SysPeer ev =>
      let s := set_peer (peer_step ev (peer (st sys))) (st sys) in
      Some (with_st
              (match ev with EvConnect c => replay c s | _ => s end) sys)
  end.

Fixpoint sys_run (evs : list SysEvent) (sys : System) : option System :=
  match evs with
  | [] => Some sys
  | ev :: rest =>
      match sys_step ev sys with
      | Some sys' => sys_run rest sys'
      | None => None
      end
  end.

Definition sys_init (e : Env) : System := mkSystem initial_state e ∅ 0 [].

(** The number of times [handleFileChange] was entered: each entry
    writes one "File changed" line. *)
Fixpoint starts_with (pre s : string) : bool :=
  match pre, s with
  | EmptyString, _ => true
  | String a pre', String b s' => Ascii.eqb a b && starts_with pre' s'
  | String _ _, EmptyString => false
  end.

Definition is_change_line (line : string) : bool :=
  starts_with "[openscad-viewer] File changed: " line.

Definition resyncs (s : State) : nat :=
  length (List.filter is_change_line (stderr s)).

(** The output path a task is compiling to, when it waits for the
    compiler. *)
Definition exec_output (t : Task) : option string :=
  match t with
  | AwaitExec tmpStl _ _ => Some tmpStl
  | _ => None
  end.

Definition task_output (sys : System) (tid : nat) : option string :=
  match tasks sys !! tid with
  | Some (_, t) => exec_output t
  | None => None
  end.

Fixpoint no_slash (s : string) : bool :=
  match s with
  | EmptyString => true
  | String c rest => negb (Ascii.eqb c slash) && no_slash rest
  end.

(** The file name given to the output of a compilation started at
    clock reading [t]. *)
Definition tmpStlName (t : Z) : string :=
  "openscad-viewer-" +:+ show_Z t +:+ ".stl".

(** A piece that [normalizeString] keeps as it is. *)
Definition plain_piece (s : string) : Prop :=
  no_slash s = true /\ String.eqb s "" = false /\
  String.eqb s "." = false /\ String.eqb s ".." = false.

(** What [join_slash] puts in front of a piece added at the end. *)
Definition join_prefix (l : list string) : string :=
  match l with
  | [] => ""
  | _ => join_slash l +:+ "/"
  end.

(* ===================================================================== *)
(** * A sample project on disk *)

(** [/m/a.scad] includes [/m/lib.scad]; [/m/c.scad] stands alone;
    [/m/b.stl] is a mesh; [/m/dir.stl] is a directory; [/m/notes.obj] is
    some other file. *)
Definition sample_fs : gmap string Node :=
  <["/m/a.scad" := File (bytes_of "include <lib.scad> cube(1);")]>
  (<["/m/lib.scad" := File (bytes_of "module part() { cube(2); }")]>
  (<["/m/c.scad" := File (bytes_of "sphere(3);")]>
  (<["/m/b.stl" := File plain_mesh]>
  (<["/m/dir.stl" := Dir]>
  (<["/m/notes.obj" := File (bytes_of "o")]> ∅))))).

Definition sample_env : Env := mkEnv sample_fs 1000 "/m" "/tmp".

(** What is observed of a system after a sequence of events, if the
    sequence can happen. *)
Definition observe {A : Type} (f : System -> A) (evs : list SysEvent)
  (sys : System) : option A :=
  f <$> sys_run evs sys.

(** Two [open] requests for .scad files arrive in the same millisecond
    and both reach the compiler. *)
Definition two_compiles : list SysEvent :=
  [SysOpen "a.scad"; SysOpen "c.scad"; SysCheck 0 true; SysCheck 1 true].

(* ===================================================================== *)
(** * What [Open] is expected to settle with *)

(** The bounding box of a buffer (the decoder is total). *)
Definition box_of (buf : Buffer) : BBox :=
  default emptyBox (parseStlBoundingBox buf).

(** The size of a file that exists. *)
Definition size_of (env : Env) (p : string) : Z :=
  default 0 (statSync_size env p).

(** The outcome of [Open(filePath)] when nothing else runs meanwhile:
    the four documented failures, tested in this order, then the failure
    of the read of the artifact, then success. *)
Definition open_expected (o : Oracle) (env : Env) (filePath : string)
  : Settled :=
  let absPath := path_resolve (cwd env) [filePath] in
  let ext := toLowerCase (path_extname absPath) in
  let compiled := compileResult (tmpStlPath env) (o_exec o) in
  if negb (existsSync env absPath) then Failed (msg_not_found absPath)
  else if negb (String.eqb ext ".scad") && negb (String.eqb ext ".stl") then
    Failed (msg_unsupported ext)
  else if String.eqb ext ".scad" && negb (o_check o) then
    Failed msg_no_openscad
  else
    match (if String.eqb ext ".scad" then failed compiled else None) with
    | Some diag => Failed (msg_compile_failed diag)
    | None =>
        match o_read o (if String.eqb ext ".scad" then stlPath compiled
                        else Some absPath) with
        | ReadErr m => Failed m
        | ReadOk buf =>
            Fulfilled
              (VOpen (mkOpenResult true absPath (size_of env absPath)
                        (box_of buf)))
        end
    end.

(** One of the four documented failure conditions of [Open] holds. *)
Definition open_refused (o : Oracle) (env : Env) (filePath : string) : Prop :=
  let absPath := path_resolve (cwd env) [filePath] in
  let ext := toLowerCase (path_extname absPath) in
  existsSync env absPath = false \/
  (ext <> ".scad" /\ ext <> ".stl") \/
  (ext = ".scad" /\ o_check o = false) \/
  (ext = ".scad" /\
   exists diag, failed (compileResult (tmpStlPath env) (o_exec o)) = Some diag).

(** ** Sample runs *)

(** The tool is installed, compiles, and every read finds [plain_mesh]. *)
Definition good_oracle : Oracle :=
  mkOracle true ExecOk (fun _ => ReadOk plain_mesh).

(** The tool is installed and reports a syntax error; reads see the
    sample disk. *)
Definition failing_oracle : Oracle :=
  mkOracle true
    (ExecFail "ERROR: Parser error in file a.scad, line 1"
       "Command failed: openscad -o /tmp/openscad-viewer-1000.stl /m/a.scad")
    (readFile_in sample_env).

(** One renderer is connected and ready. *)
Definition one_peer : State :=
  set_peer (onConnection (mkClient 1 1) peer_init) initial_state.

(** The state after [a.scad] was opened with one renderer connected. *)
Definition opened_state : State :=
  fst (run_piece good_oracle sample_env (openFile "a.scad") one_peer).

(** The messages a broadcast of [m] writes, in order. *)
Definition deliveries (m : OutMsg) (p : PeerState) : list (Z * OutMsg) :=
  map (fun c => (c_id c, m)) (List.filter is_ready (wsClients p)).

(* ===================================================================== *)
(** * Bursts of change events *)

(** The pending debounce timers are at most the one the module holds in
    [debounceTimer]. *)
Definition pending_is_current (s : State) : Prop :=
  forall t due, dtimers s !! t = Some due -> debounceTimer s = Some t.

(** Each change comes less than 300 ms after the one before. *)
Fixpoint in_window (t : Z) (ts : list Z) : Prop :=
  match ts with
  | [] => True
  | t' :: rest => t <= t' < t + 300 /\ in_window t' rest
  end.

(** Changes of the watched file [p] at the times [ts]. *)
Definition burst (p : string) (ts : list Z) : list SysEvent :=
  flat_map (fun t => [SysClock t; SysWatchChange p]) ts.

(** No debounce timer can fire in this state. *)
Definition no_timer_can_fire (sys : System) : Prop :=
  forall t, sys_step (SysTimer t) sys = None.

(* ===================================================================== *)
(** * Sample histories of the event loop *)

(** A second mesh: one triangle (2,0,0) (0,2,0) (0,0,2). *)
Definition second_mesh : Buffer :=
  zeros 80 ++ le32 1
  ++ record_bytes (bits_two, 0, 0) (0, bits_two, 0) (0, 0, bits_two).

(** A renderer connects, then [a.scad] is opened: the tool is there, the
    compilation succeeds and its output is read. *)
Definition open_a : list SysEvent :=
  [SysPeer (EvConnect (mkClient 1 1)); SysOpen "a.scad"; SysCheck 0 true;
   SysExec 0 ExecOk; SysRead 0 (ReadOk second_mesh)].

Definition opened_system : System :=
  default (sys_init sample_env) (sys_run open_a (sys_init sample_env)).

(** [a.scad] is saved at time 2000; the debounce timer fires at 2300 and
    [handleFileChange] starts a compilation (task 1). *)
Definition change_a : list SysEvent :=
  [SysClock 2000; SysWatchChange "/m/a.scad"; SysClock 2300; SysTimer 0].

Definition recompiling_system : System :=
  default opened_system (sys_run change_a opened_system).

(** While that compilation runs, [b.stl] is opened (task 2) and read. *)
Definition open_b : list SysEvent :=
  [SysOpen "b.stl"; SysRead 2 (ReadOk plain_mesh)].

(** Then the compilation of [a.scad] ends and its output is read. *)
Definition finish_a : list SysEvent :=
  [SysExec 1 ExecOk; SysRead 1 (ReadOk second_mesh)].

(** The task is a change handler waiting for its compilation, which
    writes to [tmp]. *)
Definition recompiling (sys : System) (tid : nat) (tmp : string) : Prop :=
  exists scad,
    tasks sys !! tid
    = Some (ChangeTask,
            AwaitExec tmp scad (fun r => afterCompile (compileResult tmp r))).

(* ===================================================================== *)
(** * The files of the repository's tests *)

Definition lf : string := String (ascii_of_nat 10) EmptyString.

Definition test_fs : gmap string Node :=
  <["/t/no-deps.scad" := File (bytes_of "cube([10, 10, 10]);")]>
  (<["/t/lib.scad" := File (bytes_of "module foo() { cube(1); }")]>
  (<["/t/main.scad" :=
       File (bytes_of ("include <lib.scad>" +:+ lf +:+ "use <lib.scad>"
                       +:+ lf +:+ "cube(1);"))]>
  (<["/t/missing-dep.scad" :=
       File (bytes_of ("include <nonexistent.scad>" +:+ lf +:+ "cube(1);"))]>
  (<["/tmp/test-file.obj" := File (bytes_of "dummy")]>
  (<["/t/example.stl" := File test_ascii]> ∅))))).

Definition test_env : Env := mkEnv test_fs 0 "/t" "/tmp".

(** Reads see the test files. *)
Definition test_oracle : Oracle :=
  mkOracle false (ExecFail "" "spawn openscad ENOENT") (readFile_in test_env).

(** The message of a failure. *)
Definition failure_message (r : Settled) : option string :=
  match r with
  | Failed m => Some m
  | Fulfilled _ => None
  end.

(* ===================================================================== *)
(** * Further definitions: inputs of the mesh decoder *)

(** Whether the keyword "vertex" occurs somewhere in the text. *)
Fixpoint mentions_vertex (text : list Z) : bool :=
  match text with
  | [] => false
  | _ :: rest =>
      match literal kw_vertex text with
      | Some _ => true
      | None => mentions_vertex rest
      end
  end.

(** The buffer does not hold a complete binary mesh: it is shorter than
    the header and the count, or the count is zero, or the records the
    count announces do not fit. *)
Definition incomplete_binary (buf : Buffer) : Prop :=
  buf_length buf < 84 \/ declared_count buf = 0 \/
  buf_length buf < 84 + 50 * declared_count buf.

(** ** Encoding B as a sequence of vertex statements

    A vertex statement is the keyword, then three numeric tokens, each
    after a run of white space, then whatever follows up to the next
    keyword.  All are sequences of code units. *)
Record Statement := mkStatement
  { gap1 : list Z; tok_x : list Z;
    gap2 : list Z; tok_y : list Z;
    gap3 : list Z; tok_z : list Z;
    trailer : list Z }.

Definition render (v : Statement) : list Z :=
  kw_vertex ++ gap1 v ++ tok_x v ++ gap2 v ++ tok_y v ++ gap3 v ++ tok_z v
  ++ trailer v.

(** A non-empty run of characters of one class. *)
Definition run_of (p : Z -> bool) (l : list Z) : bool :=
  match l with [] => false | _ => forallb p l end.

(** Text in which no keyword can start: it has no letter v. *)
Definition no_v (l : list Z) : bool := forallb (fun c => negb (c =? 118)) l.

(** Text that ends a numeric token: empty, or starting with a character
    that is not of the class of the tokens. *)
Definition ends_token (l : list Z) : bool :=
  match l with [] => true | c :: _ => negb (is_numchar c) end.

Definition well_formed_statement (v : Statement) : bool :=
  run_of is_space (gap1 v) && run_of is_numchar (tok_x v)
  && run_of is_space (gap2 v) && run_of is_numchar (tok_y v)
  && run_of is_space (gap3 v) && run_of is_numchar (tok_z v)
  && ends_token (trailer v) && no_v (trailer v).

(** What one statement contributes to the box. *)
Definition foldStatement (b : BBox) (v : Statement) : BBox :=
  foldVertex b (parseFloat (tok_x v)) (parseFloat (tok_y v))
    (parseFloat (tok_z v)).

(** The coordinate a statement gives on axis [a] (0, 1, 2 for x, y, z). *)
Definition statement_coord (a : nat) (v : Statement) : number :=
  parseFloat (match a with O => tok_x v | S O => tok_y v | _ => tok_z v end).

(** The code units of a string of ASCII characters. *)
Definition units_of (s : string) : list Z :=
  map (fun c => Z.of_nat (nat_of_ascii c)) (list_ascii_of_string s).

(* ===================================================================== *)
(** * Further definitions: inclusions of a source text *)

(** The same disk with the content of [q] replaced. *)
Definition with_file (env : Env) (q : string) (content : Buffer) : Env :=
  mkEnv (<[q := File content]> (fs env)) (now env) (cwd env) (tmpdir env).

(** ** A source text as a sequence of inclusions

    An inclusion is one of the two keywords, optional white space, a
    name between angle brackets, and whatever follows up to the next
    inclusion. *)
Record Inclusion := mkInclusion
  { inc_use : bool;
    inc_gap : list Z;
    inc_name : list Z;
    inc_trailer : list Z }.

Definition inc_keyword (v : Inclusion) : list Z :=
  if inc_use v then kw_use else kw_include.

Definition render_inclusion (v : Inclusion) : list Z :=
  inc_keyword v ++ inc_gap v ++ [60] ++ inc_name v ++ [62] ++ inc_trailer v.

Definition is_lower (c : Z) : bool := (97 <=? c) && (c <=? 122).

(** Text in which no inclusion starts, whatever inclusion follows it: it
    has no opening angle bracket and does not end in a lowercase
    letter. *)
Definition quiet (l : list Z) : bool :=
  forallb (fun c => negb (c =? 60)) l
  && match l with [] => true | _ => negb (is_lower (List.last l 0)) end.

Definition well_formed_inclusion (v : Inclusion) : bool :=
  forallb is_space (inc_gap v)
  && run_of (fun c => negb (c =? 62)) (inc_name v)
  && quiet (inc_trailer v).

(** The path an inclusion of the file [scadPath] resolves to. *)
Definition inclusion_target (env : Env) (scadPath : string) (v : Inclusion)
  : string :=
  path_resolve (cwd env) [path_dirname scadPath; string_of_units (inc_name v)].

(** What can follow text in which the scan found nothing: the end, or a
    keyword. *)
Definition starts_keyword (rest : list Z) : bool :=
  match rest with
  | [] => true
  | c :: _ => negb (is_space c) && negb (c =? 60)
  end.

(* ===================================================================== *)
(** * Further definitions: the peer channel and the controller *)

(** The calls of [sendAndWait] in a history. *)
Definition is_send (ev : PeerEvent) : bool :=
  match ev with EvSend _ _ => true | _ => false end.

Definition count_sends (evs : list PeerEvent) : Z :=
  Z.of_nat (length (List.filter is_send evs)).

(** Three sockets, the first of them closed. *)
Definition three_sockets : PeerState :=
  mkPeer [mkClient 1 3; mkClient 2 1; mkClient 3 1] ∅ 0 ∅ 0 [] [].

(** The artifact [openFile] reads for [absPath]: the output of the
    compilation for a .scad file, the file itself otherwise. *)
Definition artifact_of (env : Env) (absPath : string) : string :=
  if String.eqb (toLowerCase (path_extname absPath)) ".scad"
  then tmpStlPath env else absPath.

(** The files [setupWatcher] gives to the watcher. *)
Definition watch_list (env : Env) (filePath : string) : list string :=
  filePath ::
  (if String.eqb (toLowerCase (path_extname filePath)) ".scad"
   then parseScadDependencies env filePath else []).

(** [openFile] gets as far as reading the artifact. *)
Definition reaches_read (o : Oracle) (env : Env) (absPath : string) : Prop :=
  existsSync env absPath = true /\
  (toLowerCase (path_extname absPath) = ".stl" \/
   (toLowerCase (path_extname absPath) = ".scad" /\ o_check o = true /\
    o_exec o = ExecOk)).

(** Messages [handleFileChange] may broadcast. *)
Definition is_resync_message (m : OutMsg) : bool :=
  match m with
  | ModelUpdated | ErrorMsg _ => true
  | _ => false
  end.

(* ===================================================================== *)
(** * The route [GET /model.stl] *)

Inductive HttpResponse :=
| NotFound (body : string)
| OkBinary (contentType cacheControl : string) (body : Buffer).

(** The handler given to [app.get('/model.stl', ...)]. *)
Definition getModelStl (s : State) : HttpResponse :=
  match currentStlBuffer s with
  | None => NotFound "No model loaded"
  | Some buf => OkBinary "application/octet-stream" "no-store" buf
  end.

(** * Relations that every piece of the program respects *)

(** The pieces a task may still run, at most [n] of them, each relate
    the state they start from to the state they leave by [R]. *)
Fixpoint task_keeps (R : State -> State -> Prop) (n : nat) (t : Task)
  {struct n} : Prop :=
  match t with
  | Return _ | Throw _ => True
  | AwaitCheck k =>
      match n with
      | O => False
      | S n' => forall ok env s,
          R s (fst (k ok env s)) /\ task_keeps R n' (snd (k ok env s))
      end
  | AwaitExec _ _ k =>
      match n with
      | O => False
      | S n' => forall r env s,
          R s (fst (k r env s)) /\ task_keeps R n' (snd (k r env s))
      end
  | AwaitRead _ k =>
      match n with
      | O => False
      | S n' => forall r env s,
          R s (fst (k r env s)) /\ task_keeps R n' (snd (k r env s))
      end
  end.

(** Every task in flight respects [R]. *)
Definition tasks_keep (R : State -> State -> Prop) (sys : System) : Prop :=
  forall tid kind t,
    tasks sys !! tid = Some (kind, t) -> task_keeps R 3 t.

(** The bounding box held is the one of the buffer held. *)
Definition box_of_buffer (s : State) : Prop :=
  lastBoundingBox s
  = match currentStlBuffer s with
    | Some buf => parseStlBoundingBox buf
    | None => None
    end.

(** An active file has its artifact in memory. *)
Definition file_has_buffer (s : State) : Prop :=
  currentFile s <> None -> currentStlBuffer s <> None.

(** Nothing that was loaded has been dropped. *)
Definition still_loaded (s s' : State) : Prop :=
  (currentFile s <> None -> currentFile s' <> None) /\
  (currentStlBuffer s <> None -> currentStlBuffer s' <> None) /\
  (lastBoundingBox s <> None -> lastBoundingBox s' <> None).

(** The watcher that is open was given the active file first. *)
Definition watches_active (s : State) : Prop :=
  forall cf, currentFile s = Some cf ->
             exists deps, watcher s = Some (cf :: deps).

(** An invariant, as a relation between the states before and after. *)
Definition preserves (P : State -> Prop) (s s' : State) : Prop := P s -> P s'.

Definition is_open (ev : SysEvent) : bool :=
  match ev with SysOpen _ => true | _ => false end.

Definition is_request (m : OutMsg) : bool :=
  match m with Request _ _ => true | _ => false end.

(** A history of the event loop from the start of the process:
    [a.scad] is opened and saved, [b.stl] is opened while it recompiles,
    then the recompilation ends. *)
Definition busy_history : list SysEvent :=
  open_a ++ change_a ++ open_b ++ finish_a.

Definition busy_system : System :=
  default (sys_init sample_env) (sys_run busy_history (sys_init sample_env)).

(** A renderer connects and a request is sent to it, no file being
    open. *)
Definition standby_history : list SysEvent :=
  [SysPeer (EvConnect (mkClient 1 1)); SysClock 1005;
   SysPeer (EvSend "set-camera" 10000);
   SysFs (<["/m/new.stl" := File plain_mesh]> sample_fs)].

Definition standby_system : System :=
  default (sys_init sample_env)
    (sys_run standby_history (sys_init sample_env)).

(* ===================================================================== *)
(** * Further samples *)

(** A header that announces two triangles, followed by the bytes of
    one. *)
Definition truncated_mesh : Buffer := zeros 80 ++ le32 2 ++ zeros 50.

(** The triangle of [plain_mesh] under a header that holds text, with a
    normal and an attribute word that are not zero. *)
Definition annotated_mesh : Buffer :=
  bytes_of "solid made by hand" ++ zeros 62 ++ le32 1
  ++ vertex_bytes bits_one 0 bits_two
  ++ vertex_bytes bits_one 0 0 ++ vertex_bytes 0 bits_two 0
  ++ vertex_bytes 0 0 bits_minus_three
  ++ [Byte.x07; Byte.x00].

(** The text of [test_ascii] as a prologue and three statements. *)
Definition test_prologue : list Z :=
  units_of "solid test
  facet normal 0 0 1
    outer loop
      ".

Definition test_statement (x y z trail : string) : Statement :=
  mkStatement (units_of " ") (units_of x) (units_of " ") (units_of y)
    (units_of " ") (units_of z) (units_of trail).

Definition test_statements : list Statement :=
  [test_statement "1" "2" "3" "
      ";
   test_statement "4" "5" "6" "
      ";
   test_statement "7" "8" "9" "
    endloop
  endfacet
endsolid test"].

(** The state after [b.stl] was opened with one renderer connected. *)
Definition opened_stl_state : State :=
  fst (run_piece good_oracle sample_env (openFile "b.stl") one_peer).

(** [a.scad] is open; it is saved, then its dependency is saved 100 ms
    later. *)
Definition pending_history : list SysEvent :=
  open_a ++ [SysClock 2000; SysWatchChange "/m/a.scad";
             SysClock 2100; SysWatchChange "/m/lib.scad"].

Definition pending_system : System :=
  default (sys_init sample_env)
    (sys_run pending_history (sys_init sample_env)).

(** [a.scad] is open and saved; a request is sent to the renderer while
    it recompiles, then the recompilation ends and its output is read. *)
Definition request_history : list SysEvent :=
  open_a ++ change_a ++ [SysPeer (EvSend "set-camera" 10000)] ++ finish_a.

Definition request_system : System :=
  default (sys_init sample_env)
    (sys_run request_history (sys_init sample_env)).

(** The text of the test file [main.scad] as two inclusions. *)
Definition test_inclusions : list Inclusion :=
  [mkInclusion false (units_of " ") (units_of "lib.scad") (units_of lf);
   mkInclusion true (units_of " ") (units_of "lib.scad")
     (units_of (lf +:+ "cube(1);"))].

(* ===================================================================== *)
(** * The embedding on the inputs of the repository's tests *)

(** "parses a minimal ASCII STL string" *)
Example test_parses_minimal_ascii :
  box_is (parseStlBoundingBox test_ascii) (box_of_ints (1, 2, 3) (7, 8, 9))
  = true.
Proof. vm_compute. reflexivity. Qed.

(** "parses a binary STL buffer" *)
Example test_parses_binary :
  box_is (parseStlBoundingBox test_binary_one)
    (box_of_ints (-1, -2, -3) (7, 8, 9)) = true.
Proof. vm_compute. reflexivity. Qed.

(** "handles binary STL with multiple triangles" *)
Example test_parses_binary_two :
  box_is (parseStlBoundingBox test_binary_two)
    (box_of_ints (0, 0, 0) (20, 20, 20)) = true.
Proof. vm_compute. reflexivity. Qed.

(** "returns Infinity/-Infinity for empty buffer" *)
Example test_empty_buffer : parseStlBoundingBox [] = Some emptyBox.
Proof. reflexivity. Qed.

(** "returns Infinity/-Infinity for buffer too small for binary STL" *)
Example test_small_buffer : parseStlBoundingBox (zeros 50) = Some emptyBox.
Proof. vm_compute. reflexivity. Qed.

(** "returns empty array for file with no includes" *)
Example test_no_includes :
  parseScadDependencies test_env "/t/no-deps.scad" = [].
Proof. vm_compute. reflexivity. Qed.

(** "finds include and use dependencies that exist on disk" *)
Example test_include_and_use :
  parseScadDependencies test_env "/t/main.scad"
  = ["/t/lib.scad"; "/t/lib.scad"].
Proof. vm_compute. reflexivity. Qed.

(** "ignores dependencies that do not exist on disk" *)
Example test_missing_dependency :
  parseScadDependencies test_env "/t/missing-dep.scad" = [].
Proof. vm_compute. reflexivity. Qed.

(** "returns empty array for nonexistent source file" *)
Example test_missing_source :
  parseScadDependencies test_env "/tmp/does-not-exist-12345.scad" = [].
Proof. vm_compute. reflexivity. Qed.

(** "opens a valid .stl file and returns metadata" *)
Example test_open_stl :
  snd (run_piece test_oracle test_env (openFile "/t/example.stl")
         initial_state)
  = Fulfilled
      (VOpen (mkOpenResult true "/t/example.stl" (buf_length test_ascii)
                (box_of_ints (1, 2, 3) (7, 8, 9)))).
Proof. vm_compute. reflexivity. Qed.

(** "throws for nonexistent file" *)
Example test_open_missing :
  failure_message
    (snd (run_piece test_oracle test_env
            (openFile "/tmp/nonexistent-file-12345.stl") initial_state))
  = Some "File not found: /tmp/nonexistent-file-12345.stl".
Proof. vm_compute. reflexivity. Qed.

(** "throws for unsupported file extension" *)
Example test_open_unsupported :
  failure_message
    (snd (run_piece test_oracle test_env (openFile "/tmp/test-file.obj")
            initial_state))
  = Some "Unsupported file type: .obj. Only .scad and .stl are supported.".
Proof. vm_compute. reflexivity. Qed.

(* ===================================================================== *)
(** * The order on numbers *)

Section NumberOrder.

Lemma tier_range x : tier x = -1 \/ tier x = 0 \/ tier x = 1.
Proof. destruct x as [ | [] | | ]; simpl; auto. Qed.

Lemma Qval_inf x : tier x <> 0 -> Qval x = 0%Q.
Proof. destruct x as [ | [] | | ]; simpl; intros; congruence. Qed.

(** [num_ltb] is the lexicographic order on (tier, value). *)
Lemma num_ltb_spec x y :
  isNaN x = false -> isNaN y = false ->
  num_ltb x y = true <->
  (tier x < tier y \/ (tier x = tier y /\ (Qval x < Qval y)%Q)).
Proof.
  intros Hx Hy. unfold num_ltb. rewrite Hx, Hy. cbn [negb andb].
  rewrite orb_true_iff, !andb_true_iff, Z.ltb_lt, !Z.eqb_eq.
  split.
  - intros [H | [[H1 H2] H3]]; [ left; exact H | right ].
    split; [ congruence | ].
    apply Qlt_alt. destruct (Qval x ?= Qval y)%Q; congruence.
  - intros [H | [H1 H2]]; [ left; exact H | ].
    destruct (Z.eq_dec (tier x) 0) as [E | E].
    + right. repeat split; [ exact E | congruence | ].
      rewrite (proj1 (Qlt_alt _ _) H2). reflexivity.
    + exfalso. rewrite (Qval_inf x), (Qval_inf y) in H2 by congruence.
      exact (Qlt_irrefl _ H2).
Qed.

Lemma num_leb_spec x y :
  num_leb x y = true <->
  (isNaN x = false /\ isNaN y = false /\
   (tier x < tier y \/ (tier x = tier y /\ (Qval x <= Qval y)%Q))).
Proof.
  unfold num_leb. rewrite !andb_true_iff, !negb_true_iff.
  split.
  - intros [[Hx Hy] H]. repeat split; try assumption.
    destruct (Z.lt_trichotomy (tier x) (tier y)) as [L | [E | G]].
    + left; exact L.
    + right; split; [ exact E | ].
      apply Qnot_lt_le. intro Hlt.
      assert (num_ltb y x = true) by
        (apply (proj2 (num_ltb_spec y x Hy Hx)); right; auto).
      congruence.
    + assert (num_ltb y x = true) by
        (apply (proj2 (num_ltb_spec y x Hy Hx)); left; lia).
      congruence.
  - intros (Hx & Hy & H). repeat split; try assumption.
    destruct (num_ltb y x) eqn:E; [ exfalso | reflexivity ].
    apply num_ltb_spec in E; try assumption.
    destruct H as [H | [H1 H2]], E as [E | [E1 E2]]; try lia.
    exact (Qlt_irrefl _ (Qle_lt_trans _ _ _ H2 E2)).
Qed.

Lemma num_leb_refl x : isNaN x = false -> num_leb x x = true.
Proof.
  intros Hx. apply num_leb_spec. repeat split; try assumption.
  right; split; [ reflexivity | apply Qle_refl ].
Qed.

Lemma num_leb_trans x y z :
  num_leb x y = true -> num_leb y z = true -> num_leb x z = true.
Proof.
  rewrite !num_leb_spec.
  intros (Hx & Hy & H1) (_ & Hz & H2). repeat split; try assumption.
  destruct H1 as [H1 | [E1 Q1]], H2 as [H2 | [E2 Q2]]; try (left; lia).
  right; split; [ lia | exact (Qle_trans _ _ _ Q1 Q2) ].
Qed.

Lemma num_ltb_leb x y : num_ltb x y = true -> num_leb x y = true.
Proof.
  intros H.
  assert (isNaN x = false /\ isNaN y = false) as [Hx Hy].
  { unfold num_ltb in H. apply andb_true_iff in H as [H _].
    apply andb_true_iff in H as [H1 H2].
    split; apply negb_true_iff; assumption. }
  apply num_ltb_spec in H; try assumption.
  apply num_leb_spec. repeat split; try assumption.
  destruct H as [H | [H1 H2]]; [ left; exact H | right ].
  split; [ exact H1 | apply Qlt_le_weak; exact H2 ].
Qed.

Lemma num_leb_of_not_ltb x y :
  isNaN x = false -> isNaN y = false ->
  num_ltb y x = false -> num_leb x y = true.
Proof.
  intros Hx Hy H. unfold num_leb. rewrite Hx, Hy, H. reflexivity.
Qed.

(** Only +Infinity is above +Infinity. *)
Lemma pInf_leb x : num_leb pInf x = true -> x = pInf.
Proof.
  intros H. apply num_leb_spec in H as (_ & Hx & H).
  destruct x as [ | [] | | ]; simpl in *;
    try discriminate; try reflexivity;
    destruct H as [H | [H _]]; lia.
Qed.

Lemma leb_pInf x : isNaN x = false -> num_leb x pInf = true.
Proof.
  intros Hx. apply num_leb_spec. repeat split; try assumption.
  destruct x as [ | [] | | ]; simpl in *; try discriminate;
    try (left; lia).
  right; split; [ reflexivity | apply Qle_refl ].
Qed.

Lemma nInf_geb x : num_leb x nInf = true -> x = nInf.
Proof.
  intros H. apply num_leb_spec in H as (Hx & _ & H).
  destruct x as [ | [] | | ]; simpl in *;
    try discriminate; try reflexivity;
    destruct H as [H | [H _]]; lia.
Qed.

Lemma nInf_leb x : isNaN x = false -> num_leb nInf x = true.
Proof.
  intros Hx. apply num_leb_spec. repeat split; try assumption.
  destruct x as [ | [] | | ]; simpl in *; try discriminate;
    try (left; lia).
  right; split; [ reflexivity | apply Qle_refl ].
Qed.

Lemma strict_eq_pInf x : strict_eq x pInf = true <-> x = pInf.
Proof.
  unfold strict_eq. rewrite andb_true_iff. split.
  - intros [_ H]. apply pInf_leb. exact H.
  - intros ->. split; reflexivity.
Qed.

(** ** [Math.min] and [Math.max] on numbers that are not NaN *)

Lemma min_step_cases l x :
  isNaN l = false -> isNaN x = false ->
  (min_step l x = x /\ num_leb x l = true) \/
  (min_step l x = l /\ num_leb l x = true).
Proof.
  intros Hl Hx. unfold min_step. rewrite Hl, Hx.
  destruct (is_neg_zero x && is_pos_zero l) eqn:Z0.
  - left. split; [ reflexivity | ].
    apply andb_true_iff in Z0 as [Z1 Z2].
    destruct x as [ [] | | | ]; try discriminate.
    destruct l as [ [] | | | ]; try discriminate. reflexivity.
  - destruct (num_ltb x l) eqn:E.
    + left. split; [ reflexivity | apply num_ltb_leb; exact E ].
    + right. split; [ reflexivity | ].
      apply num_leb_of_not_ltb; assumption.
Qed.

Lemma max_step_cases h x :
  isNaN h = false -> isNaN x = false ->
  (max_step h x = x /\ num_leb h x = true) \/
  (max_step h x = h /\ num_leb x h = true).
Proof.
  intros Hh Hx. unfold max_step. rewrite Hh, Hx.
  destruct (is_pos_zero x && is_neg_zero h) eqn:Z0.
  - left. split; [ reflexivity | ].
    apply andb_true_iff in Z0 as [Z1 Z2].
    destruct x as [ [] | | | ]; try discriminate.
    destruct h as [ [] | | | ]; try discriminate. reflexivity.
  - destruct (num_ltb h x) eqn:E.
    + left. split; [ reflexivity | apply num_ltb_leb; exact E ].
    + right. split; [ reflexivity | ].
      apply num_leb_of_not_ltb; assumption.
Qed.

Lemma min_step_pInf a : isNaN a = false -> min_step pInf a = a.
Proof.
  intros Ha.
  destruct (min_step_cases pInf a eq_refl Ha) as [[E _] | [E H]];
    [ exact E | ].
  rewrite E. symmetry. apply pInf_leb. exact H.
Qed.

Lemma max_step_nInf a : isNaN a = false -> max_step nInf a = a.
Proof.
  intros Ha.
  destruct (max_step_cases nInf a eq_refl Ha) as [[E _] | [E H]];
    [ exact E | ].
  rewrite E. symmetry. apply nInf_geb. exact H.
Qed.

Lemma Math_min_cases a b :
  isNaN a = false -> isNaN b = false ->
  (Math_min a b = b /\ num_leb b a = true) \/
  (Math_min a b = a /\ num_leb a b = true).
Proof.
  intros Ha Hb. unfold Math_min. rewrite min_step_pInf by assumption.
  apply min_step_cases; assumption.
Qed.

Lemma Math_max_cases a b :
  isNaN a = false -> isNaN b = false ->
  (Math_max a b = b /\ num_leb a b = true) \/
  (Math_max a b = a /\ num_leb b a = true).
Proof.
  intros Ha Hb. unfold Math_max. rewrite max_step_nInf by assumption.
  apply max_step_cases; assumption.
Qed.

(** A NaN on either side gives NaN, and NaN then stays. *)
Lemma Math_min_NaN_l b : Math_min NaN b = NaN.
Proof. reflexivity. Qed.

Lemma Math_min_NaN_r a : Math_min a NaN = NaN.
Proof.
  unfold Math_min, min_step. simpl.
  destruct (isNaN a); [ reflexivity | ].
  destruct (is_neg_zero a && false); [ destruct a; reflexivity | ].
  destruct (num_ltb a pInf); [ destruct (isNaN a) eqn:E | ]; reflexivity.
Qed.

End NumberOrder.

(* ===================================================================== *)
(** * The binary scan against the layout of Encoding A *)

Section BinaryScan.

(** ** Folding a list of coordinates *)

Lemma fold_min_spec (l : list number) : forall a,
  isNaN a = false -> (forall c, In c l -> isNaN c = false) ->
  let r := fold_left Math_min l a in
  isNaN r = false /\ num_leb r a = true /\
  (forall c, In c l -> num_leb r c = true) /\ (r = a \/ In r l).
Proof.
  induction l as [ | x l IH]; intros a Ha Hl; simpl.
  - repeat split; [ exact Ha | apply num_leb_refl; exact Ha | | left; reflexivity ].
    intros c [].
  - assert (Hx : isNaN x = false) by (apply Hl; left; reflexivity).
    assert (Hm : isNaN (Math_min a x) = false)
      by (destruct (Math_min_cases a x Ha Hx) as [[-> _] | [-> _]]; assumption).
    destruct (IH (Math_min a x) Hm (fun c Hc => Hl c (or_intror Hc)))
      as (Hr & Hle & Hall & Hin).
    assert (Hax : num_leb (Math_min a x) a = true /\
                  num_leb (Math_min a x) x = true).
    { destruct (Math_min_cases a x Ha Hx) as [[-> H] | [-> H]];
        split; try exact H; apply num_leb_refl; assumption. }
    destruct Hax as [H1 H2].
    repeat split.
    + exact Hr.
    + exact (num_leb_trans _ _ _ Hle H1).
    + intros c [<- | Hc]; [ exact (num_leb_trans _ _ _ Hle H2) | auto ].
    + destruct Hin as [E | Hin]; [ | right; right; exact Hin ].
      destruct (Math_min_cases a x Ha Hx) as [[E' _] | [E' _]];
        rewrite E, E'; [ right; left; reflexivity | left; reflexivity ].
Qed.

Lemma fold_max_spec (l : list number) : forall a,
  isNaN a = false -> (forall c, In c l -> isNaN c = false) ->
  let r := fold_left Math_max l a in
  isNaN r = false /\ num_leb a r = true /\
  (forall c, In c l -> num_leb c r = true) /\ (r = a \/ In r l).
Proof.
  induction l as [ | x l IH]; intros a Ha Hl; simpl.
  - repeat split; [ exact Ha | apply num_leb_refl; exact Ha | | left; reflexivity ].
    intros c [].
  - assert (Hx : isNaN x = false) by (apply Hl; left; reflexivity).
    assert (Hm : isNaN (Math_max a x) = false)
      by (destruct (Math_max_cases a x Ha Hx) as [[-> _] | [-> _]]; assumption).
    destruct (IH (Math_max a x) Hm (fun c Hc => Hl c (or_intror Hc)))
      as (Hr & Hle & Hall & Hin).
    assert (Hax : num_leb a (Math_max a x) = true /\
                  num_leb x (Math_max a x) = true).
    { destruct (Math_max_cases a x Ha Hx) as [[-> H] | [-> H]];
        split; try exact H; apply num_leb_refl; assumption. }
    destruct Hax as [H1 H2].
    repeat split.
    + exact Hr.
    + exact (num_leb_trans _ _ _ H1 Hle).
    + intros c [<- | Hc]; [ exact (num_leb_trans _ _ _ H2 Hle) | auto ].
    + destruct Hin as [E | Hin]; [ | right; right; exact Hin ].
      destruct (Math_max_cases a x Ha Hx) as [[E' _] | [E' _]];
        rewrite E, E'; [ right; left; reflexivity | left; reflexivity ].
Qed.

(** From the initial +Infinity, a non-empty list without NaN folds to
    one of its true minima. *)
Lemma fold_min_is_min (l : list number) :
  l <> [] -> (forall c, In c l -> isNaN c = false) ->
  is_min_of (fold_left Math_min l pInf) l.
Proof.
  intros Hne Hl.
  destruct (fold_min_spec l pInf eq_refl Hl) as (_ & _ & Hall & Hin).
  split; [ | exact Hall ].
  destruct Hin as [E | Hin]; [ | exact Hin ].
  destruct l as [ | x l]; [ congruence | ].
  assert (Hx : x = pInf).
  { apply pInf_leb. rewrite <- E. apply Hall. left; reflexivity. }
  rewrite E, <- Hx. left; reflexivity.
Qed.

Lemma fold_max_is_max (l : list number) :
  l <> [] -> (forall c, In c l -> isNaN c = false) ->
  is_max_of (fold_left Math_max l nInf) l.
Proof.
  intros Hne Hl.
  destruct (fold_max_spec l nInf eq_refl Hl) as (_ & _ & Hall & Hin).
  split; [ | exact Hall ].
  destruct Hin as [E | Hin]; [ | exact Hin ].
  destruct l as [ | x l]; [ congruence | ].
  assert (Hx : x = nInf).
  { apply nInf_geb. rewrite <- E. apply Hall. left; reflexivity. }
  rewrite E, <- Hx. left; reflexivity.
Qed.

(** A NaN anywhere makes the folded minimum NaN. *)
Lemma fold_min_from_NaN (l : list number) : fold_left Math_min l NaN = NaN.
Proof. induction l as [ | x l IH]; simpl; [ reflexivity | exact IH ]. Qed.

Lemma fold_min_NaN (l : list number) : forall a,
  In NaN l -> fold_left Math_min l a = NaN.
Proof.
  induction l as [ | x l IH]; intros a []; simpl.
  - subst x. rewrite Math_min_NaN_r. apply fold_min_from_NaN.
  - apply IH. assumption.
Qed.

Lemma classic_nan (l : list number) :
  In NaN l \/ (forall c, In c l -> isNaN c = false).
Proof.
  induction l as [ | x l [IH | IH]].
  - right. intros c [].
  - left. right. exact IH.
  - destruct x eqn:E; try (right; intros c [<- | Hc]; [ reflexivity | auto ]).
    left. left. reflexivity.
Qed.

(** The folded minimum is +Infinity only if every element is. *)
Lemma fold_min_pInf (l : list number) :
  fold_left Math_min l pInf = pInf -> forall c, In c l -> c = pInf.
Proof.
  intros E c Hc.
  destruct (classic_nan l) as [Hn | Hl].
  - rewrite (fold_min_NaN l pInf Hn) in E. discriminate.
  - destruct (fold_min_spec l pInf eq_refl Hl) as (_ & _ & Hall & _).
    apply pInf_leb. rewrite <- E. apply Hall. exact Hc.
Qed.

End BinaryScan.

Section ScanLayout.

Lemma slice_slice (buf : list byte) (m n k len : nat) :
  (k + len <= n)%nat ->
  slice k len (slice m n buf) = slice (m + k) len buf.
Proof.
  intros H. unfold slice.
  replace n with (k + (n - k))%nat by lia.
  rewrite <- take_drop_commute, take_take, drop_drop.
  f_equal. lia.
Qed.

Lemma byte_at_nat (buf : Buffer) (off : nat) :
  byte_at buf (Z.of_nat off)
  = (fun b => Z.of_N (Byte.to_N b)) <$> (buf !! off).
Proof.
  unfold byte_at.
  destruct (Z.ltb_spec (Z.of_nat off) 0); [ lia | ].
  rewrite Nat2Z.id. reflexivity.
Qed.

(** A read inside the buffer returns the little-endian value of the
    four bytes at the offset. *)
Lemma readUInt32LE_slice (buf : Buffer) (off : nat) :
  (off + 4 <= length buf)%nat ->
  readUInt32LE buf (Z.of_nat off) = Some (le_value (slice off 4 buf)).
Proof.
  intros H. unfold readUInt32LE, slice.
  replace (Z.of_nat off + 1) with (Z.of_nat (off + 1)) by lia.
  replace (Z.of_nat off + 2) with (Z.of_nat (off + 2)) by lia.
  replace (Z.of_nat off + 3) with (Z.of_nat (off + 3)) by lia.
  rewrite !byte_at_nat.
  rewrite <- (Nat.add_0_r off) at 1.
  rewrite <- !(lookup_drop buf off).
  assert (L : (4 <= length (drop off buf))%nat)
    by (rewrite length_drop; lia).
  destruct (drop off buf) as [ | b0 [ | b1 [ | b2 [ | b3 l]]]];
    simpl in L; try lia.
  simpl. f_equal.
  rewrite !Z.shiftl_mul_pow2 by lia. lia.
Qed.

(** What the decoder reads for coordinate [a] of vertex [v] of
    triangle [i] is the coordinate stored in the record. *)
Lemma readFloatLE_record (buf : Buffer) (i v a : nat) :
  (v < 3)%nat -> (a < 3)%nat ->
  (84 + 50 * (i + 1) <= length buf)%nat ->
  readFloatLE buf (84 + Z.of_nat i * 50 + 12 + Z.of_nat v * 12
                   + 4 * Z.of_nat a)
  = Some (record_coord (stl_record buf i) v a).
Proof.
  intros Hv Ha Hlen. unfold readFloatLE, record_coord, stl_record.
  replace (84 + Z.of_nat i * 50 + 12 + Z.of_nat v * 12 + 4 * Z.of_nat a)
    with (Z.of_nat (84 + 50 * i + (12 + 12 * v + 4 * a))) by lia.
  rewrite readUInt32LE_slice by lia.
  rewrite slice_slice by lia. reflexivity.
Qed.

Lemma scanTriangle_spec (buf : Buffer) (i : nat) (b : BBox) :
  (84 + 50 * (i + 1) <= length buf)%nat ->
  exists b',
    scanTriangle buf (Z.of_nat i) b = Some b' /\
    (forall a, (a < 3)%nat ->
       axis a (bmin b')
       = fold_left Math_min (coords_from buf i 1 a) (axis a (bmin b)) /\
       axis a (bmax b')
       = fold_left Math_max (coords_from buf i 1 a) (axis a (bmax b))).
Proof.
  intros Hlen. unfold scanTriangle, scanVertex.
  pose proof (fun v a Hv Ha => readFloatLE_record buf i v a Hv Ha Hlen) as R.
  assert (R0 : forall v, (v < 3)%nat ->
    readFloatLE buf (84 + Z.of_nat i * 50 + 12 + Z.of_nat v * 12)
    = Some (record_coord (stl_record buf i) v 0)).
  { intros v Hv. rewrite <- (R v 0%nat Hv) by lia. f_equal. lia. }
  assert (R1 : forall v, (v < 3)%nat ->
    readFloatLE buf (84 + Z.of_nat i * 50 + 12 + Z.of_nat v * 12 + 4)
    = Some (record_coord (stl_record buf i) v 1)).
  { intros v Hv. rewrite <- (R v 1%nat Hv) by lia. f_equal. }
  assert (R2 : forall v, (v < 3)%nat ->
    readFloatLE buf (84 + Z.of_nat i * 50 + 12 + Z.of_nat v * 12 + 8)
    = Some (record_coord (stl_record buf i) v 2)).
  { intros v Hv. rewrite <- (R v 2%nat Hv) by lia. f_equal. }
  change 0 with (Z.of_nat 0) at 1 2 3.
  rewrite (R0 0%nat), (R1 0%nat), (R2 0%nat) by lia.
  cbn [mbind option_bind].
  change 1 with (Z.of_nat 1) at 1 2 3.
  rewrite (R0 1%nat), (R1 1%nat), (R2 1%nat) by lia.
  cbn [mbind option_bind].
  change 2 with (Z.of_nat 2) at 1 2 3.
  rewrite (R0 2%nat), (R1 2%nat), (R2 2%nat) by lia.
  cbn [mbind option_bind].
  eexists. split; [ reflexivity | ].
  intros a Ha.
  destruct a as [ | [ | [ | a]]]; [ | | | lia ]; split; reflexivity.
Qed.

End ScanLayout.

Section WholeScan.

Lemma coords_from_S (buf : Buffer) (i todo a : nat) :
  coords_from buf i (S todo) a
  = coords_from buf i 1 a ++ coords_from buf (S i) todo a.
Proof.
  unfold coords_from. cbn [seq flat_map]. rewrite app_nil_r. reflexivity.
Qed.

(** The outer loop never reads outside the buffer, and on each axis it
    folds the stored coordinates in order. *)
Lemma scanTriangles_spec (buf : Buffer) (todo : nat) : forall i b,
  (84 + 50 * (i + todo) <= length buf)%nat ->
  exists b',
    scanTriangles buf todo (Z.of_nat i) b = Some b' /\
    (forall a, (a < 3)%nat ->
       axis a (bmin b')
       = fold_left Math_min (coords_from buf i todo a) (axis a (bmin b)) /\
       axis a (bmax b')
       = fold_left Math_max (coords_from buf i todo a) (axis a (bmax b))).
Proof.
  induction todo as [ | todo IH]; intros i b Hlen.
  - exists b. split; [ reflexivity | ]. intros a _. split; reflexivity.
  - destruct (scanTriangle_spec buf i b) as (b1 & E1 & F1); [ lia | ].
    destruct (IH (S i) b1) as (b2 & E2 & F2); [ lia | ].
    exists b2. split.
    + cbn [scanTriangles]. rewrite E1. cbn [mbind option_bind].
      replace (Z.of_nat i + 1) with (Z.of_nat (S i)) by lia. exact E2.
    + intros a Ha. rewrite coords_from_S, !fold_left_app.
      destruct (F1 a Ha) as [<- <-]. exact (F2 a Ha).
Qed.

Lemma coords_from_nonempty (buf : Buffer) (i todo a : nat) :
  (0 < todo)%nat -> coords_from buf i todo a <> [].
Proof.
  destruct todo as [ | todo]; [ lia | ]. intros _.
  rewrite coords_from_S. unfold coords_from at 1. cbn. discriminate.
Qed.

Lemma axis_emptyBox_min a : axis a (bmin emptyBox) = pInf.
Proof. destruct a as [ | [ | a]]; reflexivity. Qed.

Lemma axis_emptyBox_max a : axis a (bmax emptyBox) = nInf.
Proof. destruct a as [ | [ | a]]; reflexivity. Qed.

(** On a well-formed mesh the size checks pass and the scan runs over
    all [n] records. *)
Lemma binaryPhase_well_formed (buf : Buffer) (n : Z) :
  well_formed_A buf n ->
  exists b,
    scanTriangles buf (Z.to_nat n) 0 emptyBox = Some b /\
    binaryPhase buf emptyBox
    = Some (negb (strict_eq (vx (bmin b)) pInf), b) /\
    (forall a, (a < 3)%nat ->
       axis a (bmin b)
       = fold_left Math_min (mesh_coords buf (Z.to_nat n) a) pInf /\
       axis a (bmax b)
       = fold_left Math_max (mesh_coords buf (Z.to_nat n) a) nInf).
Proof.
  intros (H84 & Hn & H1 & Hlen). unfold buf_length in *.
  destruct (scanTriangles_spec buf (Z.to_nat n) 0 emptyBox)
    as (b & E & F); [ lia | ].
  exists b. split; [ exact E | ]. split.
  - unfold binaryPhase, buf_length.
    destruct (Z.leb_spec 84 (Z.of_nat (length buf))); [ | lia ].
    change 80 with (Z.of_nat 80).
    rewrite readUInt32LE_slice by lia.
    cbn [mbind option_bind]. fold (declared_count buf). rewrite Hn.
    destruct (Z.ltb_spec 0 n); [ | lia ].
    destruct (Z.leb_spec (84 + n * 50) (Z.of_nat (length buf))); [ | lia ].
    cbn [andb]. change 0 with (Z.of_nat 0) at 1. rewrite E.
    cbn [mbind option_bind].
    destruct (strict_eq (vx (bmin b)) pInf); reflexivity.
  - intros a Ha. unfold mesh_coords.
    rewrite <- (axis_emptyBox_min a) at 1.
    rewrite <- (axis_emptyBox_max a) at 1. exact (F a Ha).
Qed.

End WholeScan.

(** On a well-formed mesh the test [min[0] !== Infinity] fails exactly
    when every x coordinate stored is +Infinity. *)
Lemma fold_min_all_pInf (l : list number) :
  (forall c, In c l -> c = pInf) -> fold_left Math_min l pInf = pInf.
Proof.
  induction l as [ | x l IH]; intros H; [ reflexivity | ].
  cbn [fold_left]. rewrite (H x) by (left; reflexivity).
  change (Math_min pInf pInf) with pInf.
  apply IH. intros c Hc. apply H. right. exact Hc.
Qed.

Lemma sentinel_test (buf : Buffer) (n : Z) (returned : bool) (b : BBox) :
  well_formed_A buf n ->
  binaryPhase buf emptyBox = Some (returned, b) ->
  returned = false <->
  (forall c, In c (mesh_coords buf (Z.to_nat n) 0) -> c = pInf).
Proof.
  intros WF E.
  destruct (binaryPhase_well_formed buf n WF) as (b' & _ & E' & F).
  rewrite E' in E. injection E as <- <-.
  destruct (F 0%nat ltac:(lia)) as [Fx _]. cbn [axis] in Fx.
  rewrite negb_false_iff, strict_eq_pInf, Fx. split.
  - apply fold_min_pInf.
  - apply fold_min_all_pInf.
Qed.

(* ===================================================================== *)
(** * Claims about [parseStlBoundingBox] *)

(** C2, counterexample.  [nan_mesh] is a well-formed Encoding-A mesh of
    one triangle whose first x coordinate is NaN: the decoder returns a
    box whose x minimum is NaN, and no box it could return is exact,
    since nothing is below or above a NaN. *)
Lemma parseStlBoundingBox_nan_not_exact :
  well_formed_A nan_mesh 1 /\
  (exists b, parseStlBoundingBox nan_mesh = Some b /\ vx (bmin b) = NaN) /\
  ~ (exists b, parseStlBoundingBox nan_mesh = Some b /\
               exact_box nan_mesh 1 b).
Proof.
  split; [ | split ].
  - unfold well_formed_A. vm_compute. repeat split; discriminate.
  - eexists. split; vm_compute; reflexivity.
  - intros (b & _ & Hb).
    destruct (Hb 0%nat ltac:(lia)) as [[_ Hmin] _].
    assert (H : num_leb (axis 0 (bmin b)) NaN = true)
      by (apply Hmin; vm_compute; left; reflexivity).
    unfold num_leb in H. cbn [isNaN NaN negb] in H.
    rewrite andb_false_r in H. discriminate.
Qed.

(** C2, as amended.  On a well-formed Encoding-A mesh of [n >= 1]
    triangles whose x coordinates are not all +Infinity,
    [parseStlBoundingBox] returns a box that, on every axis whose stored
    coordinates hold no NaN, gives a true minimum and a true maximum of
    the [3 n] binary32 coordinates stored for that axis. *)
Theorem parseStlBoundingBox_binary_exact (buf : Buffer) (n : Z) :
  well_formed_A buf n ->
  (exists c, In c (mesh_coords buf (Z.to_nat n) 0) /\ c <> pInf) ->
  exists b,
    parseStlBoundingBox buf = Some b /\
    forall a, (a < 3)%nat -> nan_free buf n a -> exact_on_axis buf n b a.
Proof.
  intros WF (c & Hc & Hne).
  destruct (binaryPhase_well_formed buf n WF) as (b & _ & E & F).
  exists b. split.
  - unfold parseStlBoundingBox. rewrite E.
    destruct (strict_eq (vx (bmin b)) pInf) eqn:S; [ exfalso | reflexivity ].
    apply strict_eq_pInf in S.
    destruct (F 0%nat ltac:(lia)) as [Fx _]. cbn [axis] in Fx.
    rewrite S in Fx. symmetry in Fx.
    exact (Hne (fold_min_pInf _ Fx c Hc)).
  - intros a Ha Hnan. unfold exact_on_axis. destruct (F a Ha) as [-> ->].
    assert (Hnz : mesh_coords buf (Z.to_nat n) a <> []).
    { destruct WF as (_ & _ & Hn1 & _).
      assert (Hpos : (0 < Z.to_nat n)%nat) by lia.
      exact (coords_from_nonempty buf 0 (Z.to_nat n) a Hpos). }
    split; [ apply fold_min_is_min | apply fold_max_is_max ]; assumption.
Qed.

(** Witness for C2: the one-triangle mesh (1,0,0) (0,2,0) (0,0,-3). *)
Lemma parseStlBoundingBox_binary_exact_witness :
  exists b,
    parseStlBoundingBox plain_mesh = Some b /\
    forall a, (a < 3)%nat -> nan_free plain_mesh 1 a ->
              exact_on_axis plain_mesh 1 b a.
Proof.
  apply (parseStlBoundingBox_binary_exact plain_mesh 1).
  - unfold well_formed_A. vm_compute. repeat split; discriminate.
  - exists pzero. split; [ vm_compute; auto | discriminate ].
Defined.

(** C3, the failing input.  [inf_mesh] declares one triangle and passes
    the size check; the scan runs and folds its three vertices, all of
    x coordinate +Infinity.  The test [min[0] !== Infinity] then fails,
    so the function does not return: it goes on to the text scan, which
    finds "vertex 1 2 3" in the header and folds it into the box. *)
Lemma parseStlBoundingBox_inf_falls_through :
  readUInt32LE inf_mesh 80 = Some 1 /\
  84 + 1 * 50 <= buf_length inf_mesh /\
  scanTriangles inf_mesh 1 0 emptyBox
  = Some (mkBBox (Vec3 pInf pzero pzero) (Vec3 pInf pzero pzero)) /\
  binaryPhase inf_mesh emptyBox
  = Some (false, mkBBox (Vec3 pInf pzero pzero) (Vec3 pInf pzero pzero)) /\
  parseStlBoundingBox inf_mesh
  = Some (mkBBox (Vec3 (num_of_Z 1) pzero pzero)
                 (Vec3 pInf (num_of_Z 2) (num_of_Z 3))).
Proof.
  repeat split; try (vm_compute; reflexivity).
  vm_compute. discriminate.
Qed.

(** The decoder never throws: a read happens only under the size check
    that covers it. *)
Lemma binaryPhase_total (buf : Buffer) (b0 : BBox) :
  exists r, binaryPhase buf b0 = Some r.
Proof.
  unfold binaryPhase, buf_length.
  destruct (Z.leb_spec 84 (Z.of_nat (length buf))) as [H84 | ];
    [ | eexists; reflexivity ].
  change 80 with (Z.of_nat 80). rewrite readUInt32LE_slice by lia.
  cbn [mbind option_bind]. set (n := le_value (slice 80 4 buf)).
  destruct (Z.ltb_spec 0 n) as [Hn | ]; [ | eexists; reflexivity ].
  destruct (Z.leb_spec (84 + n * 50) (Z.of_nat (length buf))) as [Hlen | ];
    [ | eexists; reflexivity ].
  cbn [andb].
  destruct (scanTriangles_spec buf (Z.to_nat n) 0 b0) as (b & E & _);
    [ lia | ].
  change 0 with (Z.of_nat 0) at 1. rewrite E. cbn [mbind option_bind].
  destruct (negb (strict_eq (vx (bmin b)) pInf)); eexists; reflexivity.
Qed.

Lemma parseStlBoundingBox_total (buf : Buffer) :
  exists b, parseStlBoundingBox buf = Some b.
Proof.
  unfold parseStlBoundingBox.
  destruct (binaryPhase_total buf emptyBox) as ([[] b] & ->);
    eexists; reflexivity.
Qed.

(* ===================================================================== *)
(** * The peer channel keeps its books *)

Section PeerInvariant.

Lemma outcomes_settle rid r o s :
  outcomes rid (settle r o s)
  = outcomes rid s ++ (if r =? rid then [o] else []).
Proof.
  unfold outcomes, settle. cbn [settled].
  rewrite List.filter_app, map_app. cbn [List.filter fst].
  destruct (r =? rid); reflexivity.
Qed.

Lemma outcomes_complete rid r r' t o s :
  outcomes rid (settle r o (pending_delete r' (clearTimeout t s)))
  = outcomes rid s ++ (if r =? rid then [o] else []).
Proof. rewrite outcomes_settle. reflexivity. Qed.

Lemma outcomes_none rid s :
  (forall o, ~ In (rid, o) (settled s)) -> outcomes rid s = [].
Proof.
  unfold outcomes. induction (settled s) as [ | [r o] l IH]; intros H.
  - reflexivity.
  - cbn [List.filter fst]. destruct (Z.eqb_spec r rid) as [-> | Hne].
    + exfalso. apply (H o). left; reflexivity.
    + apply IH. intros o' Ho'. apply (H o'). right; exact Ho'.
Qed.

Lemma peer_init_wf : peer_wf peer_init.
Proof.
  constructor; cbn; intros;
    try (rewrite lookup_empty in *; discriminate);
    try contradiction; lia.
Qed.

(** Completing the pending request [r], by either closure of its entry
    or by its timer, keeps the books. *)
Lemma complete_wf s r e o :
  peer_wf s -> pendingRequests s !! r = Some e ->
  peer_wf (settle r o (pending_delete r (clearTimeout (e_timer e) s))).
Proof.
  intros W He.
  destruct (wf_entry_timer s W r e He) as (d & Ht).
  constructor; cbn [settle pending_delete clearTimeout pendingRequests
                    requestIdCounter timers nextTimer settled].
  - intros r' e' H. apply lookup_delete_Some in H as [_ H].
    exact (wf_issued s W r' e' H).
  - exact (wf_counter s W).
  - intros r' e' H. apply lookup_delete_Some in H as [Hne H].
    destruct (wf_entry_timer s W r' e' H) as (d' & Ht').
    exists d'. rewrite lookup_delete_ne; [ exact Ht' | ].
    intros Eq. rewrite Eq in Ht. congruence.
  - intros t cb H. apply lookup_delete_Some in H as [Hne H].
    pose proof (wf_timer_entry s W t cb H) as Hp.
    rewrite lookup_delete_ne; [ exact Hp | ].
    intros Eq. rewrite <- Eq in Hp. rewrite He in Hp.
    injection Hp as ->. apply Hne. reflexivity.
  - intros t cb H. apply lookup_delete_Some in H as [_ H].
    exact (wf_timer_issued s W t cb H).
  - intros r' e' H. apply lookup_delete_Some in H as [Hne H].
    fold (settle r o (pending_delete r (clearTimeout (e_timer e) s))).
    rewrite outcomes_complete.
    destruct (Z.eqb_spec r r'); [ congruence | ].
    rewrite app_nil_r. exact (wf_pending_open s W r' e' H).
  - intros r' o' H. apply in_app_or in H as [H | [H | []]].
    + exact (wf_settled_issued s W r' o' H).
    + injection H as <- _. exact (wf_issued s W r e He).
  - intros r' Hr' H.
    fold (settle r o (pending_delete r (clearTimeout (e_timer e) s))).
    rewrite outcomes_complete.
    destruct (Z.eqb_spec r r') as [<- | Hne].
    + exists o. rewrite (wf_pending_open s W r e He). reflexivity.
    + rewrite lookup_delete_ne in H by exact Hne.
      rewrite app_nil_r. exact (wf_closed_once s W r' Hr' H).
Qed.

(** A fresh identifier and a fresh handle are in neither map. *)
Lemma fresh_request s :
  peer_wf s -> pendingRequests s !! (requestIdCounter s + 1) = None.
Proof.
  intros W. destruct (pendingRequests s !! _) as [e | ] eqn:E; [ | reflexivity ].
  pose proof (wf_issued s W _ e E). lia.
Qed.

Lemma fresh_timer s : peer_wf s -> timers s !! nextTimer s = None.
Proof.
  intros W. destruct (timers s !! _) as [cb | ] eqn:E; [ | reflexivity ].
  pose proof (wf_timer_issued s W _ cb E). lia.
Qed.

Lemma fresh_outcomes s :
  peer_wf s -> outcomes (requestIdCounter s + 1) s = [].
Proof.
  intros W. apply outcomes_none. intros o H.
  pose proof (wf_settled_issued s W _ o H). lia.
Qed.

(** [sendAndWait] when some socket is ready. *)
Lemma sendAndWait_ready s body ms ws :
  List.find is_ready (wsClients s) = Some ws ->
  sendAndWait body ms s
  = (requestIdCounter s + 1,
     mkPeer (wsClients s)
       (<[requestIdCounter s + 1 := mkEntry (nextTimer s)]>
          (pendingRequests s))
       (requestIdCounter s + 1)
       (<[nextTimer s := mkRequestTimer (requestIdCounter s + 1) ms]> (timers s))
       (nextTimer s + 1) (settled s)
       (sent s ++ [(c_id ws, Request (requestIdCounter s + 1) body)])).
Proof.
  intros F. unfold sendAndWait, setTimeout, pending_set, ws_send.
  cbn [wsClients pendingRequests requestIdCounter timers nextTimer settled
       sent]. rewrite F. reflexivity.
Qed.

(** [sendAndWait] when no socket is ready. *)
Lemma sendAndWait_not_ready s body ms :
  List.find is_ready (wsClients s) = None ->
  sendAndWait body ms s
  = (requestIdCounter s + 1,
     mkPeer (wsClients s)
       (delete (requestIdCounter s + 1)
          (<[requestIdCounter s + 1 := mkEntry (nextTimer s)]>
             (pendingRequests s)))
       (requestIdCounter s + 1)
       (delete (nextTimer s)
          (<[nextTimer s := mkRequestTimer (requestIdCounter s + 1) ms]>
             (timers s)))
       (nextTimer s + 1)
       (settled s ++ [(requestIdCounter s + 1, Rejected err_no_browser)])
       (sent s)).
Proof.
  intros F. unfold sendAndWait, setTimeout, pending_set, clearTimeout,
    pending_delete, settle.
  cbn [wsClients pendingRequests requestIdCounter timers nextTimer settled
       sent]. rewrite F. reflexivity.
Qed.

Lemma sendAndWait_wf s body ms :
  peer_wf s -> peer_wf (snd (sendAndWait body ms s)).
Proof.
  intros W.
  pose proof (fresh_request s W) as FR.
  pose proof (fresh_timer s W) as FT.
  pose proof (fresh_outcomes s W) as FO.
  pose proof (wf_counter s W) as HC.
  destruct (List.find is_ready (wsClients s)) as [ws | ] eqn:F.
  - rewrite (sendAndWait_ready s body ms ws F). cbn [snd].
    constructor; cbn [pendingRequests requestIdCounter timers nextTimer
                      settled].
    + intros r e H. apply lookup_insert_Some in H as [[<- _] | [_ H]];
        [ lia | pose proof (wf_issued s W r e H); lia ].
    + lia.
    + intros r e H. apply lookup_insert_Some in H as [[<- <-] | [Hne H]].
      * exists ms. apply lookup_insert_eq.
      * destruct (wf_entry_timer s W r e H) as (d & Ht). exists d.
        rewrite lookup_insert_ne; [ exact Ht | ]. congruence.
    + intros t cb H. apply lookup_insert_Some in H as [[<- <-] | [Hne H]].
      * apply lookup_insert_eq.
      * pose proof (wf_timer_entry s W t cb H) as Hp.
        rewrite lookup_insert_ne; [ exact Hp | ]. congruence.
    + intros t cb H. apply lookup_insert_Some in H as [[<- _] | [_ H]];
        [ lia | pose proof (wf_timer_issued s W t cb H); lia ].
    + intros r e H. unfold outcomes. cbn [settled].
      apply lookup_insert_Some in H as [[<- _] | [_ H]];
        [ exact FO | exact (wf_pending_open s W r e H) ].
    + intros r o H. pose proof (wf_settled_issued s W r o H). lia.
    + intros r Hr H. apply lookup_insert_None in H as [H Hne].
      unfold outcomes. cbn [settled].
      apply (wf_closed_once s W r); [ lia | exact H ].
  - rewrite (sendAndWait_not_ready s body ms F). cbn [snd].
    rewrite (delete_insert_id _ _ _ FR), (delete_insert_id _ _ _ FT).
    set (s' := mkPeer _ _ _ _ _ _ _).
    assert (O : forall r, outcomes r s'
              = outcomes r s
                ++ (if requestIdCounter s + 1 =? r
                    then [Rejected err_no_browser] else [])).
    { intros r. exact (outcomes_settle r _ _ s). }
    constructor; subst s';
      cbn [pendingRequests requestIdCounter timers nextTimer settled].
    + intros r e H. pose proof (wf_issued s W r e H). lia.
    + lia.
    + exact (wf_entry_timer s W).
    + exact (wf_timer_entry s W).
    + intros t cb H. pose proof (wf_timer_issued s W t cb H). lia.
    + intros r e H. rewrite O.
      pose proof (wf_issued s W r e H).
      destruct (Z.eqb_spec (requestIdCounter s + 1) r); [ lia | ].
      rewrite app_nil_r. exact (wf_pending_open s W r e H).
    + intros r o H. apply in_app_or in H as [H | [H | []]].
      * pose proof (wf_settled_issued s W r o H). lia.
      * injection H as <- _. lia.
    + intros r Hr H. rewrite O.
      destruct (Z.eqb_spec (requestIdCounter s + 1) r) as [<- | Hne].
      * rewrite FO. eexists. reflexivity.
      * rewrite app_nil_r. apply (wf_closed_once s W r); [ lia | exact H ].
Qed.

Lemma onMessage_wf raw s : peer_wf s -> peer_wf (onMessage raw s).
Proof.
  intros W. destruct raw as [ | [ | n | ] body]; cbn [onMessage]; try exact W.
  destruct (n =? 0); [ exact W | ].
  destruct (pendingRequests s !! n) as [e | ] eqn:E; [ | exact W ].
  apply complete_wf; assumption.
Qed.

Lemma fireTimeout_wf t s : peer_wf s -> peer_wf (fireTimeout t s).
Proof.
  intros W. unfold fireTimeout.
  destruct (timers s !! t) as [cb | ] eqn:E; [ | exact W ].
  exact (complete_wf s (t_request cb) (mkEntry t) _ W
           (wf_timer_entry s W t cb E)).
Qed.

Lemma peer_step_wf ev s : peer_wf s -> peer_wf (peer_step ev s).
Proof.
  intros W. destruct ev; cbn [peer_step].
  - apply sendAndWait_wf; exact W.
  - apply onMessage_wf; exact W.
  - apply fireTimeout_wf; exact W.
  - destruct W; constructor; assumption.
  - destruct W; constructor; assumption.
  - destruct W; constructor; assumption.
Qed.

Lemma peer_run_wf evs : forall s, peer_wf s -> peer_wf (peer_run evs s).
Proof.
  induction evs as [ | ev evs IH]; intros s W; [ exact W | ].
  apply IH, peer_step_wf, W.
Qed.

End PeerInvariant.

(* ===================================================================== *)
(** * Requests complete once, by whichever comes first *)

Section PendingRequests.

(** An event that is neither the response to [rid] nor its timer
    leaves the entry of [rid] in the table. *)
Lemma pending_step_other s rid e ev :
  peer_wf s -> pendingRequests s !! rid = Some e ->
  completion rid (e_timer e) ev = None ->
  pendingRequests (peer_step ev s) !! rid = Some e.
Proof.
  intros W He Hc. pose proof (wf_issued s W rid e He) as Hr.
  destruct ev as [body ms | raw | t | c | id | id st];
    cbn [peer_step]; try exact He.
  - destruct (List.find is_ready (wsClients s)) as [ws | ] eqn:F.
    + rewrite (sendAndWait_ready s body ms ws F). cbn [snd pendingRequests].
      rewrite lookup_insert_ne by lia. exact He.
    + rewrite (sendAndWait_not_ready s body ms F). cbn [snd pendingRequests].
      rewrite lookup_delete_ne, lookup_insert_ne by lia. exact He.
  - destruct raw as [ | [ | n | ] body]; cbn [onMessage]; try exact He.
    destruct (n =? 0); [ exact He | ].
    cbn [completion] in Hc.
    destruct (Z.eqb_spec n rid) as [-> | Hne]; [ discriminate | ].
    destruct (pendingRequests s !! n) as [e' | ]; [ | exact He ].
    cbn [entry_resolve settle pending_delete pendingRequests].
    rewrite lookup_delete_ne by exact Hne. exact He.
  - cbn [completion] in Hc. unfold fireTimeout.
    destruct (Z.eqb_spec t (e_timer e)) as [-> | Hne]; [ discriminate | ].
    destruct (timers s !! t) as [cb | ] eqn:E; [ | exact He ].
    cbn [settle pending_delete pendingRequests].
    rewrite lookup_delete_ne; [ exact He | ].
    intros Eq. pose proof (wf_timer_entry s W t cb E) as Hp.
    rewrite Eq, He in Hp. injection Hp as ->. apply Hne. reflexivity.
Qed.

(** The response to [rid], or its timer, removes the entry and
    completes the promise, with the matching outcome. *)
Lemma pending_step_complete s rid e ev o :
  peer_wf s -> pendingRequests s !! rid = Some e ->
  completion rid (e_timer e) ev = Some o ->
  pendingRequests (peer_step ev s) !! rid = None /\
  outcomes rid (peer_step ev s) = [o].
Proof.
  intros W He Hc. pose proof (wf_issued s W rid e He) as Hr.
  pose proof (wf_pending_open s W rid e He) as Ho.
  destruct ev as [body ms | raw | t | c | id | id st];
    cbn [completion] in Hc; try discriminate; cbn [peer_step].
  - destruct raw as [ | [ | n | ] body]; try discriminate.
    destruct (Z.eqb_spec n rid) as [-> | Hne]; [ | discriminate ].
    injection Hc as <-. cbn [onMessage].
    destruct (Z.eqb_spec rid 0); [ lia | ]. rewrite He.
    unfold entry_resolve. rewrite outcomes_complete, Z.eqb_refl, Ho.
    split; [ apply lookup_delete_eq | reflexivity ].
  - destruct (Z.eqb_spec t (e_timer e)) as [-> | Hne]; [ | discriminate ].
    injection Hc as <-. unfold fireTimeout.
    destruct (wf_entry_timer s W rid e He) as (d & ->).
    cbn [t_request]. rewrite outcomes_complete, Z.eqb_refl, Ho.
    split; [ apply lookup_delete_eq | reflexivity ].
Qed.

(** Once [rid] has left the table nothing brings it back, and nothing
    completes its promise again. *)
Lemma closed_step s rid ev :
  peer_wf s -> 0 < rid <= requestIdCounter s ->
  pendingRequests s !! rid = None ->
  pendingRequests (peer_step ev s) !! rid = None /\
  outcomes rid (peer_step ev s) = outcomes rid s /\
  0 < rid <= requestIdCounter (peer_step ev s).
Proof.
  intros W Hr Hn.
  destruct ev as [body ms | raw | t | c | id | id st];
    cbn [peer_step];
    try (split; [ exact Hn | split; [ reflexivity | exact Hr ] ]).
  - destruct (List.find is_ready (wsClients s)) as [ws | ] eqn:F.
    + rewrite (sendAndWait_ready s body ms ws F).
      cbn [snd pendingRequests requestIdCounter].
      rewrite lookup_insert_ne by lia. repeat split; first [ exact Hn | lia | reflexivity ].
    + rewrite (sendAndWait_not_ready s body ms F).
      cbn [snd pendingRequests requestIdCounter].
      rewrite lookup_delete_ne, lookup_insert_ne by lia.
      repeat split; try first [ exact Hn | lia | reflexivity ].
      etransitivity; [ exact (outcomes_settle rid _ _ s) | ].
      destruct (Z.eqb_spec (requestIdCounter s + 1) rid); [ lia | ].
      apply app_nil_r.
  - destruct raw as [ | [ | n | ] body]; cbn [onMessage];
      try (repeat split; first [ exact Hn | lia | reflexivity ]).
    destruct (n =? 0); [ repeat split; first [ exact Hn | lia | reflexivity ] | ].
    destruct (pendingRequests s !! n) as [e | ] eqn:E;
      [ | repeat split; first [ exact Hn | lia | reflexivity ] ].
    assert (n <> rid) by congruence.
    unfold entry_resolve. rewrite outcomes_complete.
    destruct (Z.eqb_spec n rid); [ congruence | ].
    cbn [settle pending_delete pendingRequests requestIdCounter
         clearTimeout].
    rewrite lookup_delete_ne, app_nil_r by assumption.
    repeat split; first [ exact Hn | lia | reflexivity ].
  - unfold fireTimeout.
    destruct (timers s !! t) as [cb | ] eqn:E;
      [ | repeat split; first [ exact Hn | lia | reflexivity ] ].
    pose proof (wf_timer_entry s W t cb E) as Hp.
    assert (t_request cb <> rid) by congruence.
    rewrite outcomes_complete.
    destruct (Z.eqb_spec (t_request cb) rid); [ congruence | ].
    cbn [settle pending_delete pendingRequests requestIdCounter
         clearTimeout].
    rewrite lookup_delete_ne, app_nil_r by assumption.
    repeat split; first [ exact Hn | lia | reflexivity ].
Qed.

Lemma closed_run evs : forall s rid,
  peer_wf s -> 0 < rid <= requestIdCounter s ->
  pendingRequests s !! rid = None ->
  pendingRequests (peer_run evs s) !! rid = None /\
  outcomes rid (peer_run evs s) = outcomes rid s.
Proof.
  induction evs as [ | ev evs IH]; intros s rid W Hr Hn.
  - split; [ exact Hn | reflexivity ].
  - destruct (closed_step s rid ev W Hr Hn) as (Hn' & Ho' & Hr').
    destruct (IH (peer_step ev s) rid (peer_step_wf ev s W) Hr' Hn')
      as [H1 H2].
    change (peer_run (ev :: evs) s) with (peer_run evs (peer_step ev s)).
    split; [ exact H1 | ]. rewrite H2. exact Ho'.
Qed.

(** A message for an identifier that is not in the table changes
    nothing. *)
Lemma late_message_discarded s rid body :
  pendingRequests s !! rid = None ->
  onMessage (Parsed (NumId rid) body) s = s.
Proof.
  intros Hn. cbn [onMessage]. rewrite Hn.
  destruct (rid =? 0); reflexivity.
Qed.

End PendingRequests.

(** C5.  Take any request [rid] that is in the table, and any sequence of
    later events: sends, inbound messages, timers, sockets coming and
    going.  While neither a response carrying [rid] nor the timer of
    [rid] has occurred, the entry is still there and the promise has not
    been completed.  Otherwise the first of the two removed the entry and
    completed the promise, exactly once and with its own outcome (the
    response, or the timeout failure), and a further message carrying
    [rid] leaves the whole state as it is. *)
Theorem pending_request_first_wins (s : PeerState) (rid : Z) (e : Entry)
  (evs : list PeerEvent) :
  peer_wf s -> pendingRequests s !! rid = Some e ->
  match first_completion rid (e_timer e) evs with
  | None =>
      pendingRequests (peer_run evs s) !! rid = Some e /\
      outcomes rid (peer_run evs s) = []
  | Some o =>
      pendingRequests (peer_run evs s) !! rid = None /\
      outcomes rid (peer_run evs s) = [o] /\
      forall body,
        onMessage (Parsed (NumId rid) body) (peer_run evs s) = peer_run evs s
  end.
Proof.
  revert s. induction evs as [ | ev evs IH]; intros s W He.
  - cbn. split; [ exact He | exact (wf_pending_open s W rid e He) ].
  - cbn [first_completion].
    destruct (completion rid (e_timer e) ev) as [o | ] eqn:C.
    + destruct (pending_step_complete s rid e ev o W He C) as [Hn Ho].
      pose proof (wf_issued s W rid e He) as Hr.
      assert (Hr' : 0 < rid <= requestIdCounter (peer_step ev s)).
      { destruct (Z_le_gt_dec rid (requestIdCounter (peer_step ev s)));
          [ lia | exfalso ].
        assert (In (rid, o) (settled (peer_step ev s))).
        { unfold outcomes in Ho.
          assert (In o (map snd (List.filter (fun p => fst p =? rid)
                                   (settled (peer_step ev s)))))
            by (rewrite Ho; left; reflexivity).
          apply in_map_iff in H as ([r' o'] & Eo & Hin).
          apply List.filter_In in Hin as [Hin Heq].
          cbn in Eo, Heq. apply Z.eqb_eq in Heq. subst. exact Hin. }
        pose proof (wf_settled_issued _ (peer_step_wf ev s W) rid o H). lia. }
      destruct (closed_run evs (peer_step ev s) rid (peer_step_wf ev s W)
                  Hr' Hn) as [H1 H2].
      change (peer_run (ev :: evs) s) with (peer_run evs (peer_step ev s)).
      split; [ exact H1 | ]. split; [ congruence | ].
      intros body. apply late_message_discarded. exact H1.
    + change (peer_run (ev :: evs) s) with (peer_run evs (peer_step ev s)).
      apply IH; [ apply peer_step_wf; exact W | ].
      apply pending_step_other; assumption.
Qed.

(** Witness for C5: a request sent to a ready socket; an unrelated
    message, then the response, then the timer and a late duplicate. *)
Lemma pending_request_first_wins_witness :
  let s := peer_run [EvConnect (mkClient 1 1); EvSend "set-camera" 10000]
             peer_init in
  let evs := [EvMessage (Parsed (NumId 7) "stray");
              EvMessage (Parsed (NumId 1) "png");
              EvTimeout 0;
              EvMessage (Parsed (NumId 1) "again")] in
  pendingRequests (peer_run evs s) !! 1 = None /\
  outcomes 1 (peer_run evs s) = [Resolved (NumId 1) "png"] /\
  forall body,
    onMessage (Parsed (NumId 1) body) (peer_run evs s) = peer_run evs s.
Proof.
  intros s evs.
  exact (pending_request_first_wins s 1 (mkEntry 0) evs
           (peer_run_wf _ _ peer_init_wf) eq_refl).
Defined.

(** C6.  When no socket of the peer set is ready, [sendAndWait] rejects
    at once with "No browser connected": when it returns the table is
    the table it found, without an entry for the identifier it assigned,
    no timer is left pending, and nothing was sent. *)
Theorem sendAndWait_no_peer (s : PeerState) (body : string) (ms : Z) :
  peer_wf s ->
  (forall c, In c (wsClients s) -> readyState c <> 1) ->
  let rid := fst (sendAndWait body ms s) in
  let s' := snd (sendAndWait body ms s) in
  rid = requestIdCounter s + 1 /\
  pendingRequests s' !! rid = None /\
  pendingRequests s' = pendingRequests s /\
  timers s' = timers s /\
  settled s' = settled s ++ [(rid, Rejected err_no_browser)] /\
  outcomes rid s' = [Rejected err_no_browser] /\
  sent s' = sent s.
Proof.
  intros W Hnone.
  assert (F : List.find is_ready (wsClients s) = None).
  { destruct (List.find is_ready (wsClients s)) as [c | ] eqn:F;
      [ exfalso | reflexivity ].
    apply List.find_some in F as [Hin Hr].
    apply (Hnone c Hin). unfold is_ready in Hr. lia. }
  cbn zeta. rewrite (sendAndWait_not_ready s body ms F).
  cbn [fst snd pendingRequests timers settled sent].
  pose proof (fresh_request s W) as FR.
  rewrite (delete_insert_id _ _ _ FR),
    (delete_insert_id _ _ _ (fresh_timer s W)).
  repeat split; try assumption.
  etransitivity; [ exact (outcomes_settle _ _ _ s) | ].
  rewrite Z.eqb_refl, (fresh_outcomes s W). reflexivity.
Qed.

(** Witness for C6: one socket is connected but still CONNECTING. *)
Lemma sendAndWait_no_peer_witness :
  let s := peer_run [EvConnect (mkClient 1 0)] peer_init in
  fst (sendAndWait "set-camera" 10000 s) = 1 /\
  pendingRequests (snd (sendAndWait "set-camera" 10000 s)) !! 1 = None /\
  sent (snd (sendAndWait "set-camera" 10000 s)) = [].
Proof.
  intros s.
  destruct (sendAndWait_no_peer s "set-camera" 10000
              (peer_run_wf _ _ peer_init_wf)) as (H1 & H2 & _ & _ & _ & _ & H3).
  - intros c [<- | []]. cbn. lia.
  - exact (conj H1 (conj H2 H3)).
Defined.

(* ===================================================================== *)
(** * Output paths of the compiler adapter *)

Section TmpPaths.

Lemma append_cons (x : ascii) (a b : string) :
  String x a +:+ b = String x (a +:+ b).
Proof. reflexivity. Qed.

Lemma append_assoc (a b c : string) : (a +:+ b) +:+ c = a +:+ (b +:+ c).
Proof.
  induction a as [ | x a IH]; [ reflexivity | ].
  rewrite !append_cons, IH. reflexivity.
Qed.

Lemma append_inv_head (p a b : string) : p +:+ a = p +:+ b -> a = b.
Proof.
  induction p as [ | x p IH]; intros H; [ exact H | ].
  rewrite !append_cons in H. injection H as H. exact (IH H).
Qed.

Lemma append_nil_r (a : string) : a +:+ "" = a.
Proof.
  induction a as [ | x a IH]; [ reflexivity | ].
  rewrite append_cons, IH. reflexivity.
Qed.

Lemma append_length (a b : string) :
  String.length (a +:+ b) = (String.length a + String.length b)%nat.
Proof.
  induction a as [ | x a IH]; [ reflexivity | ].
  rewrite append_cons. cbn [String.length]. rewrite IH. reflexivity.
Qed.

Lemma append_inv_tail (a b q : string) : a +:+ q = b +:+ q -> a = b.
Proof.
  revert b. induction a as [ | x a IH]; intros [ | y b] H.
  - reflexivity.
  - exfalso. apply (f_equal String.length) in H.
    rewrite !append_length in H. cbn [String.length] in H. lia.
  - exfalso. apply (f_equal String.length) in H.
    rewrite !append_length in H. cbn [String.length] in H. lia.
  - rewrite !append_cons in H. injection H as -> H.
    f_equal. exact (IH b H).
Qed.

(** ** Decimal numerals *)

Lemma show_Z_inj (a b : Z) : show_Z a = show_Z b -> a = b.
Proof.
  unfold show_Z. intros H.
  apply (f_equal DecimalString.NilEmpty.int_of_string) in H.
  rewrite !DecimalString.NilEmpty.isi in H.
  injection H as H.
  rewrite <- (DecimalZ.of_to a), <- (DecimalZ.of_to b), H. reflexivity.
Qed.

Lemma no_slash_uint (d : Decimal.uint) :
  no_slash (DecimalString.NilEmpty.string_of_uint d) = true.
Proof. induction d; cbn; auto. Qed.

Lemma no_slash_show_Z (z : Z) : no_slash (show_Z z) = true.
Proof.
  unfold show_Z. destruct (Z.to_int z); cbn; apply no_slash_uint.
Qed.

Lemma no_slash_append (a b : string) :
  no_slash (a +:+ b) = no_slash a && no_slash b.
Proof.
  induction a as [ | x a IH]; [ reflexivity | ].
  rewrite append_cons. cbn [no_slash]. rewrite IH. apply andb_assoc.
Qed.

Lemma tmpStlName_inj (a b : Z) : tmpStlName a = tmpStlName b -> a = b.
Proof.
  unfold tmpStlName. intros H.
  apply append_inv_head, append_inv_tail in H. exact (show_Z_inj a b H).
Qed.

Lemma no_slash_tmpStlName (t : Z) : no_slash (tmpStlName t) = true.
Proof.
  unfold tmpStlName. rewrite !no_slash_append, no_slash_show_Z. reflexivity.
Qed.

(** ** Paths with a slash-free last piece *)

Lemma segments_nonempty (s : string) : segments s <> [].
Proof.
  destruct s as [ | c s]; cbn; [ discriminate | ].
  destruct (Ascii.eqb c slash); [ discriminate | ].
  destruct (segments s); discriminate.
Qed.

Lemma segments_no_slash (s : string) : no_slash s = true -> segments s = [s].
Proof.
  induction s as [ | c s IH]; cbn; [ reflexivity | ].
  intros H. apply andb_true_iff in H as [Hc Hs].
  apply negb_true_iff in Hc. rewrite Hc, (IH Hs). reflexivity.
Qed.

Lemma segments_append_slash (a b : string) :
  segments (a +:+ "/" +:+ b) = segments a ++ segments b.
Proof.
  induction a as [ | c a IH].
  - reflexivity.
  - rewrite append_cons. cbn [segments].
    destruct (Ascii.eqb c slash).
    + rewrite IH. reflexivity.
    + rewrite IH.
      pose proof (segments_nonempty a) as Hne.
      destruct (segments a) as [ | seg more]; [ congruence | reflexivity ].
Qed.

Lemma ends_with_slash_append (a b : string) :
  b <> "" -> ends_with_slash (a +:+ b) = ends_with_slash b.
Proof.
  intros Hb. induction a as [ | c a IH]; [ reflexivity | ].
  rewrite append_cons. cbn [ends_with_slash]. rewrite IH.
  destruct (a +:+ b) eqn:E; [ | reflexivity ].
  destruct a, b; try congruence; rewrite ?append_cons in E; discriminate.
Qed.

Lemma ends_with_slash_no_slash (s : string) :
  no_slash s = true -> ends_with_slash s = false.
Proof.
  induction s as [ | c s IH]; [ reflexivity | ].
  cbn. intros H. apply andb_true_iff in H as [Hc Hs].
  apply negb_true_iff in Hc.
  destruct s; [ exact Hc | exact (IH Hs) ].
Qed.

Lemma plain_tmpStlName (t : Z) : plain_piece (tmpStlName t).
Proof.
  split; [ apply no_slash_tmpStlName | ]. repeat split; reflexivity.
Qed.

Lemma join_slash_snoc (l : list string) (s : string) :
  join_slash (l ++ [s]) = join_prefix l +:+ s.
Proof.
  induction l as [ | x l IH]; [ reflexivity | ].
  destruct l as [ | y l].
  - cbn. rewrite append_assoc. reflexivity.
  - change (join_slash ((x :: y :: l) ++ [s]))
      with (x +:+ "/" +:+ join_slash ((y :: l) ++ [s])).
    rewrite IH. cbn [join_prefix join_slash].
    rewrite !append_assoc. reflexivity.
Qed.

Lemma normalizeString_snoc (p s : string) (above : bool) :
  plain_piece s ->
  normalizeString (p +:+ "/" +:+ s) above
  = join_prefix (rev (fold_left (norm_step above) (segments p) [])) +:+ s.
Proof.
  intros (Hn & H0 & H1 & H2). unfold normalizeString.
  rewrite segments_append_slash, (segments_no_slash s Hn), fold_left_app.
  cbn [fold_left]. unfold norm_step at 1. rewrite H0, H1, H2.
  cbn [orb rev]. apply join_slash_snoc.
Qed.

Lemma plain_not_empty (pre s : string) :
  plain_piece s -> String.eqb (pre +:+ s) "" = false.
Proof.
  intros (_ & H0 & _). destruct pre; [ exact H0 | reflexivity ].
Qed.

Lemma plain_neq_empty (s : string) : plain_piece s -> s <> "".
Proof. intros (_ & H0 & _) ->. discriminate. Qed.

(** [path.join(dir, name)] only puts a prefix, fixed by [dir], in
    front of a plain name. *)
Lemma path_join_plain (dir : string) :
  exists pre, forall name, plain_piece name ->
    path_join dir name = pre +:+ name.
Proof.
  destruct (String.eqb dir "") eqn:Ed.
  - exists "". intros name Hp. unfold path_join. rewrite Ed.
    destruct Hp as (Hn & H0 & H1 & H2). rewrite H0.
    unfold path_normalize. rewrite H0.
    assert (Ha : isAbsolute name = false).
    { destruct name as [ | c name]; [ reflexivity | ].
      cbn in Hn. apply andb_true_iff in Hn as [Hc _].
      apply negb_true_iff in Hc. exact Hc. }
    rewrite Ha. unfold normalizeString.
    rewrite (segments_no_slash name Hn). cbn [fold_left].
    unfold norm_step. rewrite H0, H1, H2. cbn [orb rev app join_slash].
    rewrite H0, (ends_with_slash_no_slash name Hn).
    cbn. apply append_nil_r.
  - set (abs := isAbsolute dir).
    exists ((if abs then "/" else "")
            +:+ join_prefix
                  (rev (fold_left (norm_step (negb abs)) (segments dir) []))).
    intros name Hp. unfold path_join. rewrite Ed.
    destruct Hp as (Hn & H0 & H1 & H2). rewrite H0.
    assert (Hj : String.eqb (dir +:+ "/" +:+ name) "" = false)
      by (destruct dir; [ discriminate | reflexivity ]).
    rewrite Hj. unfold path_normalize. rewrite Hj.
    assert (Ha : isAbsolute (dir +:+ "/" +:+ name) = abs)
      by (destruct dir; [ discriminate | reflexivity ]).
    rewrite Ha.
    rewrite (normalizeString_snoc dir name (negb abs))
      by (repeat split; assumption).
    rewrite plain_not_empty by (repeat split; assumption).
    rewrite (ends_with_slash_append dir ("/" +:+ name)) by discriminate.
    rewrite (ends_with_slash_append "/" name)
      by (intros ->; discriminate).
    rewrite (ends_with_slash_no_slash name Hn).
    rewrite append_nil_r, !append_assoc. reflexivity.
Qed.

Lemma tmpStlPath_inj (fs1 fs2 : gmap string Node) (t1 t2 : Z)
  (cw1 cw2 tmp : string) :
  tmpStlPath (mkEnv fs1 t1 cw1 tmp) = tmpStlPath (mkEnv fs2 t2 cw2 tmp) ->
  t1 = t2.
Proof.
  unfold tmpStlPath. cbn [tmpdir now].
  destruct (path_join_plain tmp) as (pre & Hpre).
  fold (tmpStlName t1) (tmpStlName t2).
  rewrite !Hpre by apply plain_tmpStlName.
  intros H. apply append_inv_head in H. exact (tmpStlName_inj t1 t2 H).
Qed.

End TmpPaths.

(** C7, counterexample.  Two [open] requests for two different .scad
    files are served in the same millisecond.  Both compilations are in
    flight together and both were told to write
    [/tmp/openscad-viewer-1000.stl]. *)
Lemma compileScad_same_millisecond :
  observe (fun sys => (task_output sys 0, task_output sys 1))
    two_compiles (sys_init sample_env)
  = Some (Some "/tmp/openscad-viewer-1000.stl",
          Some "/tmp/openscad-viewer-1000.stl").
Proof. vm_compute. reflexivity. Qed.

(** C7, as amended.  [compileScad] writes to the path
    [<tmpdir>/openscad-viewer-<t>.stl], where [t] is the clock reading in
    milliseconds when it is called: two invocations in one process have
    the same output path if and only if they read the same clock value,
    whatever they compile and whatever the module state is. *)
Theorem compileScad_output_by_clock
  (fs1 fs2 : gmap string Node) (t1 t2 : Z) (cw tmp : string)
  (p1 p2 : string) (k1 k2 : CompileResult -> Piece) (s1 s2 : State) :
  let env1 := mkEnv fs1 t1 cw tmp in
  let env2 := mkEnv fs2 t2 cw tmp in
  exec_output (snd (compileScad p1 k1 env1 s1)) = Some (tmpStlPath env1) /\
  exec_output (snd (compileScad p2 k2 env2 s2)) = Some (tmpStlPath env2) /\
  (tmpStlPath env1 = tmpStlPath env2 <-> t1 = t2).
Proof.
  cbn zeta. split; [ reflexivity | ]. split; [ reflexivity | ]. split.
  - apply tmpStlPath_inj.
  - intros ->. reflexivity.
Qed.

(* ===================================================================== *)
(** * Synchronisation controller *)

Section Broadcast.

Lemma broadcast_fold (m : OutMsg) (l : list Client) : forall p,
  fold_left (fun s c => if is_ready c then ws_send c m s else s) l p
  = mkPeer (wsClients p) (pendingRequests p) (requestIdCounter p)
      (timers p) (nextTimer p) (settled p)
      (sent p ++ map (fun c => (c_id c, m)) (List.filter is_ready l)).
Proof.
  induction l as [ | c l IH]; intros p.
  - cbn. rewrite app_nil_r. destruct p; reflexivity.
  - cbn [fold_left List.filter]. destruct (is_ready c).
    + rewrite IH. unfold ws_send. cbn [wsClients pendingRequests
        requestIdCounter timers nextTimer settled sent map].
      rewrite <- app_assoc. reflexivity.
    + apply IH.
Qed.

(** A broadcast writes the message once to each ready socket and
    changes nothing else. *)
Lemma broadcast_spec (m : OutMsg) (p : PeerState) :
  broadcast m p
  = mkPeer (wsClients p) (pendingRequests p) (requestIdCounter p)
      (timers p) (nextTimer p) (settled p) (sent p ++ deliveries m p).
Proof. apply broadcast_fold. Qed.

Lemma broadcast_clients (m : OutMsg) (p : PeerState) :
  wsClients (broadcast m p) = wsClients p.
Proof. rewrite broadcast_spec. reflexivity. Qed.

End Broadcast.

(** The run of [handleFileChange] on a .scad file whose compilation fails
    with diagnostic [d]. *)
Lemma handleFileChange_failed_run
  (o : Oracle) (env : Env) (s : State) (cf se msg : string) :
  currentFile s = Some cf ->
  toLowerCase (path_extname cf) = ".scad" ->
  o_exec o = ExecFail se msg ->
  diagnostic se msg <> "" ->
  run_piece o env handleFileChange s
  = (broadcastAll (ErrorMsg (diagnostic se msg))
       (log ("Compilation error: " +:+ diagnostic se msg)
          (setupWatcher cf env (log ("File changed: " +:+ cf) s))),
     Fulfilled VUndefined).
Proof.
  intros Hcf Hext Hexec Hdiag.
  unfold run_piece, handleFileChange. rewrite Hcf, Hext, String.eqb_refl.
  unfold compileScad. cbn [run_task]. rewrite Hexec. cbn [compileResult].
  unfold afterCompile. cbn [log currentFile]. rewrite Hcf.
  unfold failed. cbn [error].
  destruct (String.eqb_spec (diagnostic se msg) "") as [E | _];
    [ contradiction | ].
  reflexivity.
Qed.

(** C1.  The active file is a .scad file and the compiler fails with a
    diagnostic.  When [handleFileChange] has run to its end, the active
    model (source path, artifact buffer, bounding box) is what it was, an
    error message carrying the diagnostic was written to every ready
    socket and nothing else was (in particular no model-updated), and the
    watcher was replaced by one on the source file and the dependencies
    it has on disk now. *)
Theorem handleFileChange_failed_compile
  (o : Oracle) (env : Env) (s : State) (cf se msg : string) :
  currentFile s = Some cf ->
  toLowerCase (path_extname cf) = ".scad" ->
  o_exec o = ExecFail se msg ->
  diagnostic se msg <> "" ->
  let r := run_piece o env handleFileChange s in
  snd r = Fulfilled VUndefined /\
  activeModel (fst r) = activeModel s /\
  sent (peer (fst r))
  = sent (peer s) ++ deliveries (ErrorMsg (diagnostic se msg)) (peer s) /\
  (forall c, ~ In (c, ModelUpdated)
               (deliveries (ErrorMsg (diagnostic se msg)) (peer s))) /\
  watcher (fst r) = Some (cf :: parseScadDependencies env cf).
Proof.
  intros Hcf Hext Hexec Hdiag. cbn zeta.
  rewrite (handleFileChange_failed_run o env s cf se msg Hcf Hext Hexec Hdiag).
  cbn [fst snd].
  unfold broadcastAll, setupWatcher, set_peer, set_watcher, log, activeModel.
  cbn [currentFile currentStlBuffer lastBoundingBox peer watcher].
  rewrite Hext, String.eqb_refl, broadcast_spec. cbn [sent].
  repeat split.
  intros c Hin. unfold deliveries in Hin.
  apply in_map_iff in Hin as (x & Hx & _). discriminate.
Qed.

(** Witness for C1: [a.scad] is open, one renderer is connected, and the
    recompilation reports a parser error. *)
Lemma handleFileChange_failed_compile_witness :
  let r := run_piece failing_oracle sample_env handleFileChange opened_state in
  snd r = Fulfilled VUndefined /\
  activeModel (fst r) = activeModel opened_state /\
  sent (peer (fst r))
  = sent (peer opened_state)
    ++ [(1, ErrorMsg "ERROR: Parser error in file a.scad, line 1")] /\
  watcher (fst r) = Some ["/m/a.scad"; "/m/lib.scad"].
Proof.
  destruct (handleFileChange_failed_compile failing_oracle sample_env
              opened_state "/m/a.scad"
              "ERROR: Parser error in file a.scad, line 1"
              "Command failed: openscad -o /tmp/openscad-viewer-1000.stl /m/a.scad")
    as (H1 & H2 & H3 & _ & H5).
  - vm_compute. reflexivity.
  - vm_compute. reflexivity.
  - reflexivity.
  - vm_compute. discriminate.
  - cbn zeta. split; [ exact H1 | ]. split; [ exact H2 | ].
    split; [ rewrite H3; vm_compute; reflexivity | ].
    rewrite H5. vm_compute. reflexivity.
Defined.

Section OpenOutcome.

Lemma stat_of_exists (env : Env) (p : string) :
  existsSync env p = true -> statSync_size env p = Some (size_of env p).
Proof.
  unfold existsSync, size_of, statSync_size.
  destruct (fs env !! p) as [[c | ] | ]; intros H;
    [ reflexivity | reflexivity | discriminate ].
Qed.

Lemma parse_box_of (buf : Buffer) :
  parseStlBoundingBox buf = Some (box_of buf).
Proof.
  unfold box_of. destruct (parseStlBoundingBox_total buf) as (b & ->).
  reflexivity.
Qed.

(** The last pieces of [openFile], once the artifact was read. *)
Lemma openFile_read_run (o : Oracle) (env : Env) (s : State)
  (absPath : string) (p : option string) :
  existsSync env absPath = true ->
  snd (let '(s', t) := openFile_read absPath p env s in run_task o env t s')
  = match o_read o p with
    | ReadErr m => Failed m
    | ReadOk buf =>
        Fulfilled
          (VOpen (mkOpenResult true absPath (size_of env absPath)
                    (box_of buf)))
    end.
Proof.
  intros Hex. unfold openFile_read. cbn [run_task].
  unfold openFile_afterRead.
  destruct (o_read o p) as [buf | m]; [ | reflexivity ].
  unfold openFile_install.
  rewrite (parse_box_of buf), (stat_of_exists env absPath Hex).
  reflexivity.
Qed.

End OpenOutcome.



(** C10.  When one of the four documented failure conditions holds,
    [openFile] throws and leaves the whole module state as it was: the
    active model, the artifact path, the watcher, the timers, the peer
    channel with the log of everything sent, and the log. *)
Theorem openFile_failure_atomic (o : Oracle) (env : Env) (s : State)
  (filePath : string) :
  open_refused o env filePath ->
  exists m, run_piece o env (openFile filePath) s = (s, Failed m).
Proof.
  unfold open_refused, run_piece, openFile.
  set (absPath := path_resolve (cwd env) [filePath]).
  set (ext := toLowerCase (path_extname absPath)).
  intros H.
  destruct (existsSync env absPath) eqn:Hex; [ | eexists; reflexivity ].
  cbn [negb].
  destruct (String.eqb_spec ext ".scad") as [Hscad | Hscad].
  - cbn [negb andb run_task].
    destruct (o_check o) eqn:Hc; [ | eexists; reflexivity ].
    cbn [negb]. unfold compileScad. cbn [run_task].
    destruct H as [H | [[H _] | [[_ H] | [_ (diag & H)]]]];
      try congruence.
    rewrite H. eexists; reflexivity.
  - cbn [negb andb].
    destruct (String.eqb_spec ext ".stl") as [Hstl | Hstl];
      [ | eexists; reflexivity ].
    destruct H as [H | [[_ H] | [[H _] | [H _]]]]; congruence.
Qed.

(** Witness for C10: a model is open and a renderer connected when a
    request comes for a .scad file that does not compile. *)
Lemma openFile_failure_atomic_witness :
  exists m,
    run_piece failing_oracle sample_env (openFile "c.scad") opened_state
    = (opened_state, Failed m).
Proof.
  apply (openFile_failure_atomic failing_oracle sample_env opened_state
           "c.scad").
  right. right. right. split; [ vm_compute; reflexivity | ].
  eexists. vm_compute. reflexivity.
Defined.

(* ===================================================================== *)
(** * Watch coordinator: the debounce *)

Section Debounce.

(** A change leaves exactly one timer pending, due 300 ms later. *)
Lemma onWatchChange_pending (env : Env) (s : State) :
  pending_is_current s ->
  dtimers (onWatchChange env s) = {[nextDTimer s := now env + 300]}.
Proof.
  intros Inv. unfold onWatchChange. cbn [dtimers].
  rewrite <- insert_empty. f_equal.
  apply map_eq. intros k. rewrite lookup_empty.
  destruct (debounceTimer s) as [t | ] eqn:D.
  - destruct (decide (t = k)) as [<- | Hne].
    + apply lookup_delete_eq.
    + rewrite lookup_delete_ne by exact Hne.
      destruct (dtimers s !! k) as [due | ] eqn:E; [ | reflexivity ].
      pose proof (Inv k due E). congruence.
  - destruct (dtimers s !! k) as [due | ] eqn:E; [ | reflexivity ].
    pose proof (Inv k due E). congruence.
Qed.

Lemma onWatchChange_current (env : Env) (s : State) :
  pending_is_current s -> pending_is_current (onWatchChange env s).
Proof.
  intros Inv t due H. rewrite (onWatchChange_pending env s Inv) in H.
  apply lookup_singleton_Some in H as [<- _]. reflexivity.
Qed.

Lemma clock_step (sys : System) (t : Z) :
  now (env sys) <= t ->
  (forall k due, dtimers (st sys) !! k = Some due -> t <= due) ->
  sys_step (SysClock t) sys
  = Some (with_env (mkEnv (fs (env sys)) t (cwd (env sys))
                      (tmpdir (env sys))) sys).
Proof.
  intros Hnow Hdue. cbn [sys_step].
  destruct (Z.leb_spec (now (env sys)) t); [ | lia ]. cbn [andb].
  assert (F : forallb (fun p => t <=? snd p)
                (map_to_list (dtimers (st sys))) = true).
  { apply forallb_forall. intros [k due] Hin.
    apply list_elem_of_In, elem_of_map_to_list in Hin.
    cbn [snd]. apply Z.leb_le. exact (Hdue k due Hin). }
  rewrite F. reflexivity.
Qed.

Lemma change_step (sys : System) (p : string) (files : list string) :
  watcher (st sys) = Some files -> In p files ->
  sys_step (SysWatchChange p) sys
  = Some (with_st (onWatchChange (env sys) (st sys)) sys).
Proof.
  intros Hw Hin. cbn [sys_step]. rewrite Hw.
  assert (E : existsb (String.eqb p) files = true).
  { apply existsb_exists. exists p. split; [ exact Hin | ].
    apply String.eqb_refl. }
  rewrite E. reflexivity.
Qed.

Lemma last_cons (d x : Z) (l : list Z) :
  List.last (x :: l) d = List.last l x.
Proof.
  revert d x. induction l as [ | y l IH]; intros d x; [ reflexivity | ].
  change (List.last (x :: y :: l) d) with (List.last (y :: l) d).
  rewrite (IH d y), (IH x y). reflexivity.
Qed.

Lemma not_due_cannot_fire (sys : System) :
  (forall k due, dtimers (st sys) !! k = Some due -> now (env sys) < due) ->
  no_timer_can_fire sys.
Proof.
  intros H t. cbn [sys_step].
  destruct (dtimers (st sys) !! t) as [due | ] eqn:E; [ | reflexivity ].
  pose proof (H t due E).
  destruct (Z.leb_spec due (now (env sys))); [ lia | reflexivity ].
Qed.

(** A burst of changes, each inside the window opened by the one
    before, can happen, no timer can fire at any point of it, and it
    ends with one timer pending, due 300 ms after the last change. *)
Lemma burst_run (p : string) (files : list string) (ts : list Z) :
  forall (t0 : Z) (sys : System),
    watcher (st sys) = Some files -> In p files ->
    pending_is_current (st sys) ->
    now (env sys) <= t0 ->
    (forall k due, dtimers (st sys) !! k = Some due -> t0 < due) ->
    in_window t0 ts ->
    (exists sys1 id,
      sys_run (burst p (t0 :: ts)) sys = Some sys1 /\
      dtimers (st sys1) = {[id := List.last ts t0 + 300]} /\
      now (env sys1) = List.last ts t0 /\
      stderr (st sys1) = stderr (st sys)) /\
    (forall n sysn,
       sys_run (firstn n (burst p (t0 :: ts))) sys = Some sysn ->
       no_timer_can_fire sysn).
Proof.
  induction ts as [ | t1 ts IH]; intros t0 sys Hw Hin Inv Hnow Hdue Hwin.
  - assert (Hdue' : forall k due,
              dtimers (st sys) !! k = Some due -> t0 <= due)
      by (intros k due Hk; pose proof (Hdue k due Hk); lia).
    split.
    + eexists _, _. cbn [burst flat_map app sys_run].
      rewrite (clock_step sys t0 Hnow Hdue').
      rewrite (change_step _ p files) by assumption.
      split; [ reflexivity | ].
      cbn [st with_st with_env env].
      rewrite (onWatchChange_pending _ _ Inv).
      repeat split.
    + intros n sysn Hn. apply not_due_cannot_fire.
      destruct n as [ | [ | n]]; cbn [burst flat_map app firstn sys_run] in Hn.
      * injection Hn as <-. intros k due Hk.
        pose proof (Hdue k due Hk). lia.
      * rewrite (clock_step sys t0 Hnow Hdue') in Hn. injection Hn as <-.
        exact Hdue.
      * rewrite (clock_step sys t0 Hnow Hdue') in Hn.
        rewrite (change_step _ p files) in Hn by assumption.
        rewrite firstn_nil in Hn. cbn [sys_run] in Hn. injection Hn as <-.
        intros k due Hk. cbn [st with_st with_env env] in Hk.
        rewrite (onWatchChange_pending _ _ Inv) in Hk.
        apply lookup_singleton_Some in Hk as [_ <-]. cbn. lia.
  - destruct Hwin as [[H01 H10] Hwin].
    assert (Hdue' : forall k due,
              dtimers (st sys) !! k = Some due -> t0 <= due)
      by (intros k due Hk; pose proof (Hdue k due Hk); lia).
    set (sys' := with_st
                   (onWatchChange
                      (mkEnv (fs (env sys)) t0 (cwd (env sys))
                         (tmpdir (env sys))) (st sys))
                   (with_env (mkEnv (fs (env sys)) t0 (cwd (env sys))
                                (tmpdir (env sys))) sys)).
    destruct (IH t1 sys') as [(sys1 & id & Hrun & Hd & Hn & He) Hall].
    + exact Hw.
    + exact Hin.
    + apply onWatchChange_current. exact Inv.
    + cbn. exact H01.
    + intros k due Hk. subst sys'. cbn [st with_st] in Hk.
      rewrite (onWatchChange_pending _ _ Inv) in Hk.
      apply lookup_singleton_Some in Hk as [_ <-]. cbn [now]. lia.
    + exact Hwin.
    + change (burst p (t0 :: t1 :: ts))
        with (SysClock t0 :: SysWatchChange p :: burst p (t1 :: ts)).
      split.
      * exists sys1, id. cbn [sys_run].
        rewrite (clock_step sys t0 Hnow Hdue').
        rewrite (change_step _ p files) by assumption.
        fold sys'. split; [ exact Hrun | ].
        rewrite (last_cons t0 t1 ts).
        repeat split; assumption.
      * intros n sysn Hrn.
        destruct n as [ | [ | n]]; cbn [firstn sys_run] in Hrn.
        -- injection Hrn as <-. apply not_due_cannot_fire.
           intros k due Hk. pose proof (Hdue k due Hk). lia.
        -- rewrite (clock_step sys t0 Hnow Hdue') in Hrn.
           injection Hrn as <-. apply not_due_cannot_fire. exact Hdue.
        -- rewrite (clock_step sys t0 Hnow Hdue') in Hrn.
           rewrite (change_step _ p files) in Hrn by assumption.
           fold sys' in Hrn. exact (Hall n sysn Hrn).
Qed.

Lemma change_line (x : string) :
  is_change_line
    ("[openscad-viewer] " +:+ ("File changed: " +:+ x) +:+ newline) = true.
Proof. reflexivity. Qed.

Lemma catch_line (m : string) :
  is_change_line
    ("[openscad-viewer] " +:+ ("Watch handler error: " +:+ m) +:+ newline)
  = false.
Proof. reflexivity. Qed.

Lemma resyncs_log_change (x : string) (s : State) :
  resyncs (log ("File changed: " +:+ x) s) = S (resyncs s).
Proof.
  unfold resyncs, log. cbn [stderr].
  rewrite List.filter_app, length_app. cbn [List.filter].
  rewrite change_line. cbn [length]. lia.
Qed.

Lemma resyncs_log_catch (m : string) (s : State) :
  resyncs (log ("Watch handler error: " +:+ m) s) = resyncs s.
Proof.
  unfold resyncs, log. cbn [stderr].
  rewrite List.filter_app, length_app. cbn [List.filter].
  rewrite catch_line. cbn [length]. lia.
Qed.

(** Entering [handleFileChange] writes one "File changed" line, and
    the [.catch] of the timer callback writes none. *)
Lemma start_handler_resyncs (sys : System) :
  resyncs (st (start ChangeTask handleFileChange sys))
  = S (resyncs (st sys)) /\
  dtimers (st (start ChangeTask handleFileChange sys)) = dtimers (st sys).
Proof.
  unfold start, handleFileChange.
  destruct (currentFile (st sys)) as [cf | ] eqn:Hcf.
  - destruct (String.eqb (toLowerCase (path_extname cf)) ".scad").
    + unfold compileScad, park. cbn [snd fst st].
      split; [ apply resyncs_log_change | reflexivity ].
    + unfold park. cbn [snd fst st].
      split; [ apply resyncs_log_change | reflexivity ].
  - unfold park. cbn [snd fst st].
    split; [ | reflexivity ].
    rewrite resyncs_log_catch.
    exact (resyncs_log_change "null" (st sys)).
Qed.

End Debounce.

(** C8.  A watched file changes at the times [t0 :: ts], each change
    less than 300 ms after the one before, starting from a state with no
    timer pending.  The whole burst can happen, and at no point of it
    can a timer fire: every change clears the timer of the one before
    and starts a timer of 300 ms.  When the burst is over exactly one
    timer is pending, due 300 ms after the last change, and
    [handleFileChange] has not been entered.  When the timer is due it
    fires, [handleFileChange] is entered once, and no timer is left that
    could enter it again. *)
Theorem debounce_burst_one_resync (sys : System) (p : string)
  (files : list string) (t0 : Z) (ts : list Z) :
  watcher (st sys) = Some files -> In p files ->
  dtimers (st sys) = ∅ ->
  now (env sys) <= t0 ->
  in_window t0 ts ->
  let due := List.last ts t0 + 300 in
  exists sys1 id sys2,
    sys_run (burst p (t0 :: ts)) sys = Some sys1 /\
    (forall n sysn,
       sys_run (firstn n (burst p (t0 :: ts))) sys = Some sysn ->
       no_timer_can_fire sysn) /\
    dtimers (st sys1) = {[id := due]} /\
    resyncs (st sys1) = resyncs (st sys) /\
    sys_run [SysClock due; SysTimer id] sys1 = Some sys2 /\
    resyncs (st sys2) = S (resyncs (st sys)) /\
    dtimers (st sys2) = ∅ /\
    no_timer_can_fire sys2.
Proof.
  intros Hw Hin Hquiet Hnow Hwin due.
  destruct (burst_run p files ts t0 sys Hw Hin) as
    [(sys1 & id & Hrun & Hd & Hn & He) Hall]; try assumption.
  { intros t d H. rewrite Hquiet, lookup_empty in H. discriminate. }
  { intros k d H. rewrite Hquiet, lookup_empty in H. discriminate. }
  fold due in Hd.
  set (sysd := with_env (mkEnv (fs (env sys1)) due (cwd (env sys1))
                           (tmpdir (env sys1))) sys1).
  set (sys2 := start ChangeTask handleFileChange
                 (with_st (timerFired id (st sysd)) sysd)).
  exists sys1, id, sys2.
  split; [ exact Hrun | ]. split; [ exact Hall | ].
  split; [ exact Hd | ].
  split; [ unfold resyncs; rewrite He; reflexivity | ].
  assert (Hfire : sys_run [SysClock due; SysTimer id] sys1 = Some sys2).
  { cbn [sys_run]. rewrite (clock_step sys1 due).
    - fold sysd. cbn [sys_step].
      replace (dtimers (st sysd) !! id) with (Some due)
        by (subst sysd; cbn [st with_env]; rewrite Hd;
            symmetry; apply lookup_singleton_eq).
      replace (now (env sysd)) with due by reflexivity.
      rewrite Z.leb_refl. reflexivity.
    - unfold due. lia.
    - intros k d H. rewrite Hd in H.
      apply lookup_singleton_Some in H as [_ <-]. lia. }
  split; [ exact Hfire | ].
  destruct (start_handler_resyncs (with_st (timerFired id (st sysd)) sysd))
    as [Hr Ht].
  fold sys2 in Hr, Ht.
  assert (Hempty : dtimers (st sys2) = ∅).
  { rewrite Ht. subst sysd. cbn [st with_st with_env timerFired dtimers].
    rewrite Hd. apply delete_singleton_eq. }
  split.
  { rewrite Hr. f_equal.
    transitivity (resyncs (st sys1)); [ reflexivity | ].
    unfold resyncs. rewrite He. reflexivity. }
  split; [ exact Hempty | ].
  intros t. cbn [sys_step]. rewrite Hempty, lookup_empty. reflexivity.
Qed.

(** Witness for C8: with [a.scad] open, its dependency [lib.scad] is
    saved three times within 250 ms. *)
Lemma debounce_burst_one_resync_witness :
  exists sys1 id sys2,
    sys_run (burst "/m/lib.scad" [2000; 2100; 2250]) opened_system
    = Some sys1 /\
    (forall n sysn,
       sys_run (firstn n (burst "/m/lib.scad" [2000; 2100; 2250]))
         opened_system = Some sysn ->
       no_timer_can_fire sysn) /\
    dtimers (st sys1) = {[id := 2550]} /\
    resyncs (st sys1) = resyncs (st opened_system) /\
    sys_run [SysClock 2550; SysTimer id] sys1 = Some sys2 /\
    resyncs (st sys2) = S (resyncs (st opened_system)) /\
    dtimers (st sys2) = ∅ /\
    no_timer_can_fire sys2.
Proof.
  apply (debounce_burst_one_resync opened_system "/m/lib.scad"
           ["/m/a.scad"; "/m/lib.scad"] 2000 [2100; 2250]).
  - vm_compute. reflexivity.
  - right. left. reflexivity.
  - vm_compute. reflexivity.
  - vm_compute. discriminate.
  - cbn. lia.
Defined.

(* ===================================================================== *)
(** * [Open] against a recompilation in flight *)


Section StaleResync.

Lemma park_await_read (tid : nat) (kind : TaskKind) (s : State)
  (p : option string) (k : ReadResult -> Piece) (sys : System) :
  park tid kind (s, AwaitRead p k) sys
  = mkSystem s (env sys) (<[tid := (kind, AwaitRead p k)]> (tasks sys))
      (nextTask sys) (finished sys).
Proof. reflexivity. Qed.

Lemma park_return (tid : nat) (kind : TaskKind) (s : State) (v : Value)
  (sys : System) :
  park tid kind (s, Return v) sys
  = mkSystem s (env sys) (delete tid (tasks sys)) (nextTask sys)
      (finished sys ++ [(tid, kind, Fulfilled v)]).
Proof. reflexivity. Qed.

(** [openFile] on a .stl file that exists goes straight to the read. *)
Lemma openFile_stl (filePath : string) (env : Env) (s : State) :
  existsSync env (path_resolve (cwd env) [filePath]) = true ->
  toLowerCase (path_extname (path_resolve (cwd env) [filePath])) = ".stl" ->
  openFile filePath env s
  = (set_currentStlPath (Some (path_resolve (cwd env) [filePath])) s,
     AwaitRead (Some (path_resolve (cwd env) [filePath]))
       (openFile_afterRead (path_resolve (cwd env) [filePath]))).
Proof.
  intros Hex Hstl. unfold openFile. rewrite Hex, Hstl. reflexivity.
Qed.

(** The state [openFile] leaves when it succeeds. *)
Lemma openFile_install_ok (absPath : string) (buf : Buffer) (env : Env)
  (s : State) :
  existsSync env absPath = true ->
  openFile_install absPath buf env s
  = (broadcastAll (FileInfo (path_basename absPath))
       (broadcastAll ModelUpdated
          (setupWatcher absPath env
             (set_lastBoundingBox (Some (box_of buf))
                (set_currentFile (Some absPath) s)))),
     Return (VOpen (mkOpenResult true absPath (size_of env absPath)
                      (box_of buf)))).
Proof.
  intros Hex. unfold openFile_install.
  rewrite (parse_box_of buf), (stat_of_exists env absPath Hex). reflexivity.
Qed.

(** The handler after a successful compilation, and after the read. *)
Lemma afterCompile_ok (tmp cf : string) (env : Env) (s : State) :
  currentFile s = Some cf ->
  afterCompile (compileResult tmp ExecOk) env s
  = (set_currentStlPath (Some tmp) (setupWatcher cf env s),
     AwaitRead (Some tmp) reload).
Proof. intros Hcf. unfold afterCompile. rewrite Hcf. reflexivity. Qed.

Lemma reload_ok (buf : Buffer) (env : Env) (s : State) :
  reload (ReadOk buf) env s
  = (broadcastAll ModelUpdated
       (set_lastBoundingBox (Some (box_of buf))
          (set_currentStlBuffer (Some buf) s)),
     Return VUndefined).
Proof. unfold reload. rewrite (parse_box_of buf). reflexivity. Qed.

(** A handler whose compilation succeeds commits its output, whatever
    the module state holds by then. *)
Lemma stale_commit (sysO : System) (tid : nat) (tmp scad cf : string)
  (buf : Buffer) :
  tasks sysO !! tid
  = Some (ChangeTask,
          AwaitExec tmp scad (fun r => afterCompile (compileResult tmp r))) ->
  currentFile (st sysO) = Some cf ->
  exists sysEnd,
    sys_run [SysExec tid ExecOk; SysRead tid (ReadOk buf)] sysO
    = Some sysEnd /\
    activeModel (st sysEnd) = (Some cf, Some buf, Some (box_of buf)) /\
    currentStlPath (st sysEnd) = Some tmp.
Proof.
  intros Ht Hcf.
  eexists. cbn [sys_run sys_step]. rewrite Ht.
  rewrite (afterCompile_ok tmp cf (env sysO) (st sysO) Hcf).
  rewrite park_await_read. cbn [tasks env st nextTask finished].
  rewrite lookup_insert_eq, reload_ok, park_return.
  split; [ reflexivity | ].
  cbn [st]. split; [ | reflexivity ].
  unfold activeModel, broadcastAll, setupWatcher.
  cbn [currentFile currentStlBuffer lastBoundingBox currentStlPath
       set_peer set_lastBoundingBox set_currentStlBuffer set_currentStlPath
       set_watcher].
  rewrite Hcf. reflexivity.
Qed.

Variables (sys : System) (tid : nat) (tmp : string).
Variables (filePath : string) (bufOpen bufStale : Buffer).

Let absPath := path_resolve (cwd (env sys)) [filePath].

Hypothesis Hwaiting : recompiling sys tid tmp.
Hypothesis Hfresh : tid <> nextTask sys.
Hypothesis Hexists : existsSync (env sys) absPath = true.
Hypothesis Hstl : toLowerCase (path_extname absPath) = ".stl".

(** The system the newer [Open] leaves. *)
Let sysOpen : System :=
  mkSystem
    (fst (openFile_install absPath bufOpen (env sys)
            (set_currentStlBuffer (Some bufOpen)
               (set_currentStlPath (Some absPath) (st sys)))))
    (env sys)
    (delete (nextTask sys)
       (<[nextTask sys :=
            (OpenTask,
             AwaitRead (Some absPath) (openFile_afterRead absPath))]>
          (tasks sys)))
    (S (nextTask sys))
    (finished sys
     ++ [(nextTask sys, OpenTask,
          Fulfilled
            (VOpen (mkOpenResult true absPath (size_of (env sys) absPath)
                      (box_of bufOpen))))]).

Lemma open_runs :
  sys_run [SysOpen filePath; SysRead (nextTask sys) (ReadOk bufOpen)] sys
  = Some sysOpen.
Proof.
  cbn [sys_run].
  change (sys_step (SysOpen filePath) sys)
    with (Some (start OpenTask (openFile filePath) sys)).
  unfold start. rewrite (openFile_stl filePath (env sys) (st sys) Hexists Hstl).
  fold absPath. rewrite park_await_read.
  cbn [sys_step tasks env st nextTask finished].
  rewrite lookup_insert_eq. unfold openFile_afterRead.
  subst sysOpen.
  rewrite (openFile_install_ok absPath bufOpen (env sys) _ Hexists).
  rewrite park_return. reflexivity.
Qed.

Lemma opened_model :
  activeModel (st sysOpen)
  = (Some absPath, Some bufOpen, Some (box_of bufOpen)).
Proof.
  subst sysOpen. cbn [st].
  rewrite (openFile_install_ok absPath bufOpen (env sys) _ Hexists).
  reflexivity.
Qed.

Lemma stale_runs :
  exists sysEnd,
    sys_run [SysExec tid ExecOk; SysRead tid (ReadOk bufStale)] sysOpen
    = Some sysEnd /\
    activeModel (st sysEnd)
    = (Some absPath, Some bufStale, Some (box_of bufStale)) /\
    currentStlPath (st sysEnd) = Some tmp.
Proof.
  destruct Hwaiting as (scad & Hk).
  pose proof opened_model as Hm. unfold activeModel in Hm.
  injection Hm as Hcf _ _.
  apply (stale_commit sysOpen tid tmp scad absPath bufStale); [ | exact Hcf ].
  subst sysOpen. cbn [tasks].
  rewrite lookup_delete_ne, lookup_insert_ne by congruence. exact Hk.
Qed.

End StaleResync.



(* ===================================================================== *)
(** * More about the mesh decoder *)

Section TextScan.

Lemma match_here_no_keyword (l : list Z) :
  literal kw_vertex l = None -> match_here l = None.
Proof. intros H. unfold match_here. rewrite H. reflexivity. Qed.

Lemma asciiScan_no_vertex (text : list Z) : forall skip b,
  mentions_vertex text = false -> asciiScan skip text b = b.
Proof.
  induction text as [ | c rest IH]; intros skip b H; [ reflexivity | ].
  cbn [mentions_vertex] in H.
  destruct (literal kw_vertex (c :: rest)) eqn:L; [ discriminate | ].
  cbn [asciiScan]. destruct skip as [ | k].
  - rewrite (match_here_no_keyword _ L). apply IH, H.
  - apply IH, H.
Qed.

Lemma Math_max_NaN_l b : Math_max NaN b = NaN.
Proof. reflexivity. Qed.

Lemma Math_max_NaN_r a : Math_max a NaN = NaN.
Proof.
  unfold Math_max, max_step. cbn [isNaN NaN nInf].
  destruct (isNaN _); reflexivity.
Qed.

Lemma fold_max_from_NaN (l : list number) : fold_left Math_max l NaN = NaN.
Proof. induction l as [ | x l IH]; simpl; [ reflexivity | exact IH ]. Qed.

Lemma fold_max_NaN (l : list number) : forall a,
  In NaN l -> fold_left Math_max l a = NaN.
Proof.
  induction l as [ | x l IH]; intros a []; simpl.
  - subst x. rewrite Math_max_NaN_r. apply fold_max_from_NaN.
  - apply IH. assumption.
Qed.

Lemma foldVertex_NaN (b : BBox) (x y z : number) (a : nat) :
  axis a (bmin b) = NaN -> axis a (bmax b) = NaN ->
  axis a (bmin (foldVertex b x y z)) = NaN /\
  axis a (bmax (foldVertex b x y z)) = NaN.
Proof.
  intros Hmin Hmax. unfold foldVertex.
  destruct a as [ | [ | a]]; cbn [axis bmin bmax vx vy vz] in *;
    rewrite Hmin, Hmax; split; reflexivity.
Qed.

(** The text scan never repairs an axis that is NaN. *)
Lemma asciiScan_NaN (a : nat) (text : list Z) : forall skip b,
  axis a (bmin b) = NaN -> axis a (bmax b) = NaN ->
  axis a (bmin (asciiScan skip text b)) = NaN /\
  axis a (bmax (asciiScan skip text b)) = NaN.
Proof.
  induction text as [ | c rest IH]; intros skip b Hmin Hmax.
  - split; assumption.
  - cbn [asciiScan]. destruct skip as [ | k]; [ | apply IH; assumption ].
    destruct (match_here (c :: rest)) as [[[[g1 g2] g3] len] | ];
      [ | apply IH; assumption ].
    destruct (foldVertex_NaN b (parseFloat g1) (parseFloat g2) (parseFloat g3)
                a Hmin Hmax) as [H1 H2].
    apply IH; assumption.
Qed.

End TextScan.

Section BufferLayout.

Lemma slice_app_le (buf extra : list byte) (off len : nat) :
  (off + len <= length buf)%nat ->
  slice off len (buf ++ extra) = slice off len buf.
Proof.
  intros H. unfold slice.
  rewrite drop_app_le by lia.
  apply take_app_le. rewrite length_drop. lia.
Qed.

Lemma coords_from_ext (buf buf' : Buffer) (i todo a : nat) :
  (forall j, (i <= j < i + todo)%nat -> stl_record buf j = stl_record buf' j) ->
  coords_from buf i todo a = coords_from buf' i todo a.
Proof.
  intros H. unfold coords_from.
  rewrite !flat_map_concat_map. f_equal.
  apply map_ext_in. intros j Hj. apply in_seq in Hj.
  rewrite (H j) by lia. reflexivity.
Qed.

Lemma well_formed_app (buf extra : Buffer) (n : Z) :
  well_formed_A buf n -> well_formed_A (buf ++ extra) n.
Proof.
  intros (H84 & Hn & H1 & Hlen). unfold well_formed_A, buf_length in *.
  rewrite length_app. repeat split; try lia.
  unfold declared_count in *. rewrite slice_app_le by lia. exact Hn.
Qed.

Lemma mesh_coords_app (buf extra : Buffer) (n : Z) (a : nat) :
  well_formed_A buf n ->
  mesh_coords (buf ++ extra) (Z.to_nat n) a = mesh_coords buf (Z.to_nat n) a.
Proof.
  intros (H84 & Hn & H1 & Hlen). unfold buf_length in *.
  unfold mesh_coords. apply coords_from_ext. intros j Hj.
  unfold stl_record. apply slice_app_le. lia.
Qed.

(** A box is its six coordinates. *)
Lemma box_ext (b b' : BBox) :
  (forall a, (a < 3)%nat ->
     axis a (bmin b) = axis a (bmin b') /\
     axis a (bmax b) = axis a (bmax b')) ->
  b = b'.
Proof.
  intros H.
  destruct (H 0%nat ltac:(lia)) as [X0 Y0].
  destruct (H 1%nat ltac:(lia)) as [X1 Y1].
  destruct (H 2%nat ltac:(lia)) as [X2 Y2].
  destruct b as [[x0 x1 x2] [y0 y1 y2]], b' as [[x0' x1' x2'] [y0' y1' y2']].
  cbn in *. congruence.
Qed.

(** The result on a well-formed mesh whose x coordinates are not all
    +Infinity, as folds over the stored coordinates. *)
Lemma parse_well_formed (buf : Buffer) (n : Z) :
  well_formed_A buf n ->
  (exists c, In c (mesh_coords buf (Z.to_nat n) 0) /\ c <> pInf) ->
  exists b,
    parseStlBoundingBox buf = Some b /\
    forall a, (a < 3)%nat ->
      axis a (bmin b)
      = fold_left Math_min (mesh_coords buf (Z.to_nat n) a) pInf /\
      axis a (bmax b)
      = fold_left Math_max (mesh_coords buf (Z.to_nat n) a) nInf.
Proof.
  intros WF (c & Hc & Hne).
  destruct (binaryPhase_well_formed buf n WF) as (b & _ & E & F).
  exists b. split; [ | exact F ].
  unfold parseStlBoundingBox. rewrite E.
  destruct (strict_eq (vx (bmin b)) pInf) eqn:S; [ exfalso | reflexivity ].
  apply strict_eq_pInf in S.
  destruct (F 0%nat ltac:(lia)) as [Fx _]. cbn [axis] in Fx.
  rewrite S in Fx. symmetry in Fx.
  exact (Hne (fold_min_pInf _ Fx c Hc)).
Qed.

End BufferLayout.

(** Without a complete binary mesh the binary block does nothing. *)
Lemma binaryPhase_incomplete (buf : Buffer) (b0 : BBox) :
  incomplete_binary buf -> binaryPhase buf b0 = Some (false, b0).
Proof.
  intros H. unfold binaryPhase, buf_length.
  unfold incomplete_binary, buf_length in H.
  destruct (Z.leb_spec 84 (Z.of_nat (length buf))) as [H84 | ];
    [ | reflexivity ].
  change 80 with (Z.of_nat 80). rewrite readUInt32LE_slice by lia.
  cbn [mbind option_bind]. fold (declared_count buf).
  destruct (Z.ltb_spec 0 (declared_count buf)) as [Hn | ]; [ | reflexivity ].
  destruct (Z.leb_spec (84 + declared_count buf * 50)
              (Z.of_nat (length buf))) as [Hlen | ]; [ | reflexivity ].
  lia.
Qed.








(** X5.  Bytes after the last record the count announces are ignored:
    the size test is [buffer.length >= expectedSize], not an equality.
    On a well-formed binary mesh whose x coordinates are not all
    +Infinity, appending any bytes leaves the result the same. *)
Theorem parseStlBoundingBox_trailing_bytes (buf extra : Buffer) (n : Z) :
  well_formed_A buf n ->
  (exists c, In c (mesh_coords buf (Z.to_nat n) 0) /\ c <> pInf) ->
  parseStlBoundingBox (buf ++ extra) = parseStlBoundingBox buf.
Proof.
  intros WF Hx.
  destruct (parse_well_formed buf n WF Hx) as (b & E & F).
  destruct (parse_well_formed (buf ++ extra) n) as (b' & E' & F').
  - apply well_formed_app, WF.
  - rewrite (mesh_coords_app buf extra n 0 WF). exact Hx.
  - rewrite E, E'. f_equal. apply box_ext. intros a Ha.
    destruct (F a Ha) as [-> ->], (F' a Ha) as [-> ->].
    rewrite (mesh_coords_app buf extra n a WF). split; reflexivity.
Qed.

(** Witness for X5: text appended to the one-triangle mesh; the text scan
    would find a vertex in it. *)
Lemma parseStlBoundingBox_trailing_bytes_witness :
  parseStlBoundingBox (plain_mesh ++ bytes_of "vertex 9 9 9")
  = parseStlBoundingBox plain_mesh.
Proof.
  apply (parseStlBoundingBox_trailing_bytes plain_mesh
           (bytes_of "vertex 9 9 9") 1).
  - unfold well_formed_A. vm_compute. repeat split; discriminate.
  - exists pzero. split; [ vm_compute; auto | discriminate ].
Defined.

(** X6.  Of a well-formed binary mesh only the count and the vertex
    coordinates are looked at.  Two well-formed meshes of [n] triangles
    that store the same coordinates give the same box, whatever their
    headers, normals and attribute bytes (x coordinates not all
    +Infinity). *)
Theorem parseStlBoundingBox_vertices_only (buf buf' : Buffer) (n : Z) :
  well_formed_A buf n -> well_formed_A buf' n ->
  (forall a, (a < 3)%nat ->
     mesh_coords buf (Z.to_nat n) a = mesh_coords buf' (Z.to_nat n) a) ->
  (exists c, In c (mesh_coords buf (Z.to_nat n) 0) /\ c <> pInf) ->
  parseStlBoundingBox buf = parseStlBoundingBox buf'.
Proof.
  intros WF WF' Hsame Hx.
  destruct (parse_well_formed buf n WF Hx) as (b & E & F).
  destruct (parse_well_formed buf' n WF') as (b' & E' & F').
  - rewrite <- (Hsame 0%nat) by lia. exact Hx.
  - rewrite E, E'. f_equal. apply box_ext. intros a Ha.
    destruct (F a Ha) as [-> ->], (F' a Ha) as [-> ->].
    rewrite (Hsame a Ha). split; reflexivity.
Qed.

(** Witness for X6: the same triangle under a header that holds text,
    with a normal and an attribute word that are not zero. *)
Lemma parseStlBoundingBox_vertices_only_witness :
  parseStlBoundingBox plain_mesh = parseStlBoundingBox annotated_mesh.
Proof.
  apply (parseStlBoundingBox_vertices_only plain_mesh annotated_mesh 1).
  - unfold well_formed_A. vm_compute. repeat split; discriminate.
  - unfold well_formed_A. vm_compute. repeat split; discriminate.
  - intros a Ha. destruct a as [ | [ | [ | a]]];
      [ vm_compute; reflexivity .. | lia ].
  - exists pzero. split; [ vm_compute; auto | discriminate ].
Defined.

(** X7.  A NaN coordinate poisons its axis.  On a well-formed binary
    mesh, if some stored coordinate on an axis is NaN, the minimum and
    the maximum returned for that axis are both NaN, also when the
    function goes on to the text scan. *)
Theorem parseStlBoundingBox_nan_poisons_axis (buf : Buffer) (n : Z) (a : nat) :
  well_formed_A buf n -> (a < 3)%nat ->
  In NaN (mesh_coords buf (Z.to_nat n) a) ->
  exists b, parseStlBoundingBox buf = Some b /\
            axis a (bmin b) = NaN /\ axis a (bmax b) = NaN.
Proof.
  intros WF Ha Hnan.
  destruct (binaryPhase_well_formed buf n WF) as (b & _ & E & F).
  destruct (F a Ha) as [Fmin Fmax].
  rewrite (fold_min_NaN _ pInf Hnan) in Fmin.
  rewrite (fold_max_NaN _ nInf Hnan) in Fmax.
  unfold parseStlBoundingBox. rewrite E.
  destruct (negb (strict_eq (vx (bmin b)) pInf)).
  - exists b. repeat split; assumption.
  - eexists. split; [ reflexivity | ].
    apply asciiScan_NaN; assumption.
Qed.

(** Witness for X7: the mesh whose first x coordinate is NaN. *)
Lemma parseStlBoundingBox_nan_poisons_axis_witness :
  exists b, parseStlBoundingBox nan_mesh = Some b /\
            axis 0 (bmin b) = NaN /\ axis 0 (bmax b) = NaN.
Proof.
  apply (parseStlBoundingBox_nan_poisons_axis nan_mesh 1 0).
  - unfold well_formed_A. vm_compute. repeat split; discriminate.
  - lia.
  - vm_compute. left. reflexivity.
Defined.

(* ===================================================================== *)
(** * The text scan, statement by statement *)

Section Statements.

Lemma space_not_numchar (c : Z) : is_space c = true -> is_numchar c = false.
Proof.
  unfold is_space, is_numchar, is_digit. intros H.
  repeat match goal with
         | H : (_ || _) = true |- _ => apply orb_true_iff in H as [H | H]
         | H : (_ && _) = true |- _ => apply andb_true_iff in H as [? ?]
         end;
  repeat match goal with
         | H : (_ <=? _) = true |- _ => apply Z.leb_le in H
         | H : (_ =? _) = true |- _ => apply Z.eqb_eq in H
         end;
  repeat match goal with
         | |- (_ || _) = false => apply orb_false_iff; split
         | |- (_ && _) = false => apply andb_false_iff
         end;
  try (apply Z.eqb_neq; lia);
  try (left; apply Z.leb_gt; lia); try (right; apply Z.leb_gt; lia).
Qed.

Lemma numchar_not_space (c : Z) : is_numchar c = true -> is_space c = false.
Proof.
  intros H. destruct (is_space c) eqn:E; [ | reflexivity ].
  rewrite (space_not_numchar c E) in H. discriminate.
Qed.

(** A run followed by something outside its class is what [X+] takes. *)
Lemma span_run (p : Z -> bool) (g rest : list Z) :
  forallb p g = true ->
  match rest with [] => true | c :: _ => negb (p c) end = true ->
  span p (g ++ rest) = (g, rest).
Proof.
  intros Hg Hr. induction g as [ | c g IH].
  - destruct rest as [ | c rest]; [ reflexivity | ].
    cbn [app span]. apply negb_true_iff in Hr. rewrite Hr. reflexivity.
  - cbn [forallb] in Hg. apply andb_true_iff in Hg as [Hc Hg].
    cbn [app span]. rewrite Hc, (IH Hg). reflexivity.
Qed.

Lemma plus_run (p : Z -> bool) (g rest : list Z) :
  run_of p g = true ->
  match rest with [] => true | c :: _ => negb (p c) end = true ->
  plus p (g ++ rest) = Some (g, rest).
Proof.
  intros Hg Hr. unfold plus.
  destruct g as [ | c g]; [ discriminate | ].
  rewrite (span_run p (c :: g) rest Hg Hr). reflexivity.
Qed.

Lemma run_head (p q : Z -> bool) (g rest : list Z) :
  (forall c, p c = true -> q c = false) ->
  run_of p g = true ->
  match g ++ rest with [] => true | c :: _ => negb (q c) end = true.
Proof.
  intros Hpq Hg. destruct g as [ | c g]; [ discriminate | ].
  cbn [run_of forallb] in Hg. apply andb_true_iff in Hg as [Hc _].
  cbn [app]. rewrite (Hpq c Hc). reflexivity.
Qed.

Lemma literal_app (kw rest : list Z) : literal kw (kw ++ rest) = Some rest.
Proof.
  induction kw as [ | c kw IH]; [ destruct rest; reflexivity | ].
  cbn [app literal]. rewrite Z.eqb_refl. exact IH.
Qed.

Lemma ends_token_app (t rest : list Z) :
  ends_token t = true -> ends_token rest = true ->
  ends_token (t ++ rest) = true.
Proof. destruct t as [ | c t]; intros Ht Hr; [ exact Hr | exact Ht ]. Qed.

Ltac next_run :=
  first [ assumption
        | apply (run_head is_numchar is_space);
          [ exact numchar_not_space | assumption ]
        | apply (run_head is_space is_numchar);
          [ exact space_not_numchar | assumption ] ].

(** The pattern matches a well-formed statement at its keyword, with
    the three tokens as groups, and stops where the trailer starts. *)
Lemma match_here_statement (v : Statement) (rest : list Z) :
  well_formed_statement v = true -> ends_token rest = true ->
  match_here (render v ++ rest)
  = Some (tok_x v, tok_y v, tok_z v,
          (6 + length (gap1 v) + length (tok_x v) + length (gap2 v)
           + length (tok_y v) + length (gap3 v) + length (tok_z v))%nat).
Proof.
  unfold well_formed_statement. intros H Hrest.
  repeat (apply andb_true_iff in H as [H ?]).
  unfold match_here, render. rewrite <- !app_assoc.
  rewrite literal_app. cbn [mbind option_bind].
  rewrite (plus_run is_space) by next_run. cbn [mbind option_bind].
  rewrite (plus_run is_numchar) by next_run. cbn [mbind option_bind].
  rewrite (plus_run is_space) by next_run. cbn [mbind option_bind].
  rewrite (plus_run is_numchar) by next_run. cbn [mbind option_bind].
  rewrite (plus_run is_space) by next_run. cbn [mbind option_bind].
  rewrite (plus_run is_numchar);
    [ reflexivity | assumption | apply ends_token_app; assumption ].
Qed.

(** After a match the scan steps over the rest of the matched text. *)
Lemma asciiScan_skip (pre rest : list Z) (b : BBox) :
  asciiScan (length pre) (pre ++ rest) b = asciiScan 0 rest b.
Proof.
  induction pre as [ | c pre IH]; [ | exact IH ].
  destruct rest; reflexivity.
Qed.

(** No match starts in text without the letter v. *)
Lemma asciiScan_no_v (pre rest : list Z) (b : BBox) :
  no_v pre = true -> asciiScan 0 (pre ++ rest) b = asciiScan 0 rest b.
Proof.
  induction pre as [ | c pre IH]; intros H; [ reflexivity | ].
  cbn [no_v forallb] in H. apply andb_true_iff in H as [Hc H].
  apply negb_true_iff in Hc.
  cbn [app asciiScan].
  replace (match_here (c :: pre ++ rest))
    with (@None (list Z * list Z * list Z * nat)).
  - apply IH, H.
  - symmetry. apply match_here_no_keyword. cbn [kw_vertex literal].
    rewrite Z.eqb_sym, Hc. reflexivity.
Qed.

(** The scan of one statement: its vertex is folded, and the scan goes
    on after the trailer. *)
Lemma asciiScan_statement (v : Statement) (rest : list Z) (b : BBox) :
  well_formed_statement v = true -> ends_token rest = true ->
  asciiScan 0 (render v ++ rest) b = asciiScan 0 rest (foldStatement b v).
Proof.
  intros Hv Hrest.
  pose proof (match_here_statement v rest Hv Hrest) as M.
  assert (Hnov : no_v (trailer v) = true).
  { unfold well_formed_statement in Hv.
    apply andb_true_iff in Hv as [_ Hv]. exact Hv. }
  unfold render in *. rewrite <- !app_assoc in *.
  set (tail := gap1 v ++ tok_x v ++ gap2 v ++ tok_y v ++ gap3 v ++ tok_z v
               ++ trailer v ++ rest) in *.
  change (kw_vertex ++ tail) with (118 :: ([101; 114; 116; 101; 120] ++ tail))
    in *.
  cbn [asciiScan]. rewrite M. subst tail.
  set (body := [101; 114; 116; 101; 120] ++ gap1 v ++ tok_x v ++ gap2 v
               ++ tok_y v ++ gap3 v ++ tok_z v).
  replace ([101; 114; 116; 101; 120] ++ gap1 v ++ tok_x v ++ gap2 v
           ++ tok_y v ++ gap3 v ++ tok_z v ++ trailer v ++ rest)
    with (body ++ trailer v ++ rest)
    by (subst body; rewrite <- !app_assoc; reflexivity).
  replace (6 + length (gap1 v) + length (tok_x v) + length (gap2 v)
           + length (tok_y v) + length (gap3 v) + length (tok_z v) - 1)%nat
    with (length body)
    by (subst body; rewrite !length_app; cbn [length]; lia).
  rewrite asciiScan_skip, (asciiScan_no_v _ _ _ Hnov). reflexivity.
Qed.

(** The scan of a sequence of statements folds them in order. *)
Lemma asciiScan_statements (vs : list Statement) : forall b,
  forallb well_formed_statement vs = true ->
  asciiScan 0 (concat (map render vs)) b = fold_left foldStatement vs b.
Proof.
  induction vs as [ | v vs IH]; intros b H; [ reflexivity | ].
  cbn [forallb] in H. apply andb_true_iff in H as [Hv H].
  cbn [map concat fold_left].
  rewrite (asciiScan_statement v _ b Hv).
  - apply IH, H.
  - destruct vs as [ | v' vs]; reflexivity.
Qed.

End Statements.



Section TextExact.

Lemma fold_statements_axis (a : nat) (vs : list Statement) : forall b,
  axis a (bmin (fold_left foldStatement vs b))
  = fold_left Math_min (map (statement_coord a) vs) (axis a (bmin b)) /\
  axis a (bmax (fold_left foldStatement vs b))
  = fold_left Math_max (map (statement_coord a) vs) (axis a (bmax b)).
Proof.
  induction vs as [ | v vs IH]; intros b; [ split; reflexivity | ].
  cbn [fold_left map]. destruct (IH (foldStatement b v)) as [-> ->].
  unfold foldStatement, foldVertex, statement_coord.
  destruct a as [ | [ | a]]; split; reflexivity.
Qed.

End TextExact.



(* ===================================================================== *)
(** * More about the dependency scanner *)

Section Dependencies.

Lemma isAbsolute_append (a b : string) :
  isAbsolute a = true -> isAbsolute (a +:+ b) = true.
Proof.
  destruct a as [ | c a]; [ discriminate | ].
  rewrite append_cons. intros H. exact H.
Qed.

Lemma resolve_args_absolute (base : string) (rev_args : list string) :
  isAbsolute base = true ->
  forall acc, isAbsolute (resolve_args rev_args base acc) = true.
Proof.
  intros Hc. induction rev_args as [ | a l IH]; intros acc; cbn [resolve_args].
  - apply isAbsolute_append, Hc.
  - destruct (String.eqb a ""); [ apply IH | ].
    destruct (isAbsolute a) eqn:Ha; [ apply isAbsolute_append, Ha | apply IH ].
Qed.

(** In a process whose working directory is absolute, [path.resolve]
    returns an absolute path. *)
Lemma path_resolve_absolute (base : string) (args : list string) :
  isAbsolute base = true -> isAbsolute (path_resolve base args) = true.
Proof.
  intros Hc. unfold path_resolve.
  rewrite (resolve_args_absolute base (rev args) Hc ""). reflexivity.
Qed.

Lemma depScan_reported (env : Env) (dir : string) (text : list Z) :
  forall skip d,
    In d (depScan env dir skip text) ->
    existsSync env d = true /\
    exists g, d = path_resolve (cwd env) [dir; g].
Proof.
  induction text as [ | c rest IH]; intros skip d H; [ destruct H | ].
  cbn [depScan] in H. destruct skip as [ | k]; [ | exact (IH _ _ H) ].
  destruct (match_dep_here (c :: rest)) as [[g len] | ]; [ | exact (IH _ _ H) ].
  apply in_app_or in H as [H | H]; [ | exact (IH _ _ H) ].
  destruct (existsSync env (path_resolve (cwd env) [dir; string_of_units g]))
    eqn:E; [ | destruct H ].
  destruct H as [<- | []]. split; [ exact E | ]. eexists. reflexivity.
Qed.

(** The scan looks at the disk only to test whether each resolved path
    exists. *)
Lemma depScan_ext (env env' : Env) (dir : string) (text : list Z) :
  cwd env' = cwd env ->
  (forall q, existsSync env' q = existsSync env q) ->
  forall skip, depScan env' dir skip text = depScan env dir skip text.
Proof.
  intros Hc He.
  induction text as [ | c rest IH]; intros skip; [ reflexivity | ].
  cbn [depScan]. destruct skip as [ | k]; [ | apply IH ].
  destruct (match_dep_here (c :: rest)) as [[g len] | ]; [ | apply IH ].
  rewrite Hc, He, IH. reflexivity.
Qed.

End Dependencies.



(** X11.  Includes are not followed.  The dependencies reported for a
    file are read off that file's own text: replacing the content of any
    other existing path on disk (for instance with text that includes
    further files) leaves the result the same. *)
Theorem parseScadDependencies_not_transitive (env : Env)
  (scadPath q : string) (content : Buffer) :
  q <> scadPath -> existsSync env q = true ->
  parseScadDependencies (with_file env q content) scadPath
  = parseScadDependencies env scadPath.
Proof.
  intros Hne Hq. unfold parseScadDependencies, readFileSync_utf8, with_file.
  cbn [fs]. rewrite lookup_insert_ne by exact Hne.
  destruct (fs env !! scadPath) as [[c | ] | ]; try reflexivity.
  apply depScan_ext; [ reflexivity | ].
  intros x. unfold existsSync in *. cbn [fs].
  destruct (decide (q = x)) as [<- | Hx].
  - rewrite lookup_insert_eq.
    destruct (fs env !! q); [ reflexivity | discriminate ].
  - rewrite lookup_insert_ne by exact Hx. reflexivity.
Qed.

(** Witness for X11: [lib.scad] is rewritten to include a third file. *)
Lemma parseScadDependencies_not_transitive_witness :
  parseScadDependencies
    (with_file sample_env "/m/lib.scad" (bytes_of "include <c.scad>"))
    "/m/a.scad"
  = parseScadDependencies sample_env "/m/a.scad".
Proof.
  apply (parseScadDependencies_not_transitive sample_env "/m/a.scad"
           "/m/lib.scad" (bytes_of "include <c.scad>")).
  - discriminate.
  - vm_compute. reflexivity.
Defined.

Section Inclusions.

Lemma starts_keyword_render (v : Inclusion) (rest : list Z) :
  starts_keyword (render_inclusion v ++ rest) = true.
Proof.
  unfold render_inclusion, inc_keyword. destruct (inc_use v); reflexivity.
Qed.

(** A keyword found at the head of [s ++ rest] either lies inside [s],
    or takes all of [s]. *)
Lemma literal_split (kw : list Z) : forall s rest l1,
  literal kw (s ++ rest) = Some l1 ->
  (exists s', l1 = s' ++ rest /\ forall c, In c s' -> In c s) \/
  (forall c, In c s -> In c kw).
Proof.
  induction kw as [ | a kw IH]; intros s rest l1 H.
  - left. exists s. cbn in H. destruct (s ++ rest); injection H as <-; auto.
  - destruct s as [ | c s]; [ right; intros c [] | ].
    cbn [app literal] in H.
    destruct (Z.eqb_spec a c) as [-> | ]; [ | discriminate ].
    destruct (IH s rest l1 H) as [(s' & -> & Hs') | Hin].
    + left. exists s'. split; [ reflexivity | ].
      intros x Hx. right. exact (Hs' x Hx).
    + right.
      intros x [<- | Hx]; [ left; reflexivity | right; exact (Hin x Hx) ].
Qed.

Lemma dep_tail_quiet (s rest : list Z) :
  forallb (fun c => negb (c =? 60)) s = true ->
  starts_keyword rest = true ->
  dep_tail (s ++ rest) = None.
Proof.
  intros Hs Hr. unfold dep_tail.
  induction s as [ | c s IH].
  - cbn [app]. destruct rest as [ | c rest]; [ reflexivity | ].
    cbn [starts_keyword] in Hr. apply andb_true_iff in Hr as [Hsp Hlt].
    apply negb_true_iff in Hsp, Hlt.
    cbn [span]. rewrite Hsp, Hlt. reflexivity.
  - cbn [forallb] in Hs. apply andb_true_iff in Hs as [Hc Hs].
    apply negb_true_iff in Hc.
    cbn [app span]. destruct (is_space c).
    + specialize (IH Hs).
      destruct (span is_space (s ++ rest)) as [a l1]. exact IH.
    + rewrite Hc. reflexivity.
Qed.

Lemma last_in (c : Z) (s : list Z) : In (List.last (c :: s) 0) (c :: s).
Proof.
  revert c. induction s as [ | d s IH]; intros c; [ left; reflexivity | ].
  right. exact (IH d).
Qed.

Lemma try_keyword_quiet (kw s rest : list Z) :
  forallb is_lower kw = true ->
  s <> [] ->
  forallb (fun c => negb (c =? 60)) s = true ->
  is_lower (List.last s 0) = false ->
  starts_keyword rest = true ->
  (l1 ← literal kw (s ++ rest);
   '(g, rest') ← dep_tail l1;
   Some (g, (length (s ++ rest) - length rest')%nat)) = None.
Proof.
  intros Hkw Hne Hs Hlast Hr.
  destruct (literal kw (s ++ rest)) as [l1 | ] eqn:L; [ | reflexivity ].
  cbn [mbind option_bind].
  destruct (literal_split kw s rest l1 L) as [(s' & -> & Hs') | Hin].
  - rewrite dep_tail_quiet; [ reflexivity | | exact Hr ].
    apply forallb_forall. intros c Hc.
    exact (proj1 (forallb_forall _ _) Hs c (Hs' c Hc)).
  - exfalso. destruct s as [ | c s]; [ congruence | ].
    pose proof (Hin _ (last_in c s)) as Hk.
    rewrite (proj1 (forallb_forall _ _) Hkw _ Hk) in Hlast. discriminate.
Qed.

Lemma match_dep_here_quiet (s rest : list Z) :
  s <> [] ->
  forallb (fun c => negb (c =? 60)) s = true ->
  is_lower (List.last s 0) = false ->
  starts_keyword rest = true ->
  match_dep_here (s ++ rest) = None.
Proof.
  intros Hne Hs Hlast Hr. unfold match_dep_here.
  rewrite (try_keyword_quiet kw_include s rest eq_refl Hne Hs Hlast Hr).
  exact (try_keyword_quiet kw_use s rest eq_refl Hne Hs Hlast Hr).
Qed.

Lemma last_tail (c d : Z) (s : list Z) :
  List.last (c :: d :: s) 0 = List.last (d :: s) 0.
Proof. reflexivity. Qed.

(** No match starts in quiet text. *)
Lemma depScan_quiet (env : Env) (dir : string) (s rest : list Z) :
  quiet s = true -> starts_keyword rest = true ->
  depScan env dir 0 (s ++ rest) = depScan env dir 0 rest.
Proof.
  unfold quiet. intros H Hr. apply andb_true_iff in H as [Hs Hl].
  induction s as [ | c s IH]; [ reflexivity | ].
  apply negb_true_iff in Hl.
  change ((c :: s) ++ rest) with (c :: (s ++ rest)).
  cbn [depScan].
  change (c :: (s ++ rest)) with ((c :: s) ++ rest).
  rewrite (match_dep_here_quiet (c :: s) rest); try assumption;
    [ | discriminate ].
  cbn [forallb] in Hs. apply andb_true_iff in Hs as [_ Hs].
  apply IH; [ exact Hs | ].
  destruct s as [ | d s]; [ reflexivity | ].
  rewrite last_tail in Hl. rewrite Hl. reflexivity.
Qed.

Lemma depScan_skip (env : Env) (dir : string) (pre rest : list Z) :
  depScan env dir (length pre) (pre ++ rest) = depScan env dir 0 rest.
Proof.
  induction pre as [ | c pre IH]; [ | exact IH ].
  destruct rest; reflexivity.
Qed.

Lemma span_space_gap (gap rest : list Z) :
  forallb is_space gap = true ->
  span is_space (gap ++ 60 :: rest) = (gap, 60 :: rest).
Proof.
  intros H. induction gap as [ | c gap IH]; [ reflexivity | ].
  cbn [forallb] in H. apply andb_true_iff in H as [Hc H].
  cbn [app span]. rewrite Hc, (IH H). reflexivity.
Qed.

Lemma dep_tail_inclusion (v : Inclusion) (rest : list Z) :
  well_formed_inclusion v = true ->
  dep_tail (inc_gap v ++ [60] ++ inc_name v ++ [62] ++ inc_trailer v ++ rest)
  = Some (inc_name v, inc_trailer v ++ rest).
Proof.
  unfold well_formed_inclusion. intros H.
  apply andb_true_iff in H as [H _]. apply andb_true_iff in H as [Hg Hn].
  unfold dep_tail. cbn [app].
  rewrite (span_space_gap _ _ Hg). cbn [Z.eqb Pos.eqb].
  rewrite (plus_run (fun c => negb (c =? 62)) (inc_name v)
             (62 :: inc_trailer v ++ rest) Hn eq_refl).
  reflexivity.
Qed.

Lemma match_dep_here_inclusion (v : Inclusion) (rest : list Z) :
  well_formed_inclusion v = true ->
  match_dep_here (render_inclusion v ++ rest)
  = Some (inc_name v,
          (length (inc_keyword v) + length (inc_gap v) + 1
           + length (inc_name v) + 1)%nat).
Proof.
  intros Hv. unfold match_dep_here, render_inclusion.
  rewrite <- !app_assoc.
  pose proof (dep_tail_inclusion v rest Hv) as T.
  assert (Len : forall kw : list Z,
    Nat.sub
      (length (kw ++ inc_gap v ++ [60] ++ inc_name v ++ [62]
               ++ inc_trailer v ++ rest))
      (length (inc_trailer v ++ rest))
    = (length kw + length (inc_gap v) + 1 + length (inc_name v) + 1)%nat).
  { intros kw. rewrite ?length_app. cbn [length]. rewrite ?length_app.
    cbn [length]. lia. }
  unfold inc_keyword. destruct (inc_use v).
  - change (literal kw_include (kw_use ++ ?l)) with (@None (list Z)).
    cbn [mbind option_bind].
    rewrite literal_app. cbn [mbind option_bind]. rewrite T.
    cbn [mbind option_bind]. rewrite Len. reflexivity.
  - rewrite literal_app. cbn [mbind option_bind]. rewrite T.
    cbn [mbind option_bind]. rewrite Len. reflexivity.
Qed.

(** The scan of one inclusion: its target is reported if it exists, and
    the scan goes on after the trailer. *)
Lemma depScan_inclusion (env : Env) (dir : string) (v : Inclusion)
  (rest : list Z) :
  well_formed_inclusion v = true -> starts_keyword rest = true ->
  depScan env dir 0 (render_inclusion v ++ rest)
  = (if existsSync env
          (path_resolve (cwd env) [dir; string_of_units (inc_name v)])
     then [path_resolve (cwd env) [dir; string_of_units (inc_name v)]]
     else [])
    ++ depScan env dir 0 rest.
Proof.
  intros Hv Hr.
  pose proof (match_dep_here_inclusion v rest Hv) as M.
  assert (Hq : quiet (inc_trailer v) = true).
  { unfold well_formed_inclusion in Hv.
    apply andb_true_iff in Hv as [_ Hv]. exact Hv. }
  unfold render_inclusion in *. rewrite <- !app_assoc in *.
  set (tail := inc_gap v ++ [60] ++ inc_name v ++ [62]) in *.
  assert (E : exists k0 kt, inc_keyword v = k0 :: kt)
    by (unfold inc_keyword; destruct (inc_use v); eexists _, _; reflexivity).
  destruct E as (k0 & kt & Ek). rewrite Ek in *.
  replace (inc_gap v ++ [60] ++ inc_name v ++ [62] ++ inc_trailer v ++ rest)
    with (tail ++ inc_trailer v ++ rest) in *
    by (subst tail; rewrite <- !app_assoc; reflexivity).
  change ((k0 :: kt) ++ tail ++ inc_trailer v ++ rest)
    with (k0 :: (kt ++ tail ++ inc_trailer v ++ rest)) in *.
  cbn [depScan]. rewrite M. f_equal.
  replace (length (k0 :: kt) + length (inc_gap v) + 1 + length (inc_name v)
           + 1 - 1)%nat
    with (length (kt ++ tail))
    by (subst tail; rewrite ?length_app; cbn [length]; rewrite ?length_app;
        cbn [length]; lia).
  rewrite app_assoc, depScan_skip. apply depScan_quiet; assumption.
Qed.

Lemma depScan_inclusions (env : Env) (scadPath : string)
  (vs : list Inclusion) :
  forallb well_formed_inclusion vs = true ->
  depScan env (path_dirname scadPath) 0 (concat (map render_inclusion vs))
  = List.filter (existsSync env) (map (inclusion_target env scadPath) vs).
Proof.
  induction vs as [ | v vs IH]; intros H; [ reflexivity | ].
  cbn [forallb] in H. apply andb_true_iff in H as [Hv H].
  cbn [map concat List.filter].
  rewrite (depScan_inclusion env _ v _ Hv).
  - rewrite (IH H). unfold inclusion_target at 2 3.
    destruct (existsSync env _); reflexivity.
  - destruct vs as [ | v' vs]; [ reflexivity | ].
    cbn [map concat]. apply starts_keyword_render.
Qed.

End Inclusions.

(** X12.  Dependencies are reported in the order of the text, once per
    inclusion.  If the source text is quiet text followed by well-formed
    inclusions (either keyword, optional white space, a name between
    angle brackets, then quiet text), the result lists, in order, the
    resolution of each name against the directory of the file, for those
    that exist; a name included twice is reported twice. *)
Theorem parseScadDependencies_inclusions (env : Env) (scadPath : string)
  (prologue : list Z) (vs : list Inclusion) :
  readFileSync_utf8 env scadPath
  = Some (prologue ++ concat (map render_inclusion vs)) ->
  quiet prologue = true ->
  forallb well_formed_inclusion vs = true ->
  parseScadDependencies env scadPath
  = List.filter (existsSync env) (map (inclusion_target env scadPath) vs).
Proof.
  intros Htext Hp Hvs. unfold parseScadDependencies. rewrite Htext.
  rewrite depScan_quiet; [ apply depScan_inclusions, Hvs | exact Hp | ].
  destruct vs as [ | v vs]; [ reflexivity | ].
  cbn [map concat]. apply starts_keyword_render.
Qed.

(** Witness for X12: the test file that includes and uses the same
    library. *)
Lemma parseScadDependencies_inclusions_witness :
  parseScadDependencies test_env "/t/main.scad"
  = List.filter (existsSync test_env)
      (map (inclusion_target test_env "/t/main.scad") test_inclusions).
Proof.
  apply (parseScadDependencies_inclusions test_env "/t/main.scad" []
           test_inclusions).
  - vm_compute. reflexivity.
  - reflexivity.
  - vm_compute. reflexivity.
Defined.

(* ===================================================================== *)
(** * More about the peer channel *)

Section RequestIds.

Lemma sendAndWait_id (body : string) (ms : Z) (s : PeerState) :
  fst (sendAndWait body ms s) = requestIdCounter s + 1 /\
  requestIdCounter (snd (sendAndWait body ms s)) = requestIdCounter s + 1.
Proof.
  destruct (List.find is_ready (wsClients s)) as [ws | ] eqn:F.
  - rewrite (sendAndWait_ready s body ms ws F). split; reflexivity.
  - rewrite (sendAndWait_not_ready s body ms F). split; reflexivity.
Qed.

Lemma peer_step_counter (ev : PeerEvent) (s : PeerState) :
  requestIdCounter (peer_step ev s)
  = requestIdCounter s + (if is_send ev then 1 else 0).
Proof.
  destruct ev as [body ms | raw | t | c | id | id rs]; cbn [peer_step is_send];
    try (cbn; lia).
  - apply sendAndWait_id.
  - destruct raw as [ | [ | n | ] b]; cbn [onMessage]; try lia.
    destruct (n =? 0); [ lia | ].
    destruct (pendingRequests s !! n); cbn; lia.
  - unfold fireTimeout. destruct (timers s !! t); cbn; lia.
Qed.

Lemma peer_run_counter (evs : list PeerEvent) : forall s,
  requestIdCounter (peer_run evs s) = requestIdCounter s + count_sends evs.
Proof.
  unfold count_sends.
  induction evs as [ | ev evs IH]; intros s; [ cbn; lia | ].
  change (peer_run (ev :: evs) s) with (peer_run evs (peer_step ev s)).
  rewrite IH, peer_step_counter. cbn [List.filter].
  destruct (is_send ev); cbn [length]; lia.
Qed.

End RequestIds.

(** X13.  [broadcast] writes the message once to each connected socket
    whose [readyState] is 1, in the order of connection, writes nothing
    to the others, and touches neither the table of pending requests nor
    their timers nor any promise. *)
Theorem broadcast_delivers (m : OutMsg) (p : PeerState) :
  sent (broadcast m p)
  = sent p ++ map (fun c => (c_id c, m)) (List.filter is_ready (wsClients p)) /\
  wsClients (broadcast m p) = wsClients p /\
  pendingRequests (broadcast m p) = pendingRequests p /\
  timers (broadcast m p) = timers p /\
  settled (broadcast m p) = settled p /\
  requestIdCounter (broadcast m p) = requestIdCounter p.
Proof. rewrite broadcast_spec. repeat split. Qed.

(** X14.  Request identifiers are 1, 2, 3, ... in the order of the
    calls.  After any history of the channel, the next [sendAndWait] is
    given the number of calls made so far plus one, whether or not those
    calls found a renderer: a call rejected with "No browser connected"
    uses up its identifier too. *)
Theorem sendAndWait_identifiers (evs : list PeerEvent) (body : string)
  (ms : Z) :
  fst (sendAndWait body ms (peer_run evs peer_init)) = count_sends evs + 1.
Proof.
  destruct (sendAndWait_id body ms (peer_run evs peer_init)) as [-> _].
  rewrite peer_run_counter. reflexivity.
Qed.

(** X15.  No promise of [sendAndWait] is completed twice.  After any
    history of sends, messages, timers, connections and disconnections,
    each request identifier has at most one completion on record. *)
Theorem request_completed_at_most_once (evs : list PeerEvent) (rid : Z) :
  (length (outcomes rid (peer_run evs peer_init)) <= 1)%nat.
Proof.
  pose proof (peer_run_wf evs peer_init peer_init_wf) as W.
  set (s := peer_run evs peer_init) in *.
  destruct (decide (0 < rid <= requestIdCounter s)) as [Hr | Hr].
  - destruct (pendingRequests s !! rid) as [e | ] eqn:E.
    + rewrite (wf_pending_open s W rid e E). cbn. lia.
    + destruct (wf_closed_once s W rid Hr E) as (o & ->). cbn. lia.
  - rewrite outcomes_none; [ cbn; lia | ].
    intros o Ho. apply Hr. exact (wf_settled_issued s W rid o Ho).
Qed.

(** X16.  A request is pending exactly as long as its timer is.  After
    any history, every entry of [pendingRequests] owns a pending timer
    that names it, and every pending timer belongs to an entry: no timer
    outlives its request, and no accepted request is left without the
    timer that will reject it. *)
Theorem pending_requests_and_timers (evs : list PeerEvent) :
  let s := peer_run evs peer_init in
  (forall r e, pendingRequests s !! r = Some e ->
     exists d, timers s !! e_timer e = Some (mkRequestTimer r d)) /\
  (forall t cb, timers s !! t = Some cb ->
     pendingRequests s !! t_request cb = Some (mkEntry t)).
Proof.
  pose proof (peer_run_wf evs peer_init peer_init_wf) as W.
  split; [ exact (wf_entry_timer _ W) | exact (wf_timer_entry _ W) ].
Qed.

(** X17.  A request is written to one socket only: the first, in the
    order of connection, whose [readyState] is 1.  Sockets connected
    before it that are not ready, and all sockets after it, receive
    nothing. *)
Theorem sendAndWait_first_ready (s : PeerState) (body : string) (ms : Z)
  (before after : list Client) (ws : Client) :
  wsClients s = before ++ ws :: after ->
  forallb (fun c => negb (is_ready c)) before = true ->
  is_ready ws = true ->
  sent (snd (sendAndWait body ms s))
  = sent s ++ [(c_id ws, Request (requestIdCounter s + 1) body)].
Proof.
  intros Hl Hb Hw.
  assert (F : List.find is_ready (wsClients s) = Some ws).
  { rewrite Hl. clear Hl. induction before as [ | c l IH].
    - cbn [app List.find]. rewrite Hw. reflexivity.
    - cbn [forallb] in Hb. apply andb_true_iff in Hb as [Hc Hb].
      apply negb_true_iff in Hc. cbn [app List.find]. rewrite Hc.
      apply IH, Hb. }
  rewrite (sendAndWait_ready s body ms ws F). reflexivity.
Qed.

(** Witness for X17: three sockets, the first one closed. *)
Lemma sendAndWait_first_ready_witness :
  sent (snd (sendAndWait "set-camera" 10000 three_sockets))
  = [(2, Request 1 "set-camera")].
Proof.
  apply (sendAndWait_first_ready three_sockets "set-camera" 10000
           [mkClient 1 3] [mkClient 3 1] (mkClient 2 1));
    reflexivity.
Defined.

(* ===================================================================== *)
(** * More about the synchronisation controller *)

Section Controller.

Lemma sent_broadcastAll (m : OutMsg) (s : State) :
  sent (peer (broadcastAll m s)) = sent (peer s) ++ deliveries m (peer s).
Proof.
  unfold broadcastAll. cbn [peer set_peer]. rewrite broadcast_spec.
  reflexivity.
Qed.

Lemma deliveries_broadcastAll (m m' : OutMsg) (s : State) :
  deliveries m' (peer (broadcastAll m s)) = deliveries m' (peer s).
Proof.
  unfold deliveries, broadcastAll. cbn [peer set_peer].
  rewrite broadcast_clients. reflexivity.
Qed.

(** [openFile] up to the read of the artifact. *)
Lemma openFile_to_read (o : Oracle) (env : Env) (s : State)
  (filePath : string) :
  reaches_read o env (path_resolve (cwd env) [filePath]) ->
  run_piece o env (openFile filePath) s
  = run_task o env
      (snd (openFile_afterRead (path_resolve (cwd env) [filePath])
              (o_read o (Some (artifact_of env
                                 (path_resolve (cwd env) [filePath]))))
              env
              (set_currentStlPath
                 (Some (artifact_of env (path_resolve (cwd env) [filePath])))
                 s)))
      (fst (openFile_afterRead (path_resolve (cwd env) [filePath])
              (o_read o (Some (artifact_of env
                                 (path_resolve (cwd env) [filePath]))))
              env
              (set_currentStlPath
                 (Some (artifact_of env (path_resolve (cwd env) [filePath])))
                 s))).
Proof.
  intros [Hex Hext]. unfold run_piece, openFile, artifact_of.
  set (absPath := path_resolve (cwd env) [filePath]) in *.
  rewrite Hex. cbn [negb].
  destruct Hext as [Hstl | (Hscad & Hc & He)].
  - rewrite Hstl.
    change (String.eqb ".stl" ".scad") with false.
    change (String.eqb ".stl" ".stl") with true.
    cbn [negb andb]. unfold openFile_read. cbn [run_task].
    destruct (openFile_afterRead absPath (o_read o (Some absPath)) env
                (set_currentStlPath (Some absPath) s)) as [s' t].
    reflexivity.
  - rewrite Hscad.
    change (String.eqb ".scad" ".scad") with true.
    cbn [negb andb run_task]. rewrite Hc. cbn [negb].
    unfold compileScad. cbn [run_task]. rewrite He.
    cbn [compileResult failed error stlPath]. unfold openFile_read.
    cbn [run_task].
    destruct (openFile_afterRead absPath (o_read o (Some (tmpStlPath env))) env
                (set_currentStlPath (Some (tmpStlPath env)) s)) as [s' t].
    reflexivity.
Qed.

End Controller.



(** X19.  A failed read is not undone.  When [openFile], run alone,
    gets as far as reading the artifact and the read is rejected, it
    throws the error of the read, and [currentStlPath] has already been
    replaced by the path that could not be read; every other module
    variable is as before, and nothing was sent. *)
Theorem openFile_read_failure (o : Oracle) (env : Env) (s : State)
  (filePath m : string) :
  let absPath := path_resolve (cwd env) [filePath] in
  reaches_read o env absPath ->
  o_read o (Some (artifact_of env absPath)) = ReadErr m ->
  run_piece o env (openFile filePath) s
  = (set_currentStlPath (Some (artifact_of env absPath)) s, Failed m).
Proof.
  intros absPath Hr Hread.
  rewrite (openFile_to_read o env s filePath Hr). fold absPath.
  rewrite Hread. reflexivity.
Qed.

(** Witness for X19: a directory named like a mesh is opened while
    [a.scad] is active. *)
Lemma openFile_read_failure_witness :
  run_piece failing_oracle sample_env (openFile "dir.stl") opened_state
  = (set_currentStlPath (Some "/m/dir.stl") opened_state,
     Failed "EISDIR: illegal operation on a directory, read").
Proof.
  apply (openFile_read_failure failing_oracle sample_env opened_state
           "dir.stl" "EISDIR: illegal operation on a directory, read").
  - split; [ vm_compute; reflexivity | ]. left. vm_compute. reflexivity.
  - reflexivity.
Defined.





(** X22.  [handleFileChange], run alone, never changes which file is
    active, never touches the pending requests, and broadcasts at most
    error and model-updated messages: whatever the compiler and the disk
    answer, [currentFile] is as before and no file-info is sent. *)
Theorem handleFileChange_keeps_file (o : Oracle) (env : Env) (s : State) :
  let r := run_piece o env handleFileChange s in
  currentFile (fst r) = currentFile s /\
  pendingRequests (peer (fst r)) = pendingRequests (peer s) /\
  exists l,
    sent (peer (fst r)) = sent (peer s) ++ l /\
    forallb (fun p => is_resync_message (snd p)) l = true.
Proof.
  cbn zeta. unfold run_piece, handleFileChange.
  assert (D : forall m, is_resync_message m = true -> forall p,
            forallb (fun q => is_resync_message (snd q)) (deliveries m p)
            = true).
  { intros m Hm p. unfold deliveries. apply forallb_forall.
    intros x Hx. apply in_map_iff in Hx as (c & <- & _). exact Hm. }
  assert (R : forall r s0, currentFile s0 = currentFile s ->
            pendingRequests (peer s0) = pendingRequests (peer s) ->
            sent (peer s0) = sent (peer s) ->
            let q := run_task o env (snd (reload r env s0))
                       (fst (reload r env s0)) in
            currentFile (fst q) = currentFile s /\
            pendingRequests (peer (fst q)) = pendingRequests (peer s) /\
            exists l,
              sent (peer (fst q)) = sent (peer s) ++ l /\
              forallb (fun p => is_resync_message (snd p)) l = true).
  { intros [buf | m] s0 H1 H2 H3; cbn zeta.
    - rewrite reload_ok. cbn [run_task fst snd].
      rewrite sent_broadcastAll. unfold broadcastAll.
      cbn [currentFile set_peer set_lastBoundingBox set_currentStlBuffer
           peer]. rewrite broadcast_spec. cbn [pendingRequests sent].
      repeat split; try assumption.
      eexists. split; [ rewrite H3; reflexivity | ].
      apply D. reflexivity.
    - cbn [reload run_task fst snd]. repeat split; try assumption.
      exists []. rewrite app_nil_r. split; [ assumption | reflexivity ]. }
  destruct (currentFile s) as [cf | ] eqn:Hcf.
  - destruct (String.eqb (toLowerCase (path_extname cf)) ".scad").
    + unfold compileScad. cbn [run_task]. unfold afterCompile.
      cbn [log currentFile]. rewrite Hcf.
      destruct (failed (compileResult (tmpStlPath env) (o_exec o)))
        as [diag | ].
      * cbn [run_task fst snd]. rewrite sent_broadcastAll.
        unfold broadcastAll. cbn [currentFile set_peer peer log setupWatcher
          set_watcher]. rewrite broadcast_spec. cbn [pendingRequests sent].
        repeat split; try assumption.
        eexists. split; [ reflexivity | ]. apply D. reflexivity.
      * cbn [run_task].
        destruct (reload (o_read o (stlPath (compileResult (tmpStlPath env)
                                               (o_exec o)))) env _)
          as [s1 t1] eqn:E.
        pose proof (R (o_read o (stlPath (compileResult (tmpStlPath env)
                                            (o_exec o))))
                      (set_currentStlPath
                         (stlPath (compileResult (tmpStlPath env) (o_exec o)))
                         (setupWatcher cf env
                            (log ("File changed: " +:+ cf) s)))) as Q.
        rewrite E in Q. cbn [fst snd] in Q.
        apply Q; first [ exact Hcf | reflexivity ].
    + cbn [run_task].
      destruct (reload (o_read o (Some cf)) env _) as [s1 t1] eqn:E.
      pose proof (R (o_read o (Some cf)) (log ("File changed: " +:+ cf) s))
        as Q.
      rewrite E in Q. cbn [fst snd] in Q.
      apply Q; first [ exact Hcf | reflexivity ].
  - cbn [run_task fst snd log currentFile peer].
    repeat split; try assumption.
    exists []. rewrite app_nil_r. split; reflexivity.
Qed.

(* ===================================================================== *)
(** * Invariants of the event loop *)

Section Keeps.

Variable R : State -> State -> Prop.

Hypothesis R_refl : forall s, R s s.
Hypothesis R_trans : forall a b c, R a b -> R b c -> R a c.
Hypothesis R_log : forall l s, R s (log l s).
Hypothesis R_path : forall v s, R s (set_currentStlPath v s).
Hypothesis R_setup : forall cf env s,
  currentFile s = Some cf -> R s (setupWatcher cf env s).
Hypothesis R_broadcast : forall m s, R s (broadcastAll m s).
Hypothesis R_peer_step : forall ev s,
  R s (set_peer (peer_step ev (peer s)) s).
Hypothesis R_replay : forall c s, R s (replay c s).
Hypothesis R_change : forall env s, R s (onWatchChange env s).
Hypothesis R_fired : forall t s, R s (timerFired t s).
Hypothesis R_install : forall absPath buf env s,
  R s (fst (openFile_afterRead absPath (ReadOk buf) env s)).
Hypothesis R_reload : forall buf env s, R s (fst (reload (ReadOk buf) env s)).

Lemma task_keeps_S (n : nat) : forall t,
  task_keeps R n t -> task_keeps R (S n) t.
Proof.
  induction n as [ | n IH]; intros t H.
  - destruct t; cbn in H; try contradiction; exact I.
  - destruct t as [v | m | k | a b k | p k]; try exact I;
      intros x e s; destruct (H x e s) as [H1 H2];
      (split; [ exact H1 | apply IH, H2 ]).
Qed.

Lemma afterRead_keeps (n : nat) (absPath : string) (p : option string) :
  task_keeps R (S n) (AwaitRead p (openFile_afterRead absPath)).
Proof.
  intros r e s. destruct r as [buf | m].
  - split; [ apply R_install | ].
    unfold openFile_afterRead, openFile_install.
    destruct (parseStlBoundingBox buf); [ | destruct n; exact I ].
    destruct (statSync_size e absPath); destruct n; exact I.
  - split; [ apply R_refl | destruct n; exact I ].
Qed.

Lemma reload_keeps (n : nat) (p : option string) :
  task_keeps R (S n) (AwaitRead p reload).
Proof.
  intros r e s. destruct r as [buf | m].
  - split; [ apply R_reload | ].
    unfold reload. destruct (parseStlBoundingBox buf); destruct n; exact I.
  - split; [ apply R_refl | destruct n; exact I ].
Qed.

Lemma openFile_keeps (filePath : string) (e : Env) (s : State) :
  R s (fst (openFile filePath e s)) /\
  task_keeps R 3 (snd (openFile filePath e s)).
Proof.
  unfold openFile.
  set (absPath := path_resolve (cwd e) [filePath]).
  destruct (existsSync e absPath); cbn [negb];
    [ | split; [ apply R_refl | exact I ] ].
  destruct (negb (String.eqb (toLowerCase (path_extname absPath)) ".scad")
            && negb (String.eqb (toLowerCase (path_extname absPath)) ".stl"));
    [ split; [ apply R_refl | exact I ] | ].
  destruct (String.eqb (toLowerCase (path_extname absPath)) ".scad").
  - split; [ apply R_refl | ]. cbn [snd].
    intros ok e1 s1. destruct ok; cbn [negb];
      [ | split; [ apply R_refl | exact I ] ].
    unfold compileScad. split; [ apply R_refl | ]. cbn [snd].
    intros r e2 s2.
    destruct (failed (compileResult (tmpStlPath e1) r));
      [ split; [ apply R_refl | exact I ] | ].
    unfold openFile_read. split; [ apply R_path | ]. cbn [snd].
    apply afterRead_keeps.
  - unfold openFile_read. split; [ apply R_path | ]. cbn [snd].
    apply afterRead_keeps.
Qed.

Lemma handleFileChange_keeps (e : Env) (s : State) :
  R s (fst (handleFileChange e s)) /\
  task_keeps R 3 (snd (handleFileChange e s)).
Proof.
  unfold handleFileChange.
  destruct (currentFile s) as [cf | ];
    [ | split; [ apply R_log | exact I ] ].
  destruct (String.eqb (toLowerCase (path_extname cf)) ".scad").
  - unfold compileScad. split; [ apply R_log | ]. cbn [snd].
    intros r e1 s1. unfold afterCompile.
    destruct (currentFile s1) as [cf1 | ] eqn:Hcf;
      [ | split; [ apply R_refl | exact I ] ].
    destruct (failed (compileResult (tmpStlPath e) r)).
    + split; [ | exact I ]. cbn [fst].
      eapply R_trans; [ exact (R_setup cf1 e1 s1 Hcf) | ].
      eapply R_trans; [ apply R_log | apply R_broadcast ].
    + split; [ | apply reload_keeps ]. cbn [fst].
      eapply R_trans; [ exact (R_setup cf1 e1 s1 Hcf) | apply R_path ].
  - split; [ apply R_log | ]. cbn [snd]. apply reload_keeps.
Qed.

Lemma park_keeps (tid : nat) (kind : TaskKind) (r : State * Task)
  (sys : System) :
  R (st sys) (fst r) -> task_keeps R 3 (snd r) -> tasks_keep R sys ->
  R (st sys) (st (park tid kind r sys)) /\ tasks_keep R (park tid kind r sys).
Proof.
  intros HR HT HS. unfold park.
  assert (Hdel : forall s1 f,
            tasks_keep R (mkSystem s1 (env sys) (delete tid (tasks sys))
                            (nextTask sys) f)).
  { intros s1 f i k t H. cbn [tasks] in H.
    apply lookup_delete_Some in H as [_ H]. exact (HS i k t H). }
  assert (Hins : forall s1 f t1, task_keeps R 3 t1 ->
            tasks_keep R (mkSystem s1 (env sys)
                            (<[tid := (kind, t1)]> (tasks sys))
                            (nextTask sys) f)).
  { intros s1 f t1 H1 i k t H. cbn [tasks] in H.
    apply lookup_insert_Some in H as [[_ H] | [_ H]];
      [ injection H as <- <-; exact H1 | exact (HS i k t H) ]. }
  destruct (snd r) as [v | m | k | a b k | p k] eqn:E; cbn [st].
  - split; [ exact HR | apply Hdel ].
  - split; [ | apply Hdel ].
    destruct kind; [ exact HR | ].
    eapply R_trans; [ exact HR | apply R_log ].
  - split; [ exact HR | apply Hins, HT ].
  - split; [ exact HR | apply Hins, HT ].
  - split; [ exact HR | apply Hins, HT ].
Qed.

Lemma start_keeps (kind : TaskKind) (p : Piece) (sys : System) :
  (forall e s, R s (fst (p e s)) /\ task_keeps R 3 (snd (p e s))) ->
  tasks_keep R sys ->
  R (st sys) (st (start kind p sys)) /\ tasks_keep R (start kind p sys).
Proof.
  intros Hp HS. unfold start.
  destruct (Hp (env sys) (st sys)) as [H1 H2].
  apply (park_keeps (nextTask sys) kind (p (env sys) (st sys))
           (mkSystem (st sys) (env sys) (tasks sys) (S (nextTask sys))
              (finished sys))); assumption.
Qed.

(** One turn of the event loop respects [R] and leaves in flight only
    tasks that respect it. *)
Lemma sys_step_keeps (ev : SysEvent) (sys sys' : System) :
  tasks_keep R sys -> sys_step ev sys = Some sys' ->
  R (st sys) (st sys') /\ tasks_keep R sys'.
Proof.
  intros HS Hstep.
  destruct ev as [filePath | tid ok | tid r | tid r | t | fs' | path | t | pev];
    cbn [sys_step] in Hstep.
  - injection Hstep as <-. apply start_keeps; [ | exact HS ].
    intros e s. apply openFile_keeps.
  - destruct (tasks sys !! tid) as [[kind [v | m | k | a b k | p k]] | ] eqn:E;
      try discriminate.
    injection Hstep as <-. destruct (HS tid kind _ E ok (env sys) (st sys))
      as [H1 H2].
    apply park_keeps; [ exact H1 | apply task_keeps_S, H2 | exact HS ].
  - destruct (tasks sys !! tid) as [[kind [v | m | k | a b k | p k]] | ] eqn:E;
      try discriminate.
    injection Hstep as <-. destruct (HS tid kind _ E r (env sys) (st sys))
      as [H1 H2].
    apply park_keeps; [ exact H1 | apply task_keeps_S, H2 | exact HS ].
  - destruct (tasks sys !! tid) as [[kind [v | m | k | a b k | p k]] | ] eqn:E;
      try discriminate.
    injection Hstep as <-. destruct (HS tid kind _ E r (env sys) (st sys))
      as [H1 H2].
    apply park_keeps; [ exact H1 | apply task_keeps_S, H2 | exact HS ].
  - destruct (_ && _); [ | discriminate ]. injection Hstep as <-.
    split; [ apply R_refl | exact HS ].
  - injection Hstep as <-. split; [ apply R_refl | exact HS ].
  - destruct (watcher (st sys)) as [files | ]; [ | discriminate ].
    destruct (existsb _ files); [ | discriminate ]. injection Hstep as <-.
    split; [ apply R_change | exact HS ].
  - destruct (dtimers (st sys) !! t) as [due | ]; [ | discriminate ].
    destruct (due <=? now (env sys)); [ | discriminate ].
    injection Hstep as <-.
    destruct (start_keeps ChangeTask handleFileChange
                (with_st (timerFired t (st sys)) sys)) as [H1 H2].
    + intros e s. apply handleFileChange_keeps.
    + exact HS.
    + split; [ | exact H2 ].
      eapply R_trans; [ apply R_fired | exact H1 ].
  - injection Hstep as <-. split; [ | exact HS ]. cbn [st with_st].
    destruct pev; try apply R_peer_step.
    eapply R_trans; [ apply R_peer_step | apply R_replay ].
Qed.

Lemma sys_run_keeps (evs : list SysEvent) : forall sys sys',
  tasks_keep R sys -> sys_run evs sys = Some sys' ->
  R (st sys) (st sys') /\ tasks_keep R sys'.
Proof.
  induction evs as [ | ev evs IH]; intros sys sys' HS Hrun.
  - injection Hrun as <-. split; [ apply R_refl | exact HS ].
  - cbn [sys_run] in Hrun.
    destruct (sys_step ev sys) as [sys1 | ] eqn:E; [ | discriminate ].
    destruct (sys_step_keeps ev sys sys1 HS E) as [H1 H2].
    destruct (IH sys1 sys' H2 Hrun) as [H3 H4].
    split; [ exact (R_trans _ _ _ H1 H3) | exact H4 ].
Qed.

Lemma sys_init_keeps (e : Env) : tasks_keep R (sys_init e).
Proof.
  intros tid kind t H. cbn in H. rewrite lookup_empty in H. discriminate.
Qed.

End Keeps.

Section Invariants.

(** Steps that leave alone what a property speaks of. *)
Ltac frame P :=
  intros; unfold preserves, P, onWatchChange, timerFired, log,
    set_currentStlPath, setupWatcher, set_watcher, broadcastAll, replay,
    set_peer in *;
  repeat match goal with
         | |- context [match currentFile ?s with _ => _ end] =>
             destruct (currentFile s) eqn:?
         | H : context [match currentFile ?s with _ => _ end] |- _ =>
             destruct (currentFile s) eqn:?
         end;
  cbn [currentFile currentStlBuffer lastBoundingBox dtimers debounceTimer
       watcher] in *;
  try solve [ auto | intuition congruence ].

(** An invariant that holds at the start holds in every state the event
    loop reaches, if each elementary step of the program keeps it. *)
Lemma reachable_invariant (P : State -> Prop) :
  (forall l s, P s -> P (log l s)) ->
  (forall v s, P s -> P (set_currentStlPath v s)) ->
  (forall cf env s, currentFile s = Some cf -> P s ->
                    P (setupWatcher cf env s)) ->
  (forall m s, P s -> P (broadcastAll m s)) ->
  (forall ev s, P s -> P (set_peer (peer_step ev (peer s)) s)) ->
  (forall c s, P s -> P (replay c s)) ->
  (forall env s, P s -> P (onWatchChange env s)) ->
  (forall t s, P s -> P (timerFired t s)) ->
  (forall absPath buf env s,
     P s -> P (fst (openFile_afterRead absPath (ReadOk buf) env s))) ->
  (forall buf env s, P s -> P (fst (reload (ReadOk buf) env s))) ->
  P initial_state ->
  forall e evs sys, sys_run evs (sys_init e) = Some sys -> P (st sys).
Proof.
  intros H1 H2 H3 H4 H5 H6 H7 H8 H9 H10 H0 e evs sys Hrun.
  assert (K : preserves P (st (sys_init e)) (st sys) /\
              tasks_keep (preserves P) sys).
  { apply (sys_run_keeps (preserves P)) with (evs := evs);
      unfold preserves; try assumption.
    - auto.
    - intros a b c Hab Hbc Ha. exact (Hbc (Hab Ha)).
    - apply sys_init_keeps. }
  exact (proj1 K H0).
Qed.

Lemma afterRead_state (absPath : string) (buf : Buffer) (e : Env) (s : State) :
  let s' := fst (openFile_afterRead absPath (ReadOk buf) e s) in
  currentFile s' = Some absPath /\
  currentStlBuffer s' = Some buf /\
  lastBoundingBox s' = parseStlBoundingBox buf /\
  dtimers s' = dtimers s /\ debounceTimer s' = debounceTimer s /\
  watcher s' = Some (watch_list e absPath) /\
  peer s'
  = broadcast (FileInfo (path_basename absPath))
      (broadcast ModelUpdated (peer s)).
Proof.
  unfold openFile_afterRead, openFile_install.
  rewrite (parse_box_of buf).
  destruct (statSync_size e absPath); repeat split.
Qed.

Lemma reload_state (buf : Buffer) (e : Env) (s : State) :
  let s' := fst (reload (ReadOk buf) e s) in
  currentFile s' = currentFile s /\
  currentStlBuffer s' = Some buf /\
  lastBoundingBox s' = parseStlBoundingBox buf /\
  dtimers s' = dtimers s /\ debounceTimer s' = debounceTimer s /\
  watcher s' = watcher s /\
  peer s' = broadcast ModelUpdated (peer s).
Proof. rewrite reload_ok, (parse_box_of buf). repeat split. Qed.

(** The box is the one of the buffer, in every state the event loop
    reaches. *)
Lemma reachable_box_of_buffer (e : Env) (evs : list SysEvent) (sys : System) :
  sys_run evs (sys_init e) = Some sys -> box_of_buffer (st sys).
Proof.
  apply (reachable_invariant box_of_buffer); try (frame box_of_buffer; fail).
  - intros absPath buf e1 s _. unfold box_of_buffer.
    destruct (afterRead_state absPath buf e1 s) as (_ & -> & -> & _).
    reflexivity.
  - intros buf e1 s _. unfold box_of_buffer.
    destruct (reload_state buf e1 s) as (_ & -> & -> & _). reflexivity.
Qed.

Lemma reachable_file_has_buffer (e : Env) (evs : list SysEvent)
  (sys : System) :
  sys_run evs (sys_init e) = Some sys -> file_has_buffer (st sys).
Proof.
  apply (reachable_invariant file_has_buffer);
    try (frame file_has_buffer; fail).
  - intros absPath buf e1 s _ _.
    destruct (afterRead_state absPath buf e1 s) as (_ & -> & _).
    discriminate.
  - intros buf e1 s _ _.
    destruct (reload_state buf e1 s) as (_ & -> & _). discriminate.
Qed.

Lemma timerFired_current (t : Z) (s : State) :
  pending_is_current s -> pending_is_current (timerFired t s).
Proof.
  intros H k due Hk. unfold timerFired in *.
  cbn [dtimers debounceTimer] in *.
  apply lookup_delete_Some in Hk as [_ Hk]. exact (H k due Hk).
Qed.

Lemma reachable_pending_is_current (e : Env) (evs : list SysEvent)
  (sys : System) :
  sys_run evs (sys_init e) = Some sys -> pending_is_current (st sys).
Proof.
  apply (reachable_invariant pending_is_current);
    try (frame pending_is_current; fail).
  - intros e1 s. exact (onWatchChange_current e1 s).
  - intros t s. exact (timerFired_current t s).
  - intros absPath buf e1 s Hs k due.
    destruct (afterRead_state absPath buf e1 s) as (_ & _ & _ & -> & -> & _).
    apply Hs.
  - intros buf e1 s Hs k due.
    destruct (reload_state buf e1 s) as (_ & _ & _ & -> & -> & _). apply Hs.
  - intros k due Hk. cbn in Hk. rewrite lookup_empty in Hk. discriminate.
Qed.

Lemma reachable_watches_active (e : Env) (evs : list SysEvent)
  (sys : System) :
  sys_run evs (sys_init e) = Some sys -> watches_active (st sys).
Proof.
  apply (reachable_invariant watches_active);
    try (frame watches_active; fail).
  - intros cf e1 s Hcf _ cf' Hcf'. unfold setupWatcher in *.
    cbn [currentFile set_watcher watcher] in *.
    replace cf' with cf by congruence. eexists. reflexivity.
  - intros absPath buf e1 s _ cf Hcf.
    destruct (afterRead_state absPath buf e1 s)
      as (Hf & _ & _ & _ & _ & Hw & _).
    rewrite Hf in Hcf. injection Hcf as <-.
    eexists. exact Hw.
  - intros buf e1 s Hs cf Hcf.
    destruct (reload_state buf e1 s) as (Hf & _ & _ & _ & _ & Hw & _).
    rewrite Hf in Hcf. rewrite Hw. exact (Hs cf Hcf).
  - intros cf Hcf. discriminate.
Qed.

(** Writing to sockets does not disturb the books of the channel. *)
Lemma ws_send_wf (c : Client) (m : OutMsg) (p : PeerState) :
  peer_wf p -> peer_wf (ws_send c m p).
Proof. intros W. destruct W; constructor; assumption. Qed.

Lemma broadcast_wf (m : OutMsg) (p : PeerState) :
  peer_wf p -> peer_wf (broadcast m p).
Proof.
  intros W. rewrite broadcast_spec. destruct W; constructor; assumption.
Qed.

Lemma reachable_peer_wf (e : Env) (evs : list SysEvent) (sys : System) :
  sys_run evs (sys_init e) = Some sys -> peer_wf (peer (st sys)).
Proof.
  apply (reachable_invariant (fun s => peer_wf (peer s)));
    try (intros; assumption).
  - intros m s W. apply broadcast_wf, W.
  - intros ev s W. apply peer_step_wf, W.
  - intros c s W. unfold replay. destruct (currentFile s); [ | exact W ].
    cbn [peer set_peer]. apply ws_send_wf, ws_send_wf, W.
  - intros absPath buf e1 s W.
    destruct (afterRead_state absPath buf e1 s)
      as (_ & _ & _ & _ & _ & _ & ->).
    apply broadcast_wf, broadcast_wf, W.
  - intros buf e1 s W.
    destruct (reload_state buf e1 s) as (_ & _ & _ & _ & _ & _ & ->).
    apply broadcast_wf, W.
  - exact peer_init_wf.
Qed.

Ltac loaded :=
  intros; unfold still_loaded, onWatchChange, timerFired, log,
    set_currentStlPath, setupWatcher, set_watcher, broadcastAll, replay,
    set_peer;
  repeat match goal with
         | |- context [match currentFile ?s with _ => _ end] =>
             destruct (currentFile s) eqn:?
         end;
  cbn [currentFile currentStlBuffer lastBoundingBox]; tauto.

Lemma still_loaded_keeps (sys sys' : System) (evs : list SysEvent) :
  tasks_keep still_loaded sys -> sys_run evs sys = Some sys' ->
  still_loaded (st sys) (st sys') /\ tasks_keep still_loaded sys'.
Proof.
  apply (sys_run_keeps still_loaded); try (loaded; fail).
  - intros a b c (A1 & A2 & A3) (B1 & B2 & B3). repeat split; auto.
  - intros absPath buf e1 s. unfold still_loaded.
    destruct (afterRead_state absPath buf e1 s) as (-> & -> & -> & _).
    rewrite (parse_box_of buf). repeat split; discriminate.
  - intros buf e1 s. unfold still_loaded.
    destruct (reload_state buf e1 s) as (-> & -> & -> & _).
    rewrite (parse_box_of buf). repeat split; auto; discriminate.
Qed.

(** The channel writes only requests of its own accord. *)
Lemma peer_step_sent (ev : PeerEvent) (p : PeerState) :
  forallb (fun q => is_request (snd q)) (sent p) = true ->
  forallb (fun q => is_request (snd q)) (sent (peer_step ev p)) = true.
Proof.
  intros H. destruct ev as [body ms | raw | t | c | id | id rs];
    cbn [peer_step]; try exact H.
  - destruct (List.find is_ready (wsClients p)) as [ws | ] eqn:F.
    + rewrite (sendAndWait_ready p body ms ws F). cbn [snd sent].
      rewrite forallb_app, H. reflexivity.
    + rewrite (sendAndWait_not_ready p body ms F). exact H.
  - destruct raw as [ | [ | n | ] b]; cbn [onMessage]; try exact H.
    destruct (n =? 0); [ exact H | ].
    destruct (pendingRequests p !! n); exact H.
  - unfold fireTimeout. destruct (timers p !! t); exact H.
Qed.

End Invariants.



(** X24.  While a file is active its mesh is served.  In every state
    the event loop reaches, if [currentFile] is set then
    [GET /model.stl] answers with the current buffer, as
    application/octet-stream and no-store; it answers 404 "No model
    loaded" only while no file is active. *)
Theorem model_served_while_open (e : Env) (evs : list SysEvent)
  (sys : System) :
  sys_run evs (sys_init e) = Some sys ->
  currentFile (st sys) <> None ->
  exists buf,
    currentStlBuffer (st sys) = Some buf /\
    getModelStl (st sys) = OkBinary "application/octet-stream" "no-store" buf.
Proof.
  intros Hrun Hcf.
  pose proof (reachable_file_has_buffer e evs sys Hrun Hcf) as H.
  unfold getModelStl.
  destruct (currentStlBuffer (st sys)) as [buf | ]; [ | contradiction ].
  exists buf. split; reflexivity.
Qed.

(** Witness for X24: the same history. *)
Lemma model_served_while_open_witness :
  exists buf,
    currentStlBuffer (st busy_system) = Some buf /\
    getModelStl (st busy_system)
    = OkBinary "application/octet-stream" "no-store" buf.
Proof.
  apply (model_served_while_open sample_env busy_history busy_system).
  - vm_compute. reflexivity.
  - vm_compute. discriminate.
Defined.

(** X25.  Nothing ever unloads the model.  From any state the event
    loop reaches, no further history resets [currentFile],
    [currentStlBuffer] or [lastBoundingBox] to null: failed opens,
    failed compilations and failed reads included. *)
Theorem model_never_unloaded (e : Env) (evs0 evs : list SysEvent)
  (sys sys' : System) :
  sys_run evs0 (sys_init e) = Some sys ->
  sys_run evs sys = Some sys' ->
  still_loaded (st sys) (st sys').
Proof.
  intros H0 H1.
  destruct (still_loaded_keeps (sys_init e) sys evs0) as [_ K];
    [ apply sys_init_keeps | exact H0 | ].
  destruct (still_loaded_keeps sys sys' evs K H1) as [H _]. exact H.
Qed.

(** Witness for X25: from the first open to the end of that history. *)
Lemma model_never_unloaded_witness :
  still_loaded (st opened_system) (st busy_system).
Proof.
  apply (model_never_unloaded sample_env open_a
           (change_a ++ open_b ++ finish_a) opened_system busy_system);
    vm_compute; reflexivity.
Defined.

(** X26.  At most one debounce timer is pending.  In every state the
    event loop reaches, any two pending debounce timers are the same
    timer, and it is the one [debounceTimer] holds: a change clears the
    timer before it and nothing else starts one. *)
Theorem one_debounce_timer (e : Env) (evs : list SysEvent) (sys : System)
  (t1 t2 due1 due2 : Z) :
  sys_run evs (sys_init e) = Some sys ->
  dtimers (st sys) !! t1 = Some due1 ->
  dtimers (st sys) !! t2 = Some due2 ->
  t1 = t2 /\ debounceTimer (st sys) = Some t1.
Proof.
  intros Hrun H1 H2.
  pose proof (reachable_pending_is_current e evs sys Hrun) as P.
  pose proof (P t1 due1 H1) as E1. pose proof (P t2 due2 H2) as E2.
  split; [ congruence | exact E1 ].
Qed.

(** Witness for X26: two changes 100 ms apart leave the timer of the
    second. *)
Lemma one_debounce_timer_witness :
  1 = 1 /\ debounceTimer (st pending_system) = Some 1.
Proof.
  apply (one_debounce_timer sample_env pending_history pending_system
           1 1 2400 2400).
  - vm_compute. reflexivity.
  - vm_compute. reflexivity.
  - vm_compute. reflexivity.
Defined.

(** X27.  Standby.  As long as no file has been requested, whatever
    else happens (renderers connecting, requests, clock, changes on
    disk), no file is active, [GET /model.stl] answers 404, nothing is
    watched, no timer and no task is pending, and the only messages
    written to renderers are requests: a renderer that connects is sent
    neither file-info nor model-updated. *)
Theorem standby_until_opened (e : Env) (evs : list SysEvent) (sys : System) :
  forallb (fun ev => negb (is_open ev)) evs = true ->
  sys_run evs (sys_init e) = Some sys ->
  activeModel (st sys) = (None, None, None) /\
  getModelStl (st sys) = NotFound "No model loaded" /\
  watcher (st sys) = None /\ dtimers (st sys) = ∅ /\ tasks sys = ∅ /\
  forallb (fun q => is_request (snd q)) (sent (peer (st sys))) = true.
Proof.
  intros Hev Hrun.
  assert (G : forall evs sys0 sys1,
            forallb (fun ev => negb (is_open ev)) evs = true ->
            sys_run evs sys0 = Some sys1 ->
            (activeModel (st sys0) = (None, None, None) /\
             watcher (st sys0) = None /\ dtimers (st sys0) = ∅ /\
             tasks sys0 = ∅ /\
             forallb (fun q => is_request (snd q)) (sent (peer (st sys0)))
             = true) ->
            (activeModel (st sys1) = (None, None, None) /\
             watcher (st sys1) = None /\ dtimers (st sys1) = ∅ /\
             tasks sys1 = ∅ /\
             forallb (fun q => is_request (snd q)) (sent (peer (st sys1)))
             = true)).
  { clear. induction evs as [ | ev evs IH]; intros sys0 sys1 Hev Hrun J.
    - injection Hrun as <-. exact J.
    - cbn [forallb] in Hev. apply andb_true_iff in Hev as [Hne Hev].
      cbn [sys_run] in Hrun.
      destruct (sys_step ev sys0) as [sysm | ] eqn:E; [ | discriminate ].
      apply (IH sysm sys1 Hev Hrun). clear IH Hrun Hev.
      destruct J as (Jm & Jw & Jd & Jt & Js).
      destruct ev as [fp | tid ok | tid r | tid r | t | fs' | path | t | pev];
        cbn [sys_step] in E.
      + discriminate.
      + rewrite Jt, lookup_empty in E. discriminate.
      + rewrite Jt, lookup_empty in E. discriminate.
      + rewrite Jt, lookup_empty in E. discriminate.
      + destruct (_ && _); [ | discriminate ]. injection E as <-.
        repeat split; assumption.
      + injection E as <-. repeat split; assumption.
      + rewrite Jw in E. discriminate.
      + rewrite Jd, lookup_empty in E. discriminate.
      + injection E as <-. cbn [st with_st tasks].
        assert (Hcf : currentFile (st sys0) = None)
          by (unfold activeModel in Jm; congruence).
        assert (Hst : (match pev with
                       | EvConnect c =>
                           replay c (set_peer (peer_step pev (peer (st sys0)))
                                       (st sys0))
                       | _ => set_peer (peer_step pev (peer (st sys0)))
                                (st sys0)
                       end)
                      = set_peer (peer_step pev (peer (st sys0))) (st sys0)).
        { destruct pev; try reflexivity.
          unfold replay. cbn [currentFile set_peer]. rewrite Hcf.
          reflexivity. }
        rewrite Hst. cbn [set_peer watcher dtimers peer].
        repeat split; try assumption.
        apply peer_step_sent, Js. }
  destruct (G evs (sys_init e) sys Hev Hrun) as (Jm & Jw & Jd & Jt & Js).
  { repeat split. }
  repeat split; try assumption.
  unfold getModelStl. unfold activeModel in Jm.
  replace (currentStlBuffer (st sys)) with (@None Buffer) by congruence.
  reflexivity.
Qed.

(** Witness for X27: a renderer connects and is sent a request, and a
    file appears on disk, no file being open. *)
Lemma standby_until_opened_witness :
  activeModel (st standby_system) = (None, None, None) /\
  getModelStl (st standby_system) = NotFound "No model loaded" /\
  watcher (st standby_system) = None /\ dtimers (st standby_system) = ∅ /\
  tasks standby_system = ∅ /\
  forallb (fun q => is_request (snd q)) (sent (peer (st standby_system)))
  = true.
Proof.
  apply (standby_until_opened sample_env standby_history standby_system).
  - reflexivity.
  - vm_compute. reflexivity.
Defined.





(** X30.  Broadcasts and replays do not disturb the requests.  In every
    state the event loop reaches, with opens, change handlers and
    connections interleaved with the requests, each request identifier
    has at most one completion on record, and every pending request
    still owns its timer. *)
Theorem requests_undisturbed (e : Env) (evs : list SysEvent) (sys : System)
  (rid : Z) :
  sys_run evs (sys_init e) = Some sys ->
  (length (outcomes rid (peer (st sys))) <= 1)%nat /\
  (forall en, pendingRequests (peer (st sys)) !! rid = Some en ->
     outcomes rid (peer (st sys)) = [] /\
     exists d, timers (peer (st sys)) !! e_timer en
               = Some (mkRequestTimer rid d)).
Proof.
  intros Hrun. pose proof (reachable_peer_wf e evs sys Hrun) as W.
  set (p := peer (st sys)) in *. split.
  - destruct (decide (0 < rid <= requestIdCounter p)) as [Hr | Hr].
    + destruct (pendingRequests p !! rid) as [en | ] eqn:E.
      * rewrite (wf_pending_open p W rid en E). cbn. lia.
      * destruct (wf_closed_once p W rid Hr E) as (o & ->). cbn. lia.
    + rewrite outcomes_none; [ cbn; lia | ].
      intros o Ho. apply Hr. exact (wf_settled_issued p W rid o Ho).
  - intros en E. split; [ exact (wf_pending_open p W rid en E) | ].
    exact (wf_entry_timer p W rid en E).
Qed.

(** Witness for X30: a request is sent to the renderer while [a.scad]
    recompiles, and the model-updated of the resync overtakes the
    answer. *)
Lemma requests_undisturbed_witness :
  (length (outcomes 1 (peer (st request_system))) <= 1)%nat /\
  (forall en, pendingRequests (peer (st request_system)) !! 1 = Some en ->
     outcomes 1 (peer (st request_system)) = [] /\
     exists d, timers (peer (st request_system)) !! e_timer en
               = Some (mkRequestTimer 1 d)).
Proof.
  apply (requests_undisturbed sample_env request_history request_system 1).
  vm_compute. reflexivity.
Defined.
